(** * MBTA transit pipeline: ingestion, aggregation and storage

    A shallow embedding of the ingestion-aggregation core of the MBTA
    pipeline (package [mbta_pipeline]) together with the properties its
    specification states about it.

    Conventions used throughout.
    - Python [int] is [Z]; [len] and counters are [nat].
    - Python [float] values that the code only compares, or obtains by one
      true division of two integers, are exact rationals [Q]; results are
      compared with [==].
    - [datetime] is a number of microseconds, [timedelta] a difference of
      such numbers.
    - A [str] is held as its UTF-8 encoding, one [ascii] per byte.
    - [Optional[T]] is [option T]; a [dict] with string keys is a
      [gmap string _]; a raised exception is the [inl] of a sum.
    - State that the code mutates (the session, the ingestor's counters,
      the clock) is passed explicitly. *)

From Stdlib Require Import ZArith QArith Lia String Ascii.
From stdpp Require Import base option gmap strings list fin_maps.

Open Scope string_scope.
Open Scope list_scope.
Open Scope Z_scope.

(** ** Python idioms *)

Module Py.

(** Truthiness of an [Optional[int]]: [None] and [0] are falsy. *)
Definition truthy_int (v : option Z) : bool :=
  match v with
  | Some d => negb (d =? 0)
  | None => false
  end.

(** Truthiness of an [Optional[str]]: [None] and the empty string are falsy. *)
Definition truthy_str (v : option string) : bool :=
  match v with
  | Some s => negb (String.eqb s "")
  | None => false
  end.

(** [sum], [max] and [min] of a list of integers ([max] and [min] are only
    called on non-empty lists; the head is the seed). *)
Definition sum (l : list Z) : Z := foldr Z.add 0 l.

Definition max (l : list Z) : Z :=
  match l with
  | [] => 0
  | x :: r => foldl Z.max x r
  end.

Definition min (l : list Z) : Z :=
  match l with
  | [] => 0
  | x :: r => foldl Z.min x r
  end.

(** True division [a / b] of an integer by a positive length. *)
Definition truediv (a : Z) (n : nat) : Q := Qmake a (Pos.of_nat n).

(** [x < y] and [x <= y] on floats. *)
Definition Qltb (x y : Q) : bool := negb (Qle_bool y x).
Definition Qleb (x y : Q) : bool := Qle_bool x y.

(** The white space that [str.strip] removes.  Below 128: U+0009 to
    U+000D, U+001C to U+001F and the space. *)
Definition is_space (c : ascii) : bool :=
  let n := nat_of_ascii c in
  ((9 <=? n)%nat && (n <=? 13)%nat) || ((28 <=? n)%nat && (n <=? 32)%nat).

(** In two bytes: U+0085 and U+00A0. *)
Definition is_space_2 (c d : ascii) : bool :=
  let '(c, d) := (N_of_ascii c, N_of_ascii d) in
  ((c =? 194) && ((d =? 133) || (d =? 160)))%N.

(** In three bytes: U+1680, U+2000 to U+200A, U+2028, U+2029, U+202F,
    U+205F and U+3000. *)
Definition is_space_3 (c d e : ascii) : bool :=
  let '(c, d, e) := (N_of_ascii c, N_of_ascii d, N_of_ascii e) in
  (((c =? 225) && (d =? 154) && (e =? 128))
   || ((c =? 226) && (d =? 128)
       && (((128 <=? e) && (e <=? 138)) || (e =? 168) || (e =? 169) || (e =? 175)))
   || ((c =? 226) && (d =? 129) && (e =? 159))
   || ((c =? 227) && (d =? 128) && (e =? 128)))%N.

(** [not value.strip()]: the string holds nothing but white space. *)
Fixpoint is_blank (s : string) : bool :=
  match s with
  | EmptyString => true
  | String c r =>
      if is_space c then is_blank r
      else
        match r with
        | EmptyString => false
        | String d r' =>
            if is_space_2 c d then is_blank r'
            else
              match r' with
              | EmptyString => false
              | String e r'' => is_space_3 c d e && is_blank r''
              end
        end
  end.

End Py.

(** ** Record model ([models/transit.py]) *)

Module Transit.

Record Prediction := {
  prediction_id : string;
  p_trip_id : string;
  p_stop_id : string;
  p_route_id : string;
  arrival_time : option Z;
  departure_time : option Z;
  schedule_relationship : option string;
  p_vehicle_id : option string;
  vehicle_label : option string;
  status : option string;
  delay : option Z;
}.

Record VehiclePosition := {
  v_vehicle_id : string;
  v_trip_id : option string;
  v_route_id : option string;
  latitude : Q;
  longitude : Q;
  bearing : option Q;
  speed : option Q;
  current_status : option string;
  v_timestamp : Z;
  congestion_level : option string;
  occupancy_status : option string;
}.

Record TripUpdate := {
  u_trip_id : string;
  u_vehicle_id : option string;
  u_route_id : option string;
  u_timestamp : Z;
  u_delay : option Z;
}.

Record Alert := {
  alert_id : string;
  alert_header_text : option string;
  alert_description_text : option string;
  alert_url : option string;
  effective_start_date : option Z;
  effective_end_date : option Z;
  affected_routes : list string;
  affected_stops : list string;
  affected_trips : list string;
  alert_severity_level : option string;
  effect : option string;
}.

Record Route := {
  route_id : string;
  route_name : string;
  route_type : Z;
  route_color : option string;
  route_text_color : option string;
}.

Record Stop := {
  stop_id : string;
  stop_name : string;
  stop_lat : option Q;
  stop_lon : option Q;
  wheelchair_boarding : option Z;
}.

Record Trip := {
  trip_id : string;
  t_route_id : string;
  service_id : option string;
  trip_headsign : option string;
  trip_short_name : option string;
  direction_id : option Z;
  block_id : option string;
  shape_id : option string;
  wheelchair_accessible : option Z;
  bikes_allowed : option Z;
}.

(** The values the pipeline handles; [Other] stands for an object of any
    other class, [type(data).__name__] being its payload. *)
Inductive Data :=
| DPrediction (p : Prediction)
| DVehiclePosition (v : VehiclePosition)
| DTripUpdate (u : TripUpdate)
| DAlert (a : Alert)
| DRoute (r : Route)
| DStop (s : Stop)
| DTrip (t : Trip)
| Other (class_name : string).

Definition type_name (d : Data) : string :=
  match d with
  | DPrediction _ => "Prediction"
  | DVehiclePosition _ => "VehiclePosition"
  | DTripUpdate _ => "TripUpdate"
  | DAlert _ => "Alert"
  | DRoute _ => "Route"
  | DStop _ => "Stop"
  | DTrip _ => "Trip"
  | Other n => n
  end.

End Transit.

(** ** Analytics engine ([processing/analytics.py]) *)

Module Analytics.

Record PerformanceMetrics := {
  on_time_percentage : Q;
  average_delay : Q;
  delay_std_dev : Q;
  total_trips : nat;
  delayed_trips : nat;
  severely_delayed_trips : nat;
  pm_timestamp : Z;
}.

Record AnomalyDetection := {
  anomaly_type : string;
  severity : string;
  description : string;
  affected_routes : list string;
  affected_stops : list string;
  confidence_score : Q;
  ad_timestamp : Z;
}.

(** [_calculate_overall_status]: the score is a local variable updated in
    place; [service_health] is the dict returned by the storage service,
    of which only the integer entry [total_alerts] is read. *)
Definition _calculate_overall_status (performance : PerformanceMetrics)
    (anomalies : list AnomalyDetection) (service_health : gmap string Z) : string :=
  let score := 100 in
  let score :=
    if Py.Qltb (on_time_percentage performance) 80 then score - 20
    else if Py.Qltb (on_time_percentage performance) 90 then score - 10
    else score in
  let high_severity_anomalies :=
    length (filter (λ a, severity a = "high") anomalies) in
  let score := score - Z.of_nat high_severity_anomalies * 15 in
  let score :=
    if 5 <? default 0 (service_health !! "total_alerts") then score - 10
    else score in
  if 80 <=? score then "excellent"
  else if 60 <=? score then "good"
  else if 40 <=? score then "fair"
  else "poor".

End Analytics.

(** The service-status scoring rule as the specification words it, kept
    apart from the code so that the two can be compared. *)

Module StatusRule.

Inductive ServiceStatus := Excellent | Good | Fair | Poor.

Definition label (s : ServiceStatus) : string :=
  match s with
  | Excellent => "excellent"
  | Good => "good"
  | Fair => "fair"
  | Poor => "poor"
  end.

(** "subtract 20 if on-time percentage < 80, else subtract 10 if < 90" *)
Definition on_time_deduction (on_time : Q) : Z :=
  if Qlt_le_dec on_time 80 then 20
  else if Qlt_le_dec on_time 90 then 10
  else 0.

(** "subtract 15 per high-severity anomaly" *)
Fixpoint anomaly_deduction (severities : list string) : Z :=
  match severities with
  | [] => 0
  | s :: rest =>
      (if String.eqb s "high" then 15 else 0) + anomaly_deduction rest
  end.

(** "subtract 10 if total active alerts > 5" *)
Definition alert_deduction (total_alerts : Z) : Z :=
  if Z_gt_dec total_alerts 5 then 10 else 0.

Definition score (on_time : Q) (severities : list string) (total_alerts : Z) : Z :=
  100 - on_time_deduction on_time - anomaly_deduction severities
      - alert_deduction total_alerts.

Definition status_of_score (s : Z) : ServiceStatus :=
  if Z_ge_dec s 80 then Excellent
  else if Z_ge_dec s 60 then Good
  else if Z_ge_dec s 40 then Fair
  else Poor.

Definition overall_status (on_time : Q) (severities : list string) (total_alerts : Z)
    : ServiceStatus :=
  status_of_score (score on_time severities total_alerts).

End StatusRule.

(** ** Aggregator ([processing/aggregator.py]) *)

Module Aggregator.
Import Transit.

(** [aggregations] is the [defaultdict(list)] keyed by class name;
    [summary_stats] keeps the per-type count (its two other entries are
    clock readings). *)
Record DataAggregator := {
  aggregations : gmap string (list Data);
  summary_stats : gmap string nat;
}.

Definition empty : DataAggregator :=
  {| aggregations := ∅; summary_stats := ∅ |}.

(** [self.aggregations.get(data_type, [])] *)
Definition get (self : DataAggregator) (data_type : string) : list Data :=
  default [] (aggregations self !! data_type).

Definition _update_summary_stats (data_type : string) (stats : gmap string nat)
    : gmap string nat :=
  <[data_type := S (default 0%nat (stats !! data_type))]> stats.

Definition process (data : Data) (self : DataAggregator) : DataAggregator :=
  let data_type := type_name data in
  {| aggregations := <[data_type := get self data_type ++ [data]]> (aggregations self);
     summary_stats := _update_summary_stats data_type (summary_stats self) |}.

(** The buffers read back at their class: the buffer filed under
    ["Prediction"] holds the [Prediction] instances, and so on. *)
Definition as_prediction (d : Data) : option Prediction :=
  match d with DPrediction p => Some p | _ => None end.
Definition as_position (d : Data) : option VehiclePosition :=
  match d with DVehiclePosition v => Some v | _ => None end.
Definition as_alert (d : Data) : option Alert :=
  match d with DAlert a => Some a | _ => None end.

Definition predictions (self : DataAggregator) : list Prediction :=
  omap as_prediction (get self "Prediction").
Definition vehicle_positions (self : DataAggregator) : list VehiclePosition :=
  omap as_position (get self "VehiclePosition").
Definition alerts (self : DataAggregator) : list Alert :=
  omap as_alert (get self "Alert").

(** *** [_get_performance_metrics] *)

(** The returned dict; the key [delay_count] is absent on the empty branch. *)
Record PerformanceMetrics := {
  avg_delay : Q;
  max_delay : Z;
  min_delay : Z;
  delay_count : option nat;
}.

Definition _get_performance_metrics (self : DataAggregator) : PerformanceMetrics :=
  let delays := omap delay (predictions self) in
  match delays with
  | [] => {| avg_delay := 0; max_delay := 0; min_delay := 0; delay_count := None |}
  | _ =>
      {| avg_delay := Py.truediv (Py.sum delays) (length delays);
         max_delay := Py.max delays;
         min_delay := Py.min delays;
         delay_count := Some (length delays) |}
  end.

(** *** [get_route_summary] *)

(** An entry of [route_stats] while the three loops run. *)
Record RouteAcc := {
  ra_predictions : nat;
  ra_delays : list Z;
  ra_vehicle_positions : nat;
  ra_alerts : nat;
}.

(** The same entry once the last loop has added the three delay keys. *)
Record RouteStats := {
  rs_predictions : nat;
  rs_delays : list Z;
  rs_vehicle_positions : nat;
  rs_alerts : nat;
  rs_avg_delay : Q;
  rs_max_delay : Z;
  rs_min_delay : Z;
}.

Definition route_default : RouteAcc :=
  {| ra_predictions := 0; ra_delays := []; ra_vehicle_positions := 0; ra_alerts := 0 |}.

(** [stats[key] = f(stats[key])] on a [defaultdict]: a missing key is
    first created with the default entry. *)
Definition update {A} (dflt : A) (key : string) (f : A → A) (stats : gmap string A)
    : gmap string A :=
  <[key := f (default dflt (stats !! key))]> stats.

Definition route_count_prediction (s : RouteAcc) : RouteAcc :=
  {| ra_predictions := S (ra_predictions s); ra_delays := ra_delays s;
     ra_vehicle_positions := ra_vehicle_positions s; ra_alerts := ra_alerts s |}.
Definition route_append_delay (d : Z) (s : RouteAcc) : RouteAcc :=
  {| ra_predictions := ra_predictions s; ra_delays := ra_delays s ++ [d];
     ra_vehicle_positions := ra_vehicle_positions s; ra_alerts := ra_alerts s |}.
Definition route_count_position (s : RouteAcc) : RouteAcc :=
  {| ra_predictions := ra_predictions s; ra_delays := ra_delays s;
     ra_vehicle_positions := S (ra_vehicle_positions s); ra_alerts := ra_alerts s |}.
Definition route_count_alert (s : RouteAcc) : RouteAcc :=
  {| ra_predictions := ra_predictions s; ra_delays := ra_delays s;
     ra_vehicle_positions := ra_vehicle_positions s; ra_alerts := S (ra_alerts s) |}.

Definition route_step_prediction (stats : gmap string RouteAcc) (p : Prediction)
    : gmap string RouteAcc :=
  let stats := update route_default (p_route_id p) route_count_prediction stats in
  match delay p with
  | Some d =>
      if Py.truthy_int (Some d)
      then update route_default (p_route_id p) (route_append_delay d) stats
      else stats
  | None => stats
  end.

Definition route_step_position (stats : gmap string RouteAcc) (v : VehiclePosition)
    : gmap string RouteAcc :=
  match v_route_id v with
  | Some r =>
      if Py.truthy_str (Some r)
      then update route_default r route_count_position stats
      else stats
  | None => stats
  end.

Definition route_step_alert (stats : gmap string RouteAcc) (a : Alert)
    : gmap string RouteAcc :=
  foldl (λ st r, update route_default r route_count_alert st) stats (affected_routes a).

Definition route_finish (s : RouteAcc) : RouteStats :=
  match ra_delays s with
  | [] =>
      {| rs_predictions := ra_predictions s; rs_delays := ra_delays s;
         rs_vehicle_positions := ra_vehicle_positions s; rs_alerts := ra_alerts s;
         rs_avg_delay := 0; rs_max_delay := 0; rs_min_delay := 0 |}
  | _ =>
      {| rs_predictions := ra_predictions s; rs_delays := ra_delays s;
         rs_vehicle_positions := ra_vehicle_positions s; rs_alerts := ra_alerts s;
         rs_avg_delay := Py.truediv (Py.sum (ra_delays s)) (length (ra_delays s));
         rs_max_delay := Py.max (ra_delays s);
         rs_min_delay := Py.min (ra_delays s) |}
  end.

Definition route_accumulate (self : DataAggregator) : gmap string RouteAcc :=
  let stats := foldl route_step_prediction ∅ (predictions self) in
  let stats := foldl route_step_position stats (vehicle_positions self) in
  foldl route_step_alert stats (alerts self).

Definition get_route_summary (self : DataAggregator) : gmap string RouteStats :=
  route_finish <$> route_accumulate self.

(** *** [get_stop_summary] *)

Record StopAcc := {
  sa_predictions : nat;
  sa_delays : list Z;
  sa_alerts : nat;
}.

Record StopStats := {
  ss_predictions : nat;
  ss_delays : list Z;
  ss_alerts : nat;
  ss_avg_delay : Q;
  ss_max_delay : Z;
  ss_min_delay : Z;
}.

Definition stop_default : StopAcc :=
  {| sa_predictions := 0; sa_delays := []; sa_alerts := 0 |}.

Definition stop_count_prediction (s : StopAcc) : StopAcc :=
  {| sa_predictions := S (sa_predictions s); sa_delays := sa_delays s;
     sa_alerts := sa_alerts s |}.
Definition stop_append_delay (d : Z) (s : StopAcc) : StopAcc :=
  {| sa_predictions := sa_predictions s; sa_delays := sa_delays s ++ [d];
     sa_alerts := sa_alerts s |}.
Definition stop_count_alert (s : StopAcc) : StopAcc :=
  {| sa_predictions := sa_predictions s; sa_delays := sa_delays s;
     sa_alerts := S (sa_alerts s) |}.

Definition stop_step_prediction (stats : gmap string StopAcc) (p : Prediction)
    : gmap string StopAcc :=
  let stats := update stop_default (p_stop_id p) stop_count_prediction stats in
  match delay p with
  | Some d =>
      if Py.truthy_int (Some d)
      then update stop_default (p_stop_id p) (stop_append_delay d) stats
      else stats
  | None => stats
  end.

Definition stop_step_alert (stats : gmap string StopAcc) (a : Alert)
    : gmap string StopAcc :=
  foldl (λ st s, update stop_default s stop_count_alert st) stats (affected_stops a).

Definition stop_finish (s : StopAcc) : StopStats :=
  match sa_delays s with
  | [] =>
      {| ss_predictions := sa_predictions s; ss_delays := sa_delays s;
         ss_alerts := sa_alerts s;
         ss_avg_delay := 0; ss_max_delay := 0; ss_min_delay := 0 |}
  | _ =>
      {| ss_predictions := sa_predictions s; ss_delays := sa_delays s;
         ss_alerts := sa_alerts s;
         ss_avg_delay := Py.truediv (Py.sum (sa_delays s)) (length (sa_delays s));
         ss_max_delay := Py.max (sa_delays s);
         ss_min_delay := Py.min (sa_delays s) |}
  end.

Definition stop_accumulate (self : DataAggregator) : gmap string StopAcc :=
  let stats := foldl stop_step_prediction ∅ (predictions self) in
  foldl stop_step_alert stats (alerts self).

Definition get_stop_summary (self : DataAggregator) : gmap string StopStats :=
  stop_finish <$> stop_accumulate self.


(** *** [_get_service_metrics], [get_service_health_summary] and
    [_get_overall_service_status] *)

(** [sum(1 for p in predictions if cond(p))] *)
Definition count_if {A} (cond : A → bool) (l : list A) : nat :=
  length (List.filter cond l).

(** [p.delay and lo < p.delay] and [p.delay and lo < p.delay <= hi] *)
Definition delay_over (lo : Z) (p : Prediction) : bool :=
  match delay p with
  | Some d => Py.truthy_int (Some d) && (lo <? d)
  | None => false
  end.

Definition delay_within (lo hi : Z) (p : Prediction) : bool :=
  match delay p with
  | Some d => Py.truthy_int (Some d) && ((lo <? d) && (d <=? hi))
  | None => false
  end.

Record ServiceMetrics := {
  sm_total_predictions : nat;
  sm_total_vehicles : nat;
  active_routes : nat;
  active_stops : nat;
  delayed_predictions : nat;
}.

Definition _get_service_metrics (self : DataAggregator) : ServiceMetrics :=
  {| sm_total_predictions := length (get self "Prediction");
     sm_total_vehicles := length (get self "VehiclePosition");
     active_routes := size (list_to_set (map p_route_id (predictions self)) : gset string);
     active_stops := size (list_to_set (map p_stop_id (predictions self)) : gset string);
     delayed_predictions := count_if (delay_over 0) (predictions self) |}.

(** The counts of the dict [get_service_health_summary] returns (its
    other entries are the clock, a percentage computed in floating point
    and the status derived from it). *)
Record ServiceHealth := {
  total_predictions : nat;
  total_vehicles : nat;
  total_alerts : nat;
  minor : nat;
  moderate : nat;
  major : nat;
}.

Definition get_service_health_summary (self : DataAggregator) : ServiceHealth :=
  {| total_predictions := length (get self "Prediction");
     total_vehicles := length (get self "VehiclePosition");
     total_alerts := length (get self "Alert");
     minor := count_if (delay_within 0 300) (predictions self);
     moderate := count_if (delay_within 300 900) (predictions self);
     major := count_if (delay_over 900) (predictions self) |}.

Definition _get_overall_service_status (delay_percentage : Q) (total_alerts : Z) : string :=
  if Py.Qltb 20 delay_percentage || (10 <? total_alerts) then "poor"
  else if Py.Qltb 10 delay_percentage || (5 <? total_alerts) then "fair"
  else if Py.Qltb 5 delay_percentage || (2 <? total_alerts) then "good"
  else "excellent".

End Aggregator.

(** ** Validator ([processing/validator.py], [processing/base.py]) *)

Module Validator.
Import Transit.

Record CoordinateBounds := {
  lat_min : Q;
  lat_max : Q;
  lon_min : Q;
  lon_max : Q;
}.

(** The dict of dicts built by [_setup_validation_rules], one field per
    entry; a [timedelta] is a number of microseconds. *)
Record Rules := {
  stop_required_fields : list string;
  stop_coordinate_bounds : CoordinateBounds;
  route_required_fields : list string;
  route_type_range : Q * Q;
  trip_required_fields : list string;
  direction_id_range : Q * Q;
  prediction_required_fields : list string;
  delay_bounds : Q * Q;
  max_future_prediction : Z;
  position_required_fields : list string;
  position_coordinate_bounds : CoordinateBounds;
  speed_bounds : Q * Q;
  position_max_age : Z;
  trip_update_required_fields : list string;
  trip_update_max_age : Z;
  alert_required_fields : list string;
  alert_max_age : Z;
}.

Definition second : Z := 1000000.
Definition minutes (n : Z) : Z := n * 60 * second.
Definition hours (n : Z) : Z := n * 60 * 60 * second.
Definition days (n : Z) : Z := n * 24 * 60 * 60 * second.

Definition _setup_validation_rules : Rules :=
  {| stop_required_fields := ["stop_id"; "stop_name"];
     stop_coordinate_bounds :=
       {| lat_min := 42; lat_max := 43; lon_min := -715 # 10; lon_max := -705 # 10 |};
     route_required_fields := ["route_id"; "route_name"; "route_type"];
     route_type_range := (0, 4)%Q;
     trip_required_fields := ["trip_id"; "route_id"];
     direction_id_range := (0, 1)%Q;
     prediction_required_fields := ["prediction_id"; "trip_id"; "stop_id"; "route_id"];
     delay_bounds := (-3600, 3600)%Q;
     max_future_prediction := hours 2;
     position_required_fields := ["vehicle_id"; "latitude"; "longitude"; "timestamp"];
     position_coordinate_bounds :=
       {| lat_min := 42; lat_max := 43; lon_min := -715 # 10; lon_max := -705 # 10 |};
     speed_bounds := (0, 50)%Q;
     position_max_age := minutes 30;
     trip_update_required_fields := ["trip_id"; "timestamp"];
     trip_update_max_age := hours 1;
     alert_required_fields := ["alert_id"];
     alert_max_age := days 7 |}.

(** What [getattr(obj, field, None)] yields, as far as
    [_check_required_fields] looks at it. *)
Inductive Attr :=
| ANone
| AStr (s : string)
| AValue.

Definition of_opt_str (v : option string) : Attr :=
  match v with Some s => AStr s | None => ANone end.
Definition of_opt {A} (v : option A) : Attr :=
  match v with Some _ => AValue | None => ANone end.

Definition getattr (obj : Data) (field : string) : Attr :=
  match obj with
  | DStop s =>
      if String.eqb field "stop_id" then AStr (stop_id s)
      else if String.eqb field "stop_name" then AStr (stop_name s)
      else if String.eqb field "stop_lat" then of_opt (stop_lat s)
      else if String.eqb field "stop_lon" then of_opt (stop_lon s)
      else if String.eqb field "wheelchair_boarding" then of_opt (wheelchair_boarding s)
      else ANone
  | DRoute r =>
      if String.eqb field "route_id" then AStr (route_id r)
      else if String.eqb field "route_name" then AStr (route_name r)
      else if String.eqb field "route_type" then AValue
      else if String.eqb field "route_color" then of_opt_str (route_color r)
      else if String.eqb field "route_text_color" then of_opt_str (route_text_color r)
      else ANone
  | DTrip t =>
      if String.eqb field "trip_id" then AStr (trip_id t)
      else if String.eqb field "route_id" then AStr (t_route_id t)
      else if String.eqb field "service_id" then of_opt_str (service_id t)
      else if String.eqb field "trip_headsign" then of_opt_str (trip_headsign t)
      else if String.eqb field "trip_short_name" then of_opt_str (trip_short_name t)
      else if String.eqb field "direction_id" then of_opt (direction_id t)
      else if String.eqb field "block_id" then of_opt_str (block_id t)
      else if String.eqb field "shape_id" then of_opt_str (shape_id t)
      else if String.eqb field "wheelchair_accessible" then of_opt (wheelchair_accessible t)
      else if String.eqb field "bikes_allowed" then of_opt (bikes_allowed t)
      else ANone
  | DPrediction p =>
      if String.eqb field "prediction_id" then AStr (prediction_id p)
      else if String.eqb field "trip_id" then AStr (p_trip_id p)
      else if String.eqb field "stop_id" then AStr (p_stop_id p)
      else if String.eqb field "route_id" then AStr (p_route_id p)
      else if String.eqb field "arrival_time" then of_opt (arrival_time p)
      else if String.eqb field "departure_time" then of_opt (departure_time p)
      else if String.eqb field "schedule_relationship" then of_opt_str (schedule_relationship p)
      else if String.eqb field "vehicle_id" then of_opt_str (p_vehicle_id p)
      else if String.eqb field "vehicle_label" then of_opt_str (vehicle_label p)
      else if String.eqb field "status" then of_opt_str (status p)
      else if String.eqb field "delay" then of_opt (delay p)
      else ANone
  | DVehiclePosition v =>
      if String.eqb field "vehicle_id" then AStr (v_vehicle_id v)
      else if String.eqb field "trip_id" then of_opt_str (v_trip_id v)
      else if String.eqb field "route_id" then of_opt_str (v_route_id v)
      else if String.eqb field "latitude" then AValue
      else if String.eqb field "longitude" then AValue
      else if String.eqb field "bearing" then of_opt (bearing v)
      else if String.eqb field "speed" then of_opt (speed v)
      else if String.eqb field "current_status" then of_opt_str (current_status v)
      else if String.eqb field "timestamp" then AValue
      else if String.eqb field "congestion_level" then of_opt_str (congestion_level v)
      else if String.eqb field "occupancy_status" then of_opt_str (occupancy_status v)
      else ANone
  | DTripUpdate u =>
      if String.eqb field "trip_id" then AStr (u_trip_id u)
      else if String.eqb field "vehicle_id" then of_opt_str (u_vehicle_id u)
      else if String.eqb field "route_id" then of_opt_str (u_route_id u)
      else if String.eqb field "timestamp" then AValue
      else if String.eqb field "delay" then of_opt (u_delay u)
      else ANone
  | DAlert a =>
      if String.eqb field "alert_id" then AStr (alert_id a)
      else if String.eqb field "alert_header_text" then of_opt_str (alert_header_text a)
      else if String.eqb field "alert_description_text" then of_opt_str (alert_description_text a)
      else if String.eqb field "alert_url" then of_opt_str (alert_url a)
      else if String.eqb field "effective_start_date" then of_opt (effective_start_date a)
      else if String.eqb field "effective_end_date" then of_opt (effective_end_date a)
      else if String.eqb field "affected_routes" then AValue
      else if String.eqb field "affected_stops" then AValue
      else if String.eqb field "affected_trips" then AValue
      else if String.eqb field "alert_severity_level" then of_opt_str (alert_severity_level a)
      else if String.eqb field "effect" then of_opt_str (effect a)
      else ANone
  | Other _ => ANone
  end.

Fixpoint _check_required_fields (obj : Data) (required_fields : list string) : bool :=
  match required_fields with
  | [] => true
  | field :: rest =>
      match getattr obj field with
      | ANone => false
      | AStr s => if Py.is_blank s then false else _check_required_fields obj rest
      | AValue => _check_required_fields obj rest
      end
  end.

Definition _validate_coordinates (lat lon : Q) (bounds : CoordinateBounds) : bool :=
  (Py.Qleb (lat_min bounds) lat && Py.Qleb lat (lat_max bounds))
  && (Py.Qleb (lon_min bounds) lon && Py.Qleb lon (lon_max bounds)).

Definition _validate_range (value : Q) (bounds : Q * Q) : bool :=
  Py.Qleb (fst bounds) value && Py.Qleb value (snd bounds).

Definition is_hex_digit (c : ascii) : bool :=
  let n := nat_of_ascii c in
  ((48 <=? n)%nat && (n <=? 57)%nat) || ((65 <=? n)%nat && (n <=? 70)%nat)
  || ((97 <=? n)%nat && (n <=? 102)%nat).

(** [color.lstrip('#')] *)
Fixpoint lstrip_hash (s : string) : string :=
  match s with
  | String c r => if Ascii.eqb c "#" then lstrip_hash r else s
  | EmptyString => s
  end.

Definition _validate_hex_color (color : string) : bool :=
  if String.eqb color "" then false
  else
    let color := lstrip_hash color in
    (String.length color =? 6)%nat && forallb is_hex_digit (list_ascii_of_string color).

Definition code_in_0_1_2 (c : Z) : bool := (c =? 0) || (c =? 1) || (c =? 2).

Definition valid_severities : list string := ["INFO"; "WARNING"; "SEVERE"].

Section ClockChecks.

(** The two checks that read the wall clock.  They subtract datetimes
    and raise when one is timezone-aware and the other is not, which the
    microsecond counts of this model do not record; their outcome is
    left to the caller: [inl] is a raised exception. *)
Variable _validate_future_time : Z → Z → string + bool.
Variable _validate_timestamp_age : Z → Z → string + bool.

Variable rules : Rules.

(** Each validator returns [inl] when an exception escapes it, [inr None]
    when it rejects the record and [inr (Some _)] when it accepts it. *)

Definition _validate_stop (stop : Stop) : string + option Stop :=
  if negb (_check_required_fields (DStop stop) (stop_required_fields rules))
  then inr None
  else
    let coordinates_ok :=
      match stop_lat stop, stop_lon stop with
      | Some lat, Some lon => _validate_coordinates lat lon (stop_coordinate_bounds rules)
      | _, _ => true
      end in
    if negb coordinates_ok then inr None
    else
      match wheelchair_boarding stop with
      | Some c => if code_in_0_1_2 c then inr (Some stop) else inr None
      | None => inr (Some stop)
      end.

Definition _validate_route (route : Route) : string + option Route :=
  if negb (_check_required_fields (DRoute route) (route_required_fields rules))
  then inr None
  else if negb (_validate_range (inject_Z (route_type route)) (route_type_range rules))
  then inr None
  else if Py.truthy_str (route_color route)
          && negb (_validate_hex_color (default "" (route_color route)))
  then inr None
  else if Py.truthy_str (route_text_color route)
          && negb (_validate_hex_color (default "" (route_text_color route)))
  then inr None
  else inr (Some route).

Definition optional_code_ok (c : option Z) : bool :=
  match c with Some c => code_in_0_1_2 c | None => true end.

Definition _validate_trip (trip : Trip) : string + option Trip :=
  if negb (_check_required_fields (DTrip trip) (trip_required_fields rules))
  then inr None
  else
    let direction_ok :=
      match direction_id trip with
      | Some d => _validate_range (inject_Z d) (direction_id_range rules)
      | None => true
      end in
    if negb direction_ok then inr None
    else if negb (optional_code_ok (wheelchair_accessible trip)) then inr None
    else if negb (optional_code_ok (bikes_allowed trip)) then inr None
    else inr (Some trip).

(** A time check on an optional datetime: skipped when it is absent. *)
Definition check_time (check : Z → Z → string + bool) (t : option Z) (limit : Z)
    : string + bool :=
  match t with
  | Some t => check t limit
  | None => inr true
  end.

Definition _validate_prediction (prediction : Prediction) : string + option Prediction :=
  if negb (_check_required_fields (DPrediction prediction) (prediction_required_fields rules))
  then inr None
  else
    let delay_ok :=
      match delay prediction with
      | Some d => _validate_range (inject_Z d) (delay_bounds rules)
      | None => true
      end in
    if negb delay_ok then inr None
    else
      match check_time _validate_future_time (arrival_time prediction)
              (max_future_prediction rules) with
      | inl e => inl e
      | inr false => inr None
      | inr true =>
          match check_time _validate_future_time (departure_time prediction)
                  (max_future_prediction rules) with
          | inl e => inl e
          | inr false => inr None
          | inr true => inr (Some prediction)
          end
      end.

Definition _validate_vehicle_position (position : VehiclePosition)
    : string + option VehiclePosition :=
  if negb (_check_required_fields (DVehiclePosition position) (position_required_fields rules))
  then inr None
  else if negb (_validate_coordinates (latitude position) (longitude position)
                  (position_coordinate_bounds rules))
  then inr None
  else
    let speed_ok :=
      match speed position with
      | Some s => _validate_range s (speed_bounds rules)
      | None => true
      end in
    if negb speed_ok then inr None
    else
      match _validate_timestamp_age (v_timestamp position) (position_max_age rules) with
      | inl e => inl e
      | inr false => inr None
      | inr true =>
          match bearing position with
          | Some b =>
              if _validate_range b (0, 360)%Q then inr (Some position) else inr None
          | None => inr (Some position)
          end
      end.

Definition _validate_trip_update (update : TripUpdate) : string + option TripUpdate :=
  if negb (_check_required_fields (DTripUpdate update) (trip_update_required_fields rules))
  then inr None
  else
    match _validate_timestamp_age (u_timestamp update) (trip_update_max_age rules) with
    | inl e => inl e
    | inr false => inr None
    | inr true =>
        match u_delay update with
        | Some d =>
            if _validate_range (inject_Z d) (-3600, 3600)%Q
            then inr (Some update) else inr None
        | None => inr (Some update)
        end
    end.

Definition _validate_alert (alert : Alert) : string + option Alert :=
  if negb (_check_required_fields (DAlert alert) (alert_required_fields rules))
  then inr None
  else
    let dates_ok :=
      match effective_start_date alert, effective_end_date alert with
      | Some s, Some e => negb (e <=? s)
      | _, _ => true
      end in
    if negb dates_ok then inr None
    else if Py.truthy_str (alert_severity_level alert)
            && negb (bool_decide (default "" (alert_severity_level alert) ∈ valid_severities))
    then inr None
    else inr (Some alert).

(** [process]: the [try] turns every escaping exception into [None]; so
    does an object of an unknown class. *)
Definition caught {A} (wrap : A → Data) (r : string + option A) : option Data :=
  match r with
  | inr (Some x) => Some (wrap x)
  | _ => None
  end.

Definition process (data : Data) : option Data :=
  match data with
  | DStop s => caught DStop (_validate_stop s)
  | DRoute r => caught DRoute (_validate_route r)
  | DTrip t => caught DTrip (_validate_trip t)
  | DPrediction p => caught DPrediction (_validate_prediction p)
  | DVehiclePosition v => caught DVehiclePosition (_validate_vehicle_position v)
  | DTripUpdate u => caught DTripUpdate (_validate_trip_update u)
  | DAlert a => caught DAlert (_validate_alert a)
  | Other _ => None
  end.

(** [BaseProcessor.process_batch]: the results and the two counters.
    [process] catches its own exceptions, so the error branch of the loop
    is never taken. *)
Record Counters := {
  processed_count : nat;
  error_count : nat;
}.

Fixpoint process_batch (data_list : list Data) (c : Counters) : list Data * Counters :=
  match data_list with
  | [] => ([], c)
  | item :: rest =>
      let c' := {| processed_count := S (processed_count c);
                   error_count := error_count c |} in
      let '(results, c'') := process_batch rest c' in
      match process item with
      | Some r => (r :: results, c'')
      | None => (results, c'')
      end
  end.

End ClockChecks.

(** The two clock checks as the source writes them.
    [_validate_future_time] passes to [datetime.now] something that is not
    a [tzinfo] (an attribute [utc] that datetimes do not have, or a
    datetime), so it raises on every call.  [_validate_timestamp_age] reads
    the clock in the timestamp's zone, or in UTC for a naive timestamp, in
    which case the subtraction raises. *)
Definition future_time_check (time max_future : Z) : string + bool :=
  inl "TypeError".

Definition timestamp_age_check (aware : bool) (now : Z) (timestamp max_age : Z)
    : string + bool :=
  if aware then inr (now - timestamp <=? max_age) else inl "TypeError".

End Validator.

(** ** GTFS-RT feed ingestor ([ingestion/gtfs_rt_ingestor.py]) *)

Module GtfsRt.

(** The protobuf messages the trip-update parser reads.  An optional
    field is [Some] exactly when [HasField] answers true. *)
Record StopTimeEvent := {
  e_delay : option Z;
  e_time : option Z;
}.

Record StopTimeUpdate := {
  stu_stop_id : string;
  stu_stop_sequence : option Z;
  stu_arrival : option StopTimeEvent;
  stu_departure : option StopTimeEvent;
}.

Record TripDescriptor := {
  td_trip_id : string;
  td_route_id : string;
}.

Record TripUpdateMessage := {
  tu_trip : option TripDescriptor;
  tu_vehicle : option string;
  tu_stop_time_update : list StopTimeUpdate;
}.

Record FeedEntity := {
  entity_id : string;
  entity_trip_update : option TripUpdateMessage;
}.

Record FeedHeader := {
  header_timestamp : option Z;
  gtfs_realtime_version : string;
}.

Record FeedMessage := {
  header : FeedHeader;
  entity : list FeedEntity;
}.

(** The dicts the parser builds.  The keys ["arrival"] and ["departure"]
    of a stop update exist only when the sub-message does. *)
Record EventDict := {
  ed_delay : option Z;
  ed_time : option Z;
}.

Record StopUpdateDict := {
  su_stop_id : string;
  su_stop_sequence : option Z;
  su_arrival : option EventDict;
  su_departure : option EventDict;
}.

Record TripUpdateDict := {
  d_trip_id : string;
  d_vehicle_id : option string;
  d_route_id : option string;
  d_timestamp : option Z;
  d_delay : option Q;
  d_stop_time_updates : list StopUpdateDict;
  d_source : string;
  d_feed_timestamp : Z;
}.

(** The first and the last second a [datetime] can hold, as seconds from
    the epoch: 0001-01-01T00:00:00 and 9999-12-31T23:59:59. *)
Definition min_datetime : Z := -62135596800.
Definition max_datetime : Z := 253402300799.

Section Zone.

(** The time zone of the host: its offset from UTC in seconds, as in
    force at an instant. *)
Variable utcoffset : Z → Z.

(** [datetime.fromtimestamp]: the wall-clock time of the host at the
    instant [seconds] after the epoch, in microseconds.  The call raises
    when the year of that time is not one a [datetime] can hold;
    ["ValueError"] stands for the exception, an [OverflowError] or an
    [OSError] on some platforms and for some numbers. *)
Definition fromtimestamp (seconds : Z) : string + Z :=
  let wall_clock := seconds + utcoffset seconds in
  if (min_datetime <=? wall_clock) && (wall_clock <=? max_datetime)
  then inr (wall_clock * 1000000)
  else inl "ValueError".

(** Reading a scalar field returns its default when it is not set. *)
Definition read_timestamp (h : FeedHeader) : Z := default 0 (header_timestamp h).

Definition event_dict (e : StopTimeEvent) : EventDict :=
  {| ed_delay := e_delay e; ed_time := e_time e |}.

Definition stop_update_dict (stop_update : StopTimeUpdate) : StopUpdateDict :=
  {| su_stop_id := stu_stop_id stop_update;
     su_stop_sequence := stu_stop_sequence stop_update;
     su_arrival := event_dict <$> stu_arrival stop_update;
     su_departure := event_dict <$> stu_departure stop_update |}.

(** ["arrival" in stop_update and stop_update["arrival"].get("delay")],
    followed by the [append]. *)
Definition appended (e : option EventDict) : list Z :=
  match e with
  | Some ev =>
      match ed_delay ev with
      | Some d => if Py.truthy_int (Some d) then [d] else []
      | None => []
      end
  | None => []
  end.

Fixpoint collect_delays (stop_time_updates : list StopUpdateDict) : list Z :=
  match stop_time_updates with
  | [] => []
  | stop_update :: rest =>
      appended (su_arrival stop_update) ++ appended (su_departure stop_update)
      ++ collect_delays rest
  end.

(** The entry ["delay"] starts as [None] and is overwritten
    [if delays]. *)
Definition overall_delay (delays : list Z) : option Q :=
  match delays with
  | [] => None
  | _ => Some (Py.truediv (Py.sum delays) (length delays))
  end.

(** [timestamp = None; if feed.header.HasField("timestamp"): timestamp =
    datetime.fromtimestamp(feed.header.timestamp)] *)
Definition parse_timestamp (h : FeedHeader) : string + option Z :=
  match header_timestamp h with
  | None => inr None
  | Some seconds =>
      match fromtimestamp seconds with
      | inl e => inl e
      | inr timestamp => inr (Some timestamp)
      end
  end.

(** The body of the loop: the dict built for an entity that carries a
    trip update, [None] for another entity. *)
Definition parse_entity (feed : FeedMessage) (feed_timestamp : Z) (e : FeedEntity)
    : string + option TripUpdateDict :=
  match entity_trip_update e with
  | None => inr None
  | Some trip_update_data =>
      match parse_timestamp (header feed) with
      | inl raised => inl raised
      | inr timestamp =>
          let stop_time_updates :=
            map stop_update_dict (tu_stop_time_update trip_update_data) in
          let delays := collect_delays stop_time_updates in
          inr (Some {| d_trip_id := entity_id e;
                       d_vehicle_id := tu_vehicle trip_update_data;
                       d_route_id := td_route_id <$> tu_trip trip_update_data;
                       d_timestamp := timestamp;
                       d_delay := overall_delay delays;
                       d_stop_time_updates := stop_time_updates;
                       d_source := "mbta_gtfs_rt";
                       d_feed_timestamp := feed_timestamp |})
      end
  end.

(** The [for] loop over the entities of the feed. *)
Fixpoint parse_entities (feed : FeedMessage) (feed_timestamp : Z)
    (entities : list FeedEntity) : string + list TripUpdateDict :=
  match entities with
  | [] => inr []
  | e :: rest =>
      match parse_entity feed feed_timestamp e with
      | inl raised => inl raised
      | inr parsed =>
          match parse_entities feed feed_timestamp rest with
          | inl raised => inl raised
          | inr trip_updates =>
              inr match parsed with
                  | Some trip_update => trip_update :: trip_updates
                  | None => trip_updates
                  end
          end
      end
  end.

(** The ingestor's feed metadata. *)
Record FeedMetadata := {
  feed_timestamps : gmap string Z;
  feed_sequence_numbers : gmap string string;
}.

(** [_parse_trip_updates]; [decoded] is what [ParseFromString] produced,
    [None] when it raised.  Whatever is raised inside the [try] ends in
    the handler, which returns the empty list; the metadata are as the
    statements before the exception left them. *)
Definition _parse_trip_updates (decoded : option FeedMessage) (self : FeedMetadata)
    : FeedMetadata * list TripUpdateDict :=
  match decoded with
  | None => (self, [])
  | Some feed =>
      match fromtimestamp (read_timestamp (header feed)) with
      | inl _ => (self, [])
      | inr feed_timestamp =>
          let self :=
            {| feed_timestamps :=
                 <["trip_updates" := feed_timestamp]> (feed_timestamps self);
               feed_sequence_numbers :=
                 <["trip_updates" := gtfs_realtime_version (header feed)]>
                   (feed_sequence_numbers self) |} in
          match parse_entities feed feed_timestamp (entity feed) with
          | inl _ => (self, [])
          | inr trip_updates => (self, trip_updates)
          end
      end
  end.

End Zone.

End GtfsRt.

(** The trip-update delay as the specification words it: the mean of all
    the arrival and departure delays that are present. *)

Module TripDelayRule.
Import GtfsRt.

Definition present (e : option StopTimeEvent) : list Z :=
  match e with
  | Some ev => match e_delay ev with Some d => [d] | None => [] end
  | None => []
  end.

Definition present_delays (updates : list StopTimeUpdate) : list Z :=
  flat_map (λ u, present (stu_arrival u) ++ present (stu_departure u)) updates.

Definition mean_delay (updates : list StopTimeUpdate) : option Q :=
  match present_delays updates with
  | [] => None
  | ds => Some (Qmake (Py.sum ds) (Pos.of_nat (length ds)))
  end.

End TripDelayRule.

(** ** REST ingestor: rate limiter and request retries
       ([ingestion/v3_rest_ingestor.py]) *)

Module RestIngestor.

Definition second : Z := 1000000.
Definition minute : Z := 60 * second.

(** The settings the two methods read. *)
Record Config := {
  rate_limit_requests_per_minute : Z;
  max_retries : Z;
  retry_delay : Z;
}.

Inductive WaitReason :=
| RateLimitReached
| RateLimited
| ServerError
| RequestFailed.

#[global] Instance WaitReason_eq_dec : EqDecision WaitReason.
Proof. solve_decision. Defined.

(** What an observer sees: each [asyncio.sleep] with the warning logged
    just before it, and each instant at which [_check_rate_limit] lets the
    caller through. *)
Inductive Event :=
| Slept (reason : WaitReason) (duration : Z)
| LetThrough (at_time : Z).

(** The wall clock in microseconds, the ingestor's window of request
    timestamps and the events so far. *)
Record State := {
  clock : Z;
  request_timestamps : list Z;
  trace : list Event;
}.

Definition initial (now : Z) : State :=
  {| clock := now; request_timestamps := []; trace := [] |}.

(** [await asyncio.sleep(d)]: the clock moves on by [d]; a delay that is
    not positive returns at once. *)
Definition sleep (reason : WaitReason) (duration : Z) (st : State) : State :=
  {| clock := clock st + Z.max 0 duration;
     request_timestamps := request_timestamps st;
     trace := trace st ++ [Slept reason duration] |}.

(** Time that passes while the caller is busy elsewhere. *)
Definition elapse (duration : Z) (st : State) : State :=
  {| clock := clock st + Z.max 0 duration;
     request_timestamps := request_timestamps st;
     trace := trace st |}.

Inductive Exception :=
| IndexError
| ValueError
| ClientError
| ClientResponseError (status : Z).

(** [_check_rate_limit].  Indexing the empty window raises. *)
Definition _check_rate_limit (cfg : Config) (st : State) : State * (Exception + unit) :=
  let now := clock st in
  let cutoff := now - minute in
  let timestamps := filter (λ ts, cutoff < ts) (request_timestamps st) in
  let st := {| clock := clock st; request_timestamps := timestamps; trace := trace st |} in
  let waited :=
    if rate_limit_requests_per_minute cfg <=? Z.of_nat (length timestamps) then
      match timestamps with
      | oldest :: _ => inr (sleep RateLimitReached (oldest - cutoff) st)
      | [] => inl IndexError
      end
    else inr st in
  match waited with
  | inl e => (st, inl e)
  | inr st =>
      ({| clock := clock st;
          request_timestamps := request_timestamps st ++ [now];
          trace := trace st ++ [LetThrough (clock st)] |}, inr tt)
  end.

(** The [Retry-After] header of a response. *)
Inductive RetryAfter :=
| Absent
| Seconds (n : Z)
| Unparsable.

(** [int(response.headers.get('Retry-After', 60))] *)
Definition retry_after_of (h : RetryAfter) : Exception + Z :=
  match h with
  | Absent => inr 60
  | Seconds n => inr n
  | Unparsable => inl ValueError
  end.

(** What the server does on one attempt: it answers, or the transport
    raises an [aiohttp.ClientError]. *)
Inductive Attempt (Payload : Type) :=
| Responds (status : Z) (retry_after : RetryAfter) (body : Payload)
| Fails.
Arguments Responds {Payload} status retry_after body.
Arguments Fails {Payload}.

(** How a call ends: with a value ([None] when the function falls off its
    end) or with an exception. *)
Inductive Outcome (Payload : Type) :=
| Returns (data : option Payload)
| Raises (e : Exception).
Arguments Returns {Payload} data.
Arguments Raises {Payload} e.

Definition backoff (cfg : Config) (retries : nat) : Z :=
  retry_delay cfg * 2 ^ Z.of_nat retries * second.

(** A single caller that calls [_check_rate_limit] again and again,
    letting [gap] microseconds pass before each call. *)
Fixpoint admit_all (cfg : Config) (gaps : list Z) (st : State) : State * (Exception + unit) :=
  match gaps with
  | [] => (st, inr tt)
  | gap :: rest =>
      match _check_rate_limit cfg (elapse gap st) with
      | (st, inl e) => (st, inl e)
      | (st, inr _) => admit_all cfg rest st
      end
  end.

Definition admissions (tr : list Event) : list Z :=
  omap (λ e, match e with LetThrough t => Some t | _ => None end) tr.

Definition waits (reason : WaitReason) (tr : list Event) : list Z :=
  omap (λ e, match e with
             | Slept r d => if decide (r = reason) then Some d else None
             | _ => None
             end) tr.

(** The number of instants of [times] in the window of one minute that
    ends at [t]: after [t - 60s] and not after [t]. *)
Definition in_window (times : list Z) (t : Z) : nat :=
  length (filter (λ a, t - minute < a ∧ a ≤ t) times).

(** No window of one minute ending at one of the instants holds more than
    [quota] of them. *)
Definition within_quota (quota : Z) (times : list Z) : bool :=
  forallb (λ t, Z.of_nat (in_window times t) <=? quota) times.

End RestIngestor.

(** ** REST ingestor: a request and the calls that wait for its retries

    [_make_request] calls itself to retry.  The retries of the 429 and of
    the 5xx branch are awaited inside the [try] of the calling frame, so an
    [aiohttp.ClientError] that such a retry raises comes back to the
    caller's [except] clause, which may retry once more; a retry made by
    the [except] clause itself is awaited outside the [try].  The embedding
    keeps the frames that wait inside their [try]: [callers] holds their
    retry counters, innermost first. *)

Module RestRetry.
Import RestIngestor.

(** An [aiohttp.ClientError] travelling up through the [except] clauses of
    the frames of [stack]: the first frame with retries left sleeps and
    calls again, outside its [try], so that the frames below it remain;
    [None] when every frame re-raises. *)
Fixpoint except_ClientError (cfg : Config) (stack : list nat) (st : State)
    : option (nat * list nat * State) :=
  match stack with
  | [] => None
  | retries :: callers =>
      if Z.of_nat retries <? max_retries cfg
      then Some (S retries, callers, sleep RequestFailed (backoff cfg retries) st)
      else except_ClientError cfg callers st
  end.

(** [_make_request] together with the frames waiting for it.  The
    recursion is on the server's script, one attempt per call; the result
    is [None] when the script ends before the call does.
    [raise_for_status] raises a [ClientResponseError] for a status of 400
    or more, inside the [try], and returns otherwise.  An [IndexError] of
    the limiter and a [ValueError] of [int] are no [ClientError]: they pass
    every frame. *)
Fixpoint _make_request {Payload} (cfg : Config) (script : list (Attempt Payload))
    (callers : list nat) (retries : nat) (st : State) : State * option (Outcome Payload) :=
  match _check_rate_limit cfg st with
  | (st, inl e) => (st, Some (Raises e))
  | (st, inr _) =>
      match script with
      | [] => (st, None)
      | attempt :: rest =>
          let raised (e : Exception) :=
            match except_ClientError cfg (retries :: callers) st with
            | Some (retries', callers', st') => _make_request cfg rest callers' retries' st'
            | None => (st, Some (Raises e))
            end in
          match attempt with
          | Responds status retry_after body =>
              if status =? 200 then (st, Some (Returns (Some body)))
              else if status =? 429 then
                match retry_after_of retry_after with
                | inl e => (st, Some (Raises e))
                | inr n =>
                    _make_request cfg rest (retries :: callers) (S retries)
                      (sleep RateLimited (n * second) st)
                end
              else if (500 <=? status) && (Z.of_nat retries <? max_retries cfg) then
                _make_request cfg rest (retries :: callers) (S retries)
                  (sleep ServerError (backoff cfg retries) st)
              else if 400 <=? status then raised (ClientResponseError status)
              else (st, Some (Returns None))
          | Fails => raised ClientError
          end
      end
  end.

(** The exceptions an [except aiohttp.ClientError] clause catches. *)
Definition is_ClientError (e : Exception) : bool :=
  match e with
  | ClientError | ClientResponseError _ => true
  | IndexError | ValueError => false
  end.

End RestRetry.

(** ** Polling engine ([ingestion/base.py]) *)

Module Ingestion.

Record IngestionResult (Rec : Type) := {
  success : bool;
  data : list Rec;
  timestamp : Z;
  source : string;
  record_count : nat;
  error_message : option string;
  metadata : option (nat * nat);
}.
Arguments success {Rec} _.
Arguments data {Rec} _.
Arguments timestamp {Rec} _.
Arguments source {Rec} _.
Arguments record_count {Rec} _.
Arguments error_message {Rec} _.
Arguments metadata {Rec} _.

(** The property [is_successful]. *)
Definition is_successful {Rec} (r : IngestionResult Rec) : bool :=
  success r && (0 <? record_count r)%nat.

(** The mutable attributes of a [BaseIngestor]. *)
Record BaseIngestor := {
  name : string;
  polling_interval : Z;
  is_running : bool;
  last_successful_ingestion : option Z;
  total_records_ingested : nat;
  total_errors : nat;
  consecutive_failures : nat;
}.

(** What happens while the task is suspended in the sleep between two
    cycles: nothing, a call of [stop] by another task, or the cancellation
    of the task. *)
Inductive Wake := Woke | Stopped | Cancelled.

(** The two abstract methods, and the world they run in: [World] is
    whatever the source and the clock depend on; [inl] is the message of a
    raised exception. *)
Class Source (World Raw Rec : Type) := {
  utcnow : World → Z;
  fetch_data : World → World * (string + list Raw);
  transform_data : list Raw → World → World * (string + list Rec);
  sleep : Z → World → World * Wake;
}.

Section Engine.
Context {World Raw Rec : Type} `{Source World Raw Rec}.

Definition failed (self : BaseIngestor) : BaseIngestor :=
  {| name := name self; polling_interval := polling_interval self;
     is_running := is_running self;
     last_successful_ingestion := last_successful_ingestion self;
     total_records_ingested := total_records_ingested self;
     total_errors := S (total_errors self);
     consecutive_failures := S (consecutive_failures self) |}.

Definition ingested (start_time : Z) (n : nat) (self : BaseIngestor) : BaseIngestor :=
  {| name := name self; polling_interval := polling_interval self;
     is_running := is_running self;
     last_successful_ingestion := Some start_time;
     total_records_ingested := (total_records_ingested self + n)%nat;
     total_errors := total_errors self;
     consecutive_failures := 0 |}.

Definition error_result (self : BaseIngestor) (start_time : Z) (e : string)
    : IngestionResult Rec :=
  {| success := false; data := []; timestamp := start_time; source := name self;
     record_count := 0; error_message := Some e; metadata := None |}.

(** [ingest]: one cycle. *)
Definition ingest (self : BaseIngestor) (w : World)
    : BaseIngestor * World * IngestionResult Rec :=
  let start_time := utcnow w in
  match fetch_data w with
  | (w, inl e) => (failed self, w, error_result self start_time e)
  | (w, inr raw_data) =>
      match raw_data with
      | [] =>
          (self, w,
           {| success := true; data := []; timestamp := start_time; source := name self;
              record_count := 0; error_message := None; metadata := None |})
      | _ =>
          match transform_data raw_data w with
          | (w, inl e) => (failed self, w, error_result self start_time e)
          | (w, inr transformed_data) =>
              (ingested start_time (length transformed_data) self, w,
               {| success := true; data := transformed_data; timestamp := start_time;
                  source := name self; record_count := length transformed_data;
                  error_message := None;
                  metadata := Some (length raw_data, length transformed_data) |})
          end
      end
  end.

Definition set_running (b : bool) (self : BaseIngestor) : BaseIngestor :=
  {| name := name self; polling_interval := polling_interval self;
     is_running := b;
     last_successful_ingestion := last_successful_ingestion self;
     total_records_ingested := total_records_ingested self;
     total_errors := total_errors self;
     consecutive_failures := consecutive_failures self |}.

Definition stop (self : BaseIngestor) : BaseIngestor := set_running false self.

(** A subscriber: it may raise. *)
Definition Callback : Type := IngestionResult Rec → World → World * (string + unit).

(** One line per cycle of the loop: the cycle's result, and the argument
    with which the callback was awaited in that cycle, if it was. *)
Record Cycle := {
  outcome : IngestionResult Rec;
  callback_argument : option (IngestionResult Rec);
}.

(** The body of the [while] loop up to the sleep: [inl] when the
    callback raised. *)
Definition poll (callback : option Callback) (self : BaseIngestor) (w : World)
    : BaseIngestor * World * Cycle * (string + unit) :=
  let '(self, w, result) := ingest self w in
  match callback with
  | Some cb =>
      if is_successful result then
        let '(w, r) := cb result w in
        (self, w, {| outcome := result; callback_argument := Some result |}, r)
      else (self, w, {| outcome := result; callback_argument := None |}, inr tt)
  | None => (self, w, {| outcome := result; callback_argument := None |}, inr tt)
  end.

(** The [while self.is_running] loop, for at most [cycles] cycles; the
    handlers and the [finally] clause are the exits. *)
Fixpoint loop (cycles : nat) (callback : option Callback) (self : BaseIngestor) (w : World)
    : BaseIngestor * World * list Cycle :=
  match cycles with
  | O => (self, w, [])
  | S cycles =>
      if is_running self then
        match poll callback self w with
        | (self, w, c, inl _) => (set_running false self, w, [c])
        | (self, w, c, inr _) =>
            match sleep (polling_interval self) w with
            | (w, Cancelled) => (set_running false self, w, [c])
            | (w, Stopped) =>
                let '(self, w, log) := loop cycles callback (stop self) w in
                (self, w, c :: log)
            | (w, Woke) =>
                let '(self, w, log) := loop cycles callback self w in
                (self, w, c :: log)
            end
        end
      else (set_running false self, w, [])
  end.

Definition run_continuous (cycles : nat) (callback : option Callback)
    (self : BaseIngestor) (w : World) : BaseIngestor * World * list Cycle :=
  loop cycles callback (set_running true self) w.

End Engine.


(** The status that [health_check] reports. *)
Definition health_check (self : BaseIngestor) : string :=
  if (consecutive_failures self <? 5)%nat then "healthy" else "degraded".

End Ingestion.

(** ** Persistence gateway ([storage/transit_storage.py],
       [storage/database.py], [models/database.py]) *)

Module Storage.
Import Transit.

(** *** Rows.  A row has the columns the gateway assigns.  The columns
    it never assigns hold null, or their default ([location_type] is 0),
    in every row it writes; they are left out, and so are the columns that
    only hold a reading of the clock ([timestamp = utcnow()],
    [created_at], the timings of a log row). *)

Record DBRoute := {
  r_id : string;
  r_route_name : string;
  r_route_type : Z;
  r_route_color : option string;
  r_route_text_color : option string;
}.

Record DBStop := {
  s_id : string;
  s_stop_name : string;
  s_stop_lat : option Q;
  s_stop_lon : option Q;
  s_wheelchair_boarding : option Z;
}.

Record DBTrip := {
  dt_id : string;
  dt_route_id : string;
  dt_service_id : option string;
  dt_trip_headsign : option string;
  dt_trip_short_name : option string;
  dt_direction_id : option Z;
  dt_block_id : option string;
  dt_shape_id : option string;
  dt_wheelchair_accessible : option Z;
  dt_bikes_allowed : option Z;
}.

Record DBVehicle := {
  veh_id : string;
  veh_vehicle_id : string;
  veh_vehicle_label : option string;
}.

Record DBPrediction := {
  dp_id : N;
  dp_trip_id : string;
  dp_route_id : string;
  dp_stop_id : string;
  dp_vehicle_id : option string;
  dp_arrival_time : option Z;
  dp_departure_time : option Z;
  dp_schedule_relationship : option Z;
  dp_status : option string;
  dp_delay : option Z;
}.

Record DBVehiclePosition := {
  vp_id : N;
  vp_vehicle_id : string;
  vp_trip_id : option string;
  vp_route_id : option string;
  vp_direction_id : option Z;
  vp_stop_id : option string;
  vp_latitude : Q;
  vp_longitude : Q;
  vp_bearing : option Q;
  vp_speed : option Q;
  vp_congestion_level : option Z;
  vp_occupancy_status : option Z;
  vp_timestamp : Z;
}.

Record DBTripUpdate := {
  tu_id : N;
  tu_trip_id : string;
  tu_route_id : option string;
  tu_delay : option Z;
  tu_start_time : option Z;
  tu_end_time : option Z;
  tu_timestamp : Z;
}.

Record DBAlert := {
  a_id : N;
  a_alert_id : string;
  a_alert_header_text : option string;
  a_alert_description_text : option string;
  a_alert_url : option string;
  a_alert_effect : option string;
  a_alert_severity_level : option string;
  a_affected_route_ids : list string;
  a_affected_stop_ids : list string;
  a_affected_trip_ids : list string;
  a_active_period_start : option Z;
  a_active_period_end : option Z;
}.

Record DataIngestionLog := {
  l_id : N;
  l_source_type : string;
  l_status : string;
  l_records_processed : nat;
  l_records_inserted : nat;
  l_records_updated : nat;
  l_records_failed : nat;
  l_error_message : option string;
}.

(** *** The database and a session on it.  A table is the list of its
    rows in insertion order. *)
Record Tables := {
  routes : list DBRoute;
  stops : list DBStop;
  trips : list DBTrip;
  vehicles : list DBVehicle;
  predictions : list DBPrediction;
  vehicle_positions : list DBVehiclePosition;
  trip_updates : list DBTripUpdate;
  alerts : list DBAlert;
  data_ingestion_logs : list DataIngestionLog;
}.

Definition no_rows : Tables :=
  {| routes := []; stops := []; trips := []; vehicles := []; predictions := [];
     vehicle_positions := []; trip_updates := []; alerts := [];
     data_ingestion_logs := [] |}.

(** The transaction of a session.  [Open answers]: the session can be
    used, and [answers] is what the database will answer to its coming
    [flush] and [commit] calls, in order: [true] is an error
    ([IntegrityError], a lost connection); past the end of the list every
    call goes through.  [Rolled_back answers]: a flush has failed and
    SQLAlchemy has rolled the transaction back; until the session is rolled
    back explicitly every query, flush and commit on it raises
    [PendingRollbackError].  Outside this module a list of answers is
    read as the open transaction that has them to come. *)
Inductive Transaction :=
| Open (answers : list bool)
| Rolled_back (answers : list bool).

(** [tables] holds the committed rows and, after them, the rows the
    open transaction has flushed; [next_uuid] is the supply behind
    [uuid.uuid4] and [faults] the transaction.  When a flush fails the
    database drops what the transaction had flushed.  The session can read
    and write nothing from then on, and [tables] is left as the record of
    what had been flushed until [close_db_async] puts the committed tables
    back: on a transaction that has been rolled back [tables] is not what
    the database holds. *)
Record Session := {
  tables : Tables;
  next_uuid : N;
  faults : Transaction;
}.

Definition rolled_back (s : Session) : bool :=
  match faults s with
  | Open _ => false
  | Rolled_back _ => true
  end.

(** *** A state and exception monad over the session *)

Definition M (A : Type) : Type := Session → Session * (string + A).

Definition ret {A} (x : A) : M A := λ s, (s, inr x).
Definition raise {A} (e : string) : M A := λ s, (s, inl e).
Definition bind {A B} (m : M A) (k : A → M B) : M B :=
  λ s, match m s with
       | (s, inl e) => (s, inl e)
       | (s, inr x) => k x s
       end.

Notation "'let*' x := m 'in' k" := (bind m (λ x, k))
  (at level 10, x pattern, m at level 100, k at level 200).
Notation "'do' m 'then' k" := (bind m (λ _, k))
  (at level 10, m at level 100, k at level 200).

(** [try: m except Exception as e: h(e)] *)
Definition try_except {A} (m : M A) (h : string → M A) : M A :=
  λ s, match m s with
       | (s, inl e) => h e s
       | (s, inr x) => (s, inr x)
       end.

(** [session.query(...)...]: the rows of a table as the session sees
    them. *)
Definition query {A} (table : Tables → list A) : M (list A) :=
  λ s, if rolled_back s then (s, inl "PendingRollbackError")
       else (s, inr (table (tables s))).

(** The next answer of the database. *)
Definition next_fault (answers : list bool) : bool * list bool :=
  match answers with
  | [] => (false, [])
  | b :: rest => (b, rest)
  end.

(** [session.add(row); session.flush()]: the row is written unless the
    database answers with an error, which rolls the transaction back. *)
Definition add_flush (insert : Tables → Tables) : M unit :=
  λ s, match faults s with
       | Rolled_back _ => (s, inl "PendingRollbackError")
       | Open answers =>
           match next_fault answers with
           | (true, rest) =>
               ({| tables := tables s; next_uuid := next_uuid s;
                   faults := Rolled_back rest |},
                inl "SQLAlchemyError")
           | (false, rest) =>
               ({| tables := insert (tables s); next_uuid := next_uuid s;
                   faults := Open rest |},
                inr tt)
           end
       end.

Definition uuid4 : M N :=
  λ s, ({| tables := tables s; next_uuid := N.succ (next_uuid s); faults := faults s |},
        inr (next_uuid s)).

(** A column declared with [default=d]: the ORM leaves an attribute that
    is [None] out of the INSERT, and the default is stored. *)
Definition with_default (d : Z) (value : option Z) : option Z :=
  Some (default d value).

(** The value a store method returns: [str] of a generated id, or the
    key of a reference row. *)
Inductive StoredId :=
| Uuid (n : N)
| Key (k : string).

(** *** Row insertion, one function per table *)

Definition add_route (r : DBRoute) (t : Tables) : Tables :=
  {| routes := routes t ++ [r]; stops := stops t; trips := trips t;
     vehicles := vehicles t; predictions := predictions t;
     vehicle_positions := vehicle_positions t; trip_updates := trip_updates t;
     alerts := alerts t; data_ingestion_logs := data_ingestion_logs t |}.
Definition add_stop (r : DBStop) (t : Tables) : Tables :=
  {| routes := routes t; stops := stops t ++ [r]; trips := trips t;
     vehicles := vehicles t; predictions := predictions t;
     vehicle_positions := vehicle_positions t; trip_updates := trip_updates t;
     alerts := alerts t; data_ingestion_logs := data_ingestion_logs t |}.
Definition add_trip (r : DBTrip) (t : Tables) : Tables :=
  {| routes := routes t; stops := stops t; trips := trips t ++ [r];
     vehicles := vehicles t; predictions := predictions t;
     vehicle_positions := vehicle_positions t; trip_updates := trip_updates t;
     alerts := alerts t; data_ingestion_logs := data_ingestion_logs t |}.
Definition add_vehicle (r : DBVehicle) (t : Tables) : Tables :=
  {| routes := routes t; stops := stops t; trips := trips t;
     vehicles := vehicles t ++ [r]; predictions := predictions t;
     vehicle_positions := vehicle_positions t; trip_updates := trip_updates t;
     alerts := alerts t; data_ingestion_logs := data_ingestion_logs t |}.
Definition add_prediction (r : DBPrediction) (t : Tables) : Tables :=
  {| routes := routes t; stops := stops t; trips := trips t;
     vehicles := vehicles t; predictions := predictions t ++ [r];
     vehicle_positions := vehicle_positions t; trip_updates := trip_updates t;
     alerts := alerts t; data_ingestion_logs := data_ingestion_logs t |}.
Definition add_vehicle_position (r : DBVehiclePosition) (t : Tables) : Tables :=
  {| routes := routes t; stops := stops t; trips := trips t;
     vehicles := vehicles t; predictions := predictions t;
     vehicle_positions := vehicle_positions t ++ [r]; trip_updates := trip_updates t;
     alerts := alerts t; data_ingestion_logs := data_ingestion_logs t |}.
Definition add_trip_update (r : DBTripUpdate) (t : Tables) : Tables :=
  {| routes := routes t; stops := stops t; trips := trips t;
     vehicles := vehicles t; predictions := predictions t;
     vehicle_positions := vehicle_positions t; trip_updates := trip_updates t ++ [r];
     alerts := alerts t; data_ingestion_logs := data_ingestion_logs t |}.
Definition add_alert (r : DBAlert) (t : Tables) : Tables :=
  {| routes := routes t; stops := stops t; trips := trips t;
     vehicles := vehicles t; predictions := predictions t;
     vehicle_positions := vehicle_positions t; trip_updates := trip_updates t;
     alerts := alerts t ++ [r]; data_ingestion_logs := data_ingestion_logs t |}.
Definition add_log (r : DataIngestionLog) (t : Tables) : Tables :=
  {| routes := routes t; stops := stops t; trips := trips t;
     vehicles := vehicles t; predictions := predictions t;
     vehicle_positions := vehicle_positions t; trip_updates := trip_updates t;
     alerts := alerts t; data_ingestion_logs := data_ingestion_logs t ++ [r] |}.

(** [query(...).filter(...).first()] *)
Definition first {A} (matches : A → bool) (rows : list A) : option A :=
  List.find matches rows.

(** *** Mapping helpers *)

Definition lower_ascii (c : ascii) : ascii :=
  let n := nat_of_ascii c in
  if (65 <=? n)%nat && (n <=? 90)%nat then ascii_of_nat (n + 32) else c.

(** The Kelvin sign U+212A, the one character beyond ASCII whose lower
    case is an ASCII letter. *)
Definition is_kelvin_sign (c d e : ascii) : bool :=
  ((N_of_ascii c =? 226) && (N_of_ascii d =? 132) && (N_of_ascii e =? 170))%N.

(** [str.lower] as far as a lookup among ASCII keys can tell: the
    capitals A to Z and the Kelvin sign are lowered; every other character
    beyond ASCII is kept as it is, where its lower case is beyond ASCII
    too. *)
Fixpoint lower (s : string) : string :=
  match s with
  | EmptyString => EmptyString
  | String c r =>
      match r with
      | String d (String e r') =>
          if is_kelvin_sign c d e then String "k" (lower r')
          else String (lower_ascii c) (lower r)
      | _ => String (lower_ascii c) (lower r)
      end
  end.

(** The three helpers on the string values the record model holds. *)
Definition _map_schedule_relationship (value : option string) : option Z :=
  match value with
  | None => None
  | Some v =>
      let mapping : gmap string Z :=
        list_to_map [("scheduled", 0); ("added", 1); ("unscheduled", 2);
                     ("canceled", 3); ("skipped", 4)] in
      mapping !! lower v
  end.

Definition _map_congestion_level (value : option string) : option Z :=
  match value with
  | None => None
  | Some v =>
      let mapping : gmap string Z :=
        list_to_map [("unknown", 0); ("smooth", 1); ("low", 1); ("moderate", 2);
                     ("medium", 2); ("severe", 3); ("heavy", 3)] in
      mapping !! lower v
  end.

Definition _map_occupancy_status (value : option string) : option Z :=
  match value with
  | None => None
  | Some v =>
      let mapping : gmap string Z :=
        list_to_map [("empty", 0); ("many_seats_available", 1);
                     ("few_seats_available", 2); ("standing_room_only", 3);
                     ("crushed_standing_room_only", 4); ("full", 5);
                     ("not_accepting_passengers", 6)] in
      mapping !! lower v
  end.

(** *** Parents created on demand *)

Definition _ensure_route_exists (route_id : string) : M unit :=
  let* rows := query routes in
  match first (λ r, String.eqb (r_id r) route_id) rows with
  | Some _ => ret tt
  | None =>
      add_flush (add_route {| r_id := route_id;
                              r_route_name := String.append "Route " route_id;
                              r_route_type := 0;
                              r_route_color := None;
                              r_route_text_color := None |})
  end.

Definition _ensure_stop_exists (stop_id : string) : M unit :=
  let* rows := query stops in
  match first (λ r, String.eqb (s_id r) stop_id) rows with
  | Some _ => ret tt
  | None =>
      add_flush (add_stop {| s_id := stop_id;
                             s_stop_name := String.append "Stop " stop_id;
                             s_stop_lat := None; s_stop_lon := None;
                             s_wheelchair_boarding := with_default 0 None |})
  end.

Definition _ensure_trip_exists (trip_id : string) : M unit :=
  let* rows := query trips in
  match first (λ r, String.eqb (dt_id r) trip_id) rows with
  | Some _ => ret tt
  | None =>
      add_flush (add_trip {| dt_id := trip_id;
                             dt_route_id := "unknown";
                             dt_service_id := Some "unknown";
                             dt_trip_headsign := None; dt_trip_short_name := None;
                             dt_direction_id := None; dt_block_id := None;
                             dt_shape_id := None;
                             dt_wheelchair_accessible := with_default 0 None;
                             dt_bikes_allowed := with_default 0 None |})
  end.

Definition _ensure_vehicle_exists (vehicle_id : string) (vehicle_label : option string)
    : M unit :=
  if String.eqb vehicle_id "" then ret tt
  else
    let* rows := query vehicles in
    match first (λ r, String.eqb (veh_vehicle_id r) vehicle_id) rows with
    | Some _ => ret tt
    | None =>
        add_flush (add_vehicle {| veh_id := vehicle_id; veh_vehicle_id := vehicle_id;
                                  veh_vehicle_label := vehicle_label |})
    end.

Section Gateway.

(** [settings.auto_seed_missing_entities] *)
Variable auto_seed_missing_entities : bool.

(** [if settings.auto_seed_missing_entities and vehicle_id: ...] *)
Definition seed_vehicle (vehicle_id : option string) (vehicle_label : option string)
    : M unit :=
  match vehicle_id with
  | Some v =>
      if auto_seed_missing_entities && Py.truthy_str (Some v)
      then _ensure_vehicle_exists v vehicle_label
      else ret tt
  | None => ret tt
  end.

(** The filter of the idempotency lookup: the three columns of the
    unique constraint ([== None] is [IS NULL]). *)
Definition same_key (prediction : Prediction) (row : DBPrediction) : bool :=
  String.eqb (dp_trip_id row) (p_trip_id prediction)
  && String.eqb (dp_stop_id row) (p_stop_id prediction)
  && bool_decide (dp_arrival_time row = arrival_time prediction).

Definition _store_prediction (prediction : Prediction) : M StoredId :=
  do _ensure_route_exists (p_route_id prediction) then
  do _ensure_stop_exists (p_stop_id prediction) then
  do _ensure_trip_exists (p_trip_id prediction) then
  do seed_vehicle (p_vehicle_id prediction) (vehicle_label prediction) then
  let* rows := query predictions in
  match first (same_key prediction) rows with
  | Some existing => ret (Uuid (dp_id existing))
  | None =>
      let* id := uuid4 in
      do add_flush (add_prediction
           {| dp_id := id;
              dp_trip_id := p_trip_id prediction;
              dp_route_id := p_route_id prediction;
              dp_stop_id := p_stop_id prediction;
              dp_vehicle_id := p_vehicle_id prediction;
              dp_arrival_time := arrival_time prediction;
              dp_departure_time := departure_time prediction;
              dp_schedule_relationship :=
                with_default 0
                  (_map_schedule_relationship (schedule_relationship prediction));
              dp_status := status prediction;
              dp_delay := delay prediction |}) then
      ret (Uuid id)
  end.

(** [if x: await ensure(x)] on an optional id *)
Definition when_truthy (id : option string) (ensure : string → M unit) : M unit :=
  match id with
  | Some v => if Py.truthy_str (Some v) then ensure v else ret tt
  | None => ret tt
  end.

(** The record model has no [stop_id] and no [direction_id] on a
    position, so the [hasattr] test fails and both columns are null. *)
Definition _store_vehicle_position (position : VehiclePosition) : M StoredId :=
  do when_truthy (v_route_id position) _ensure_route_exists then
  do when_truthy (v_trip_id position) _ensure_trip_exists then
  do seed_vehicle (Some (v_vehicle_id position)) None then
  let* id := uuid4 in
  do add_flush (add_vehicle_position
       {| vp_id := id;
          vp_vehicle_id := v_vehicle_id position;
          vp_trip_id := v_trip_id position;
          vp_route_id := v_route_id position;
          vp_direction_id := None;
          vp_stop_id := None;
          vp_latitude := latitude position;
          vp_longitude := longitude position;
          vp_bearing := bearing position;
          vp_speed := speed position;
          vp_congestion_level := _map_congestion_level (congestion_level position);
          vp_occupancy_status := _map_occupancy_status (occupancy_status position);
          vp_timestamp := v_timestamp position |}) then
  ret (Uuid id).

Definition _store_trip_update (update : TripUpdate) : M StoredId :=
  do _ensure_trip_exists (u_trip_id update) then
  do when_truthy (u_route_id update) _ensure_route_exists then
  let* id := uuid4 in
  do add_flush (add_trip_update
       {| tu_id := id;
          tu_trip_id := u_trip_id update;
          tu_route_id := u_route_id update;
          tu_delay := u_delay update;
          tu_start_time := None;
          tu_end_time := None;
          tu_timestamp := u_timestamp update |}) then
  ret (Uuid id).

Definition _store_alert (alert : Alert) : M StoredId :=
  let* rows := query alerts in
  match first (λ r, String.eqb (a_alert_id r) (alert_id alert)) rows with
  | Some existing => ret (Uuid (a_id existing))
  | None =>
      let* id := uuid4 in
      do add_flush (add_alert
           {| a_id := id;
              a_alert_id := alert_id alert;
              a_alert_header_text := alert_header_text alert;
              a_alert_description_text := alert_description_text alert;
              a_alert_url := alert_url alert;
              a_alert_effect := effect alert;
              a_alert_severity_level := alert_severity_level alert;
              a_affected_route_ids := affected_routes alert;
              a_affected_stop_ids := affected_stops alert;
              a_affected_trip_ids := affected_trips alert;
              a_active_period_start := effective_start_date alert;
              a_active_period_end := effective_end_date alert |}) then
      ret (Uuid id)
  end.

Definition _store_route (route : Route) : M StoredId :=
  let* rows := query routes in
  match first (λ r, String.eqb (r_id r) (route_id route)) rows with
  | Some existing => ret (Key (r_id existing))
  | None =>
      do add_flush (add_route
           {| r_id := route_id route;
              r_route_name := route_name route;
              r_route_type := route_type route;
              r_route_color := route_color route;
              r_route_text_color := route_text_color route |}) then
      ret (Key (route_id route))
  end.

Definition _store_stop (stop : Stop) : M StoredId :=
  let* rows := query stops in
  match first (λ r, String.eqb (s_id r) (stop_id stop)) rows with
  | Some existing => ret (Key (s_id existing))
  | None =>
      do add_flush (add_stop
           {| s_id := stop_id stop;
              s_stop_name := stop_name stop;
              s_stop_lat := stop_lat stop;
              s_stop_lon := stop_lon stop;
              s_wheelchair_boarding := with_default 0 (wheelchair_boarding stop) |}) then
      ret (Key (stop_id stop))
  end.

Definition _store_trip (trip : Trip) : M StoredId :=
  let* rows := query trips in
  match first (λ r, String.eqb (dt_id r) (trip_id trip)) rows with
  | Some existing => ret (Key (dt_id existing))
  | None =>
      do _ensure_route_exists (t_route_id trip) then
      do add_flush (add_trip
           {| dt_id := trip_id trip;
              dt_route_id := t_route_id trip;
              dt_service_id := service_id trip;
              dt_trip_headsign := trip_headsign trip;
              dt_trip_short_name := trip_short_name trip;
              dt_direction_id := direction_id trip;
              dt_block_id := block_id trip;
              dt_shape_id := shape_id trip;
              dt_wheelchair_accessible := with_default 0 (wheelchair_accessible trip);
              dt_bikes_allowed := with_default 0 (bikes_allowed trip) |}) then
      ret (Key (trip_id trip))
  end.

Definition _log_ingestion (source_type status : string)
    (records_processed records_inserted records_updated records_failed : nat)
    (error_message : option string) : M unit :=
  let* id := uuid4 in
  add_flush (add_log
    {| l_id := id;
       l_source_type := source_type;
       l_status := status;
       l_records_processed := records_processed;
       l_records_inserted := records_inserted;
       l_records_updated := records_updated;
       l_records_failed := records_failed;
       l_error_message := error_message |}).

End Gateway.

(** *** Units of work *)

(** [get_db_async]: a new session on the database, with its transaction
    open.  Every unit of work ends with [close_db_async], which leaves the
    committed tables and an open transaction, so the first case is the one
    that occurs between units of work. *)
Definition get_db_async (s : Session) : Session :=
  match faults s with
  | Open _ => s
  | Rolled_back answers =>
      {| tables := tables s; next_uuid := next_uuid s; faults := Open answers |}
  end.

(** [close_db_async]: commit; when the commit fails, as it does on a
    transaction that has been rolled back, roll back to the tables as they
    were when the session was opened, re-raise, and close. *)
Definition close_db_async (opened : Tables) : M unit :=
  λ s, match faults s with
       | Rolled_back answers =>
           ({| tables := opened; next_uuid := next_uuid s; faults := Open answers |},
            inl "PendingRollbackError")
       | Open answers =>
           match next_fault answers with
           | (true, rest) =>
               ({| tables := opened; next_uuid := next_uuid s; faults := Open rest |},
                inl "SQLAlchemyError")
           | (false, rest) =>
               ({| tables := tables s; next_uuid := next_uuid s; faults := Open rest |},
                inr tt)
           end
       end.

(** [session = await get_db_async(); try: body finally: await
    close_db_async(session)]: an exception of the [finally] clause
    replaces whatever the body returned or raised. *)
Definition with_session {A} (body : M A) : M A :=
  λ s, let s := get_db_async s in
       let opened := tables s in
       match body s with
       | (s, r) =>
           match close_db_async opened s with
           | (s, inl e) => (s, inl e)
           | (s, inr _) => (s, r)
           end
       end.

Section Service.

Variable auto_seed_missing_entities : bool.

(** The [isinstance] chain of [store_batch]; it has no [else], so an
    object of another class is passed over. *)
Definition store_item (data : Data) : M unit :=
  match data with
  | DPrediction p => do _store_prediction auto_seed_missing_entities p then ret tt
  | DVehiclePosition v => do _store_vehicle_position auto_seed_missing_entities v then ret tt
  | DTripUpdate u => do _store_trip_update u then ret tt
  | DAlert a => do _store_alert a then ret tt
  | DRoute r => do _store_route r then ret tt
  | DStop s => do _store_stop s then ret tt
  | DTrip t => do _store_trip t then ret tt
  | Other _ => ret tt
  end.

(** The [for] loop of [store_batch] with its two counters. *)
Fixpoint store_each (data_list : list Data) (success_count error_count : nat)
    : M (nat * nat) :=
  match data_list with
  | [] => ret (success_count, error_count)
  | data :: rest =>
      let* stored := try_except (do store_item data then ret true) (λ _, ret false) in
      if stored : bool
      then store_each rest (S success_count) error_count
      else store_each rest success_count (S error_count)
  end.

(** The dict [store_batch] returns. *)
Inductive BatchResult :=
| BatchDone (total successful errors : nat)
| BatchFailed (error : string).


Definition batch_status (error_count : nat) : string :=
  if (error_count =? 0)%nat then "success" else "partial".

Definition store_batch (data_list : list Data) (source_type : string) (s : Session)
    : Session * BatchResult :=
  let total_count := length data_list in
  let unit_of_work :=
    with_session
      (let* counts := store_each data_list 0 0 in
       do _log_ingestion source_type (batch_status (snd counts))
            total_count (fst counts) 0 (snd counts) None then
       ret counts) in
  match unit_of_work s with
  | (s, inr counts) => (s, BatchDone total_count (fst counts) (snd counts))
  | (s, inl e) => (s, BatchFailed e)
  end.

(** The dict [store_transit_data] returns. *)
Inductive StoreResult :=
| Stored (stored_id : StoredId)
| NotStored (error : string).

Definition logged (source_type : string) (m : M StoredId) : M StoreResult :=
  let* result := m in
  do _log_ingestion source_type "success" 1 1 0 0 None then
  ret (Stored result).

Definition store_transit_data (data : Data) (source_type : string) (s : Session)
    : Session * StoreResult :=
  let unit_of_work :=
    with_session
      match data with
      | DPrediction p => logged source_type (_store_prediction auto_seed_missing_entities p)
      | DVehiclePosition v =>
          logged source_type (_store_vehicle_position auto_seed_missing_entities v)
      | DTripUpdate u => logged source_type (_store_trip_update u)
      | DAlert a => logged source_type (_store_alert a)
      | DRoute r => logged source_type (_store_route r)
      | DStop st => logged source_type (_store_stop st)
      | DTrip t => logged source_type (_store_trip t)
      | Other n => ret (NotStored (String.append "Unknown data type: " n))
      end in
  match unit_of_work s with
  | (s, inr r) => (s, r)
  | (s, inl e) =>
      let '(s, _) :=
        with_session (_log_ingestion source_type "error" 1 0 0 1 (Some e)) s in
      (s, NotStored e)
  end.

End Service.

End Storage.

#[warning="-uniform-inheritance"]
Coercion Storage.Open : list >-> Storage.Transaction.

(** ** Auxiliary notions and concrete inputs used by the properties below *)

Module Examples.
Import Transit.

(** The predictions of the aggregator's own test: route "Red", a trip
    and a stop per prediction, no times. *)
Definition test_prediction (i : string) (d : option Z) : Prediction :=
  {| prediction_id := String.append "pred_" i;
     p_trip_id := String.append "trip_" i;
     p_stop_id := String.append "stop_" i;
     p_route_id := "Red";
     arrival_time := None;
     departure_time := None;
     schedule_relationship := None;
     p_vehicle_id := None;
     vehicle_label := None;
     status := None;
     delay := d |}.

Definition five_delays : Aggregator.DataAggregator :=
  foldl (λ agg p, Aggregator.process (DPrediction p) agg) Aggregator.empty
    [test_prediction "0" (Some 0); test_prediction "1" (Some 60);
     test_prediction "2" (Some 300); test_prediction "3" (Some 900);
     test_prediction "4" (Some 1800)].


(** A prediction with its delay erased when the delay is zero, and an
    aggregator whose prediction buffer is rewritten that way: the same
    predictions, carrying no delay data where they carried a zero. *)
Definition forget_zero_delay (p : Prediction) : Prediction :=
  if Py.truthy_int (delay p) then p
  else
    {| prediction_id := prediction_id p;
       p_trip_id := p_trip_id p;
       p_stop_id := p_stop_id p;
       p_route_id := p_route_id p;
       arrival_time := arrival_time p;
       departure_time := departure_time p;
       schedule_relationship := schedule_relationship p;
       p_vehicle_id := p_vehicle_id p;
       vehicle_label := vehicle_label p;
       status := status p;
       delay := None |}.

Definition forget_in_buffer (d : Data) : Data :=
  match d with
  | DPrediction p => DPrediction (forget_zero_delay p)
  | _ => d
  end.

Definition forget_zero_delays (self : Aggregator.DataAggregator)
    : Aggregator.DataAggregator :=
  {| Aggregator.aggregations :=
       alter (map forget_in_buffer) "Prediction" (Aggregator.aggregations self);
     Aggregator.summary_stats := Aggregator.summary_stats self |}.

(** Two predictions of route "Red" at stop "stop_0", both on time. *)
Definition on_time_route : Aggregator.DataAggregator :=
  foldl (λ agg p, Aggregator.process (DPrediction p) agg) Aggregator.empty
    [test_prediction "0" (Some 0); test_prediction "0" (Some 0)].


(** The delays that reach a [delays] list of a summary: those that are
    neither null nor zero, in the order of the buffer. *)
Definition counted_delays (ps : list Prediction) : list Z :=
  filter (λ d, d ≠ 0) (omap delay ps).

(** The entry of a [defaultdict] of statistics under a key. *)
Definition route_entry (m : gmap string Aggregator.RouteAcc) (r : string)
    : Aggregator.RouteAcc :=
  default Aggregator.route_default (m !! r).

Definition stop_entry (m : gmap string Aggregator.StopAcc) (k : string)
    : Aggregator.StopAcc :=
  default Aggregator.stop_default (m !! k).


(** A vehicle at latitude 0, longitude 0, and one in Boston (the
    position of the aggregator's test). *)
Definition position_at (lat lon : Q) : VehiclePosition :=
  {| v_vehicle_id := "vehicle_1";
     v_trip_id := Some "trip_1";
     v_route_id := Some "Red";
     latitude := lat;
     longitude := lon;
     bearing := None;
     speed := None;
     current_status := None;
     v_timestamp := 0;
     congestion_level := None;
     occupancy_status := None |}.

Definition equator_position : VehiclePosition := position_at 0 0.
Definition boston_position : VehiclePosition := position_at (423564 # 10000) (-710624 # 10000).

(** The validator with the rules of the source, reading a clock that
    shows [now] for timezone-aware timestamps. *)
Definition validate_at (now : Z) : Data → option Data :=
  Validator.process Validator.future_time_check (Validator.timestamp_age_check true now)
    Validator._setup_validation_rules.


(** The box a set of coordinate bounds describes. *)
Definition inside (b : Validator.CoordinateBounds) (lat lon : Q) : Prop :=
  ((Validator.lat_min b <= lat)%Q ∧ (lat <= Validator.lat_max b)%Q)
  ∧ ((Validator.lon_min b <= lon)%Q ∧ (lon <= Validator.lon_max b)%Q).

(** The ranges of the specification: latitude in [-90, 90] and longitude
    in [-180, 180]. *)
Definition on_the_globe (lat lon : Q) : Prop :=
  ((-90 <= lat)%Q ∧ (lat <= 90)%Q) ∧ ((-180 <= lon)%Q ∧ (lon <= 180)%Q).


(** Trip-update feeds of one entity with one stop-time update: the
    vehicle arrives on time (delay 0) and leaves [departure] seconds
    late. *)
Definition stop_time_update (arrival departure : Z) : GtfsRt.StopTimeUpdate :=
  {| GtfsRt.stu_stop_id := "place-pktrm";
     GtfsRt.stu_stop_sequence := Some 1;
     GtfsRt.stu_arrival := Some {| GtfsRt.e_delay := Some arrival; GtfsRt.e_time := None |};
     GtfsRt.stu_departure :=
       Some {| GtfsRt.e_delay := Some departure; GtfsRt.e_time := None |} |}.

Definition trip_update_feed (updates : list GtfsRt.StopTimeUpdate) : GtfsRt.FeedMessage :=
  {| GtfsRt.header :=
       {| GtfsRt.header_timestamp := Some 1700000000;
          GtfsRt.gtfs_realtime_version := "2.0" |};
     GtfsRt.entity :=
       [{| GtfsRt.entity_id := "trip_123";
           GtfsRt.entity_trip_update :=
             Some {| GtfsRt.tu_trip :=
                       Some {| GtfsRt.td_trip_id := "trip_123";
                               GtfsRt.td_route_id := "Red" |};
                     GtfsRt.tu_vehicle := None;
                     GtfsRt.tu_stop_time_update := updates |} |}] |}.

Definition no_metadata : GtfsRt.FeedMetadata :=
  {| GtfsRt.feed_timestamps := ∅; GtfsRt.feed_sequence_numbers := ∅ |}.

(** A host whose clock is set to UTC, and one in Boston in winter, five
    hours behind. *)
Definition utc : Z → Z := λ _, 0.
Definition eastern_standard_time : Z → Z := λ _, -18000.

(** The derived delays of the trip updates parsed from a feed. *)
Definition parsed_delays (feed : GtfsRt.FeedMessage) : list (option Q) :=
  map GtfsRt.d_delay (snd (GtfsRt._parse_trip_updates utc (Some feed) no_metadata)).

(** A feed stamped with the first second of the year 10000 (UTC). *)
Definition far_future_feed : GtfsRt.FeedMessage :=
  {| GtfsRt.header :=
       {| GtfsRt.header_timestamp := Some 253402300800;
          GtfsRt.gtfs_realtime_version := "2.0" |};
     GtfsRt.entity := GtfsRt.entity (trip_update_feed [stop_time_update 0 60]) |}.


(** A limiter that admits one request per minute, and a policy with a
    single retry and the default quota of 1000 requests per minute. *)
Definition one_per_minute : RestIngestor.Config :=
  {| RestIngestor.rate_limit_requests_per_minute := 1;
     RestIngestor.max_retries := 3;
     RestIngestor.retry_delay := 5 |}.

Definition one_retry : RestIngestor.Config :=
  {| RestIngestor.rate_limit_requests_per_minute := 1000;
     RestIngestor.max_retries := 1;
     RestIngestor.retry_delay := 5 |}.

(** The server's answers: a page of data, a 429 that asks for a wait of
    [n] seconds, and a 500. *)
Definition page : RestIngestor.Attempt string :=
  RestIngestor.Responds 200 RestIngestor.Absent "data".
Definition too_many_requests (n : Z) : RestIngestor.Attempt string :=
  RestIngestor.Responds 429 (RestIngestor.Seconds n) "".
Definition server_error : RestIngestor.Attempt string :=
  RestIngestor.Responds 500 RestIngestor.Absent "".


(** A source driven by a script: the world is the list of what the coming
    fetches will give, a list of raw records or an error message; past the
    end of the script a fetch gives nothing.  Records are transformed as
    they are, the clock stands still and nothing disturbs the sleep. *)
Definition scripted_source : Ingestion.Source (list (string + list string)) string string :=
  {| Ingestion.utcnow := λ _, 0;
     Ingestion.fetch_data := λ w,
       match w with
       | [] => ([], inr [])
       | r :: rest => (rest, r)
       end;
     Ingestion.transform_data := λ raw w, (w, inr raw);
     Ingestion.sleep := λ _ w, (w, Ingestion.Woke) |}.

Definition idle_ingestor : Ingestion.BaseIngestor :=
  {| Ingestion.name := "mbta_v3_rest";
     Ingestion.polling_interval := 15;
     Ingestion.is_running := false;
     Ingestion.last_successful_ingestion := None;
     Ingestion.total_records_ingested := 0;
     Ingestion.total_errors := 0;
     Ingestion.consecutive_failures := 0 |}.

(** A subscriber that does nothing. *)
Definition subscriber : @Ingestion.Callback (list (string + list string)) string :=
  λ _ w, (w, inr tt).

(** The log of [cycles] cycles of the engine over a script. *)
Definition polled (cycles : nat) (script : list (string + list string))
    : list (@Ingestion.Cycle string) :=
  snd (@Ingestion.run_continuous _ _ _ scripted_source cycles (Some subscriber)
         idle_ingestor script).


(** What a cycle hands to the callback, told from the cycle's own result. *)
Definition handed_over {World Rec : Type} (callback : option (@Ingestion.Callback World Rec))
    (result : Ingestion.IngestionResult Rec) : option (Ingestion.IngestionResult Rec) :=
  match callback with
  | Some _ => if Ingestion.is_successful result then Some result else None
  | None => None
  end.


(** Every table of [t'] starts with the rows of the same table of [t]:
    rows have been added to [t], none removed or changed. *)
Definition tables_grow (t t' : Storage.Tables) : Prop :=
  Storage.routes t `prefix_of` Storage.routes t'
  ∧ Storage.stops t `prefix_of` Storage.stops t'
  ∧ Storage.trips t `prefix_of` Storage.trips t'
  ∧ Storage.vehicles t `prefix_of` Storage.vehicles t'
  ∧ Storage.predictions t `prefix_of` Storage.predictions t'.

(** An operation that has nothing left to do, now or after more rows have
    been added: on a session that can be used it returns without touching
    it. *)
Definition settled (op : Storage.M unit) (s : Storage.Session) : Prop :=
  ∀ s', Storage.rolled_back s' = false →
        tables_grow (Storage.tables s) (Storage.tables s') → op s' = (s', inr tt).

(** An operation that follows the transaction: it leaves a rolled-back
    transaction rolled back, it raises only with the transaction rolled
    back, and when it returns from an open transaction the transaction is
    still open. *)
Definition transactional {A} (op : Storage.M A) : Prop :=
  ∀ s s' r, op s = (s', r) →
    (Storage.rolled_back s = true → Storage.rolled_back s' = true)
    ∧ ((∃ e, r = inl e) → Storage.rolled_back s' = true)
    ∧ (Storage.rolled_back s = false → (∃ x, r = inr x) → Storage.rolled_back s' = false).

(** The rows of the predictions table that carry the key of [prediction]. *)
Definition stored_rows (prediction : Prediction) (s : Storage.Session)
    : list Storage.DBPrediction :=
  List.filter (Storage.same_key prediction) (Storage.predictions (Storage.tables s)).

(** An empty database that answers every call, and the prediction of the
    model's own example. *)
Definition empty_database : Storage.Session :=
  {| Storage.tables := Storage.no_rows; Storage.next_uuid := 0; Storage.faults := [] |}.

Definition park_street_prediction : Prediction :=
  {| prediction_id := "pred_123";
     p_trip_id := "trip_123";
     p_stop_id := "place-pktrm";
     p_route_id := "Red";
     arrival_time := Some 1705314600000000;
     departure_time := Some 1705314720000000;
     schedule_relationship := Some "SCHEDULED";
     p_vehicle_id := Some "vehicle_456";
     vehicle_label := None;
     status := None;
     delay := Some 120 |}.




(** The log row [store_batch] appends for a batch with the given counts. *)
Definition batch_log_row (id : N) (source_type : string) (total successful errors : nat)
    : Storage.DataIngestionLog :=
  {| Storage.l_id := id;
     Storage.l_source_type := source_type;
     Storage.l_status := if (errors =? 0)%nat then "success" else "partial";
     Storage.l_records_processed := total;
     Storage.l_records_inserted := successful;
     Storage.l_records_updated := 0;
     Storage.l_records_failed := errors;
     Storage.l_error_message := None |}.


(** An operation that goes through, and leaves the database as willing,
    whenever the database accepts every write. *)
Definition accepting (op : Storage.M unit) : Prop :=
  ∀ s, Storage.faults s = [] →
       ∃ s', op s = (s', inr tt) ∧ Storage.faults s' = [].


(** A service summary: 75 percent on time, two anomalies of severity
    "high" and one of severity "medium", six alerts. *)
Definition strained_performance : Analytics.PerformanceMetrics :=
  {| Analytics.on_time_percentage := 75;
     Analytics.average_delay := 240;
     Analytics.delay_std_dev := 60;
     Analytics.total_trips := 100;
     Analytics.delayed_trips := 25;
     Analytics.severely_delayed_trips := 5;
     Analytics.pm_timestamp := 0 |}.

Definition anomaly (severity : string) : Analytics.AnomalyDetection :=
  {| Analytics.anomaly_type := "extreme_delays";
     Analytics.severity := severity;
     Analytics.description := "";
     Analytics.affected_routes := [];
     Analytics.affected_stops := [];
     Analytics.confidence_score := 85 # 100;
     Analytics.ad_timestamp := 0 |}.


(** The aggregator after the records of [ds] have been processed, in
    order, starting from a fresh one. *)
Definition processed (ds : list Data) : Aggregator.DataAggregator :=
  foldl (λ agg d, Aggregator.process d agg) Aggregator.empty ds.

(** The records of [ds] whose class is named [key], in order. *)
Definition of_type (key : string) (ds : list Data) : list Data :=
  filter (λ d, type_name d = key) ds.


(** The buffers and the counts of an aggregator agree. *)
Definition counted (self : Aggregator.DataAggregator) : Prop :=
  ∀ key, Aggregator.summary_stats self !! key
         = match Aggregator.get self key with [] => None | l => Some (length l) end.


(** What the summaries count for a route or a stop: its predictions, the
    vehicle positions that name it (an empty route id names nothing), and
    the times the alerts list it. *)
Definition route_predictions (r : string) (self : Aggregator.DataAggregator) : list Prediction :=
  filter (λ p, p_route_id p = r) (Aggregator.predictions self).

Definition stop_predictions (k : string) (self : Aggregator.DataAggregator) : list Prediction :=
  filter (λ p, p_stop_id p = k) (Aggregator.predictions self).

Definition route_positions (r : string) (self : Aggregator.DataAggregator)
    : list VehiclePosition :=
  filter (λ v, v_route_id v = Some r ∧ r ≠ "") (Aggregator.vehicle_positions self).

Definition occurrences (k : string) (ids : list string) : nat :=
  length (filter (λ x, x = k) ids).

Definition route_mentions (r : string) (self : Aggregator.DataAggregator) : nat :=
  occurrences r (concat (map affected_routes (Aggregator.alerts self))).

Definition stop_mentions (k : string) (self : Aggregator.DataAggregator) : nat :=
  occurrences k (concat (map affected_stops (Aggregator.alerts self))).


(** [n] number signs in a row. *)
Fixpoint hashes (n : nat) : string :=
  match n with
  | O => ""
  | S n => String "#" (hashes n)
  end.

(** An id that holds a no-break space (U+00A0) and a next-line character
    (U+0085), a trip update with that trip id stamped at the clock, and a
    prediction with that trip id and no times. *)
Definition white_space_id : string :=
  String "194" (String "160" (String "194" (String "133" ""))).

Definition unnamed_update : TripUpdate :=
  {| u_trip_id := white_space_id;
     u_vehicle_id := None;
     u_route_id := Some "Red";
     u_timestamp := 0;
     u_delay := None |}.

Definition unnamed_prediction : Prediction :=
  {| prediction_id := "pred_123";
     p_trip_id := white_space_id;
     p_stop_id := "place-pktrm";
     p_route_id := "Red";
     arrival_time := None;
     departure_time := None;
     schedule_relationship := None;
     p_vehicle_id := None;
     vehicle_label := None;
     status := None;
     delay := None |}.

(** A trip update of trip "trip_123" stamped at [timestamp]. *)
Definition update_at (timestamp : Z) (d : option Z) : TripUpdate :=
  {| u_trip_id := "trip_123";
     u_vehicle_id := None;
     u_route_id := Some "Red";
     u_timestamp := timestamp;
     u_delay := d |}.



(** The retry counters of the frames that wait for a call, innermost
    first, lie below the counter [retries] of the call and decrease. *)
Fixpoint below (retries : nat) (callers : list nat) : Prop :=
  match callers with
  | [] => True
  | c :: callers => (c < retries)%nat ∧ below c callers
  end.



(** What a call does once the exception of its last attempt is on its
    way up through [callers]. *)
Definition handed_up {Payload} (cfg : RestIngestor.Config) (e : RestIngestor.Exception)
    (rest : list (RestIngestor.Attempt Payload)) (callers : list nat)
    (st : RestIngestor.State) : RestIngestor.State * option (RestIngestor.Outcome Payload) :=
  match RestRetry.except_ClientError cfg callers st with
  | Some (retries', callers', st') => RestRetry._make_request cfg rest callers' retries' st'
  | None => (st, Some (RestIngestor.Raises e))
  end.

(** What a log of cycles tells about the counters of the ingestor: the
    cycles that failed, the records the cycles report, and the run of
    failures at the end of the log, which a cycle that transformed data
    (it reports metadata) brings back to zero and a cycle whose fetch
    returned nothing leaves as it is. *)
Definition failures {Rec} (log : list (@Ingestion.Cycle Rec)) : nat :=
  length (filter (λ c, Ingestion.success (Ingestion.outcome c) = false) log).

Definition records {Rec} (log : list (@Ingestion.Cycle Rec)) : nat :=
  foldr (λ c n, (Ingestion.record_count (Ingestion.outcome c) + n)%nat) 0%nat log.

Definition streak_step {Rec} (n : nat) (c : @Ingestion.Cycle Rec) : nat :=
  if Ingestion.success (Ingestion.outcome c)
  then match Ingestion.metadata (Ingestion.outcome c) with
       | Some _ => 0%nat
       | None => n
       end
  else S n.

Definition streak {Rec} (n : nat) (log : list (@Ingestion.Cycle Rec)) : nat :=
  foldl streak_step n log.



(** A subscriber that raises whenever it is called. *)
Definition raising_subscriber : @Ingestion.Callback (list (string + list string)) string :=
  λ _ w, (w, inl "subscriber failed").

(** No timestamp of the limiter's window lies ahead of the clock. *)
Definition window_in_the_past (st : RestIngestor.State) : Prop :=
  Forall (λ ts, ts ≤ RestIngestor.clock st) (RestIngestor.request_timestamps st).



(** The row [_ensure_route_exists] writes for a route it does not find, and
    the log row of a single record stored. *)
Definition placeholder_route (route_id : string) : Storage.DBRoute :=
  {| Storage.r_id := route_id;
     Storage.r_route_name := String.append "Route " route_id;
     Storage.r_route_type := 0;
     Storage.r_route_color := None;
     Storage.r_route_text_color := None |}.

Definition single_log_row (id : N) (source_type : string) : Storage.DataIngestionLog :=
  {| Storage.l_id := id;
     Storage.l_source_type := source_type;
     Storage.l_status := "success";
     Storage.l_records_processed := 1;
     Storage.l_records_inserted := 1;
     Storage.l_records_updated := 0;
     Storage.l_records_failed := 0;
     Storage.l_error_message := None |}.

(** The Red Line as the reference data describe it, and an alert. *)
Definition red_line : Route :=
  {| route_id := "Red";
     route_name := "Red Line";
     route_type := 1;
     route_color := Some "DA291C";
     route_text_color := Some "FFFFFF" |}.

Definition delay_alert (header : string) : Alert :=
  {| alert_id := "alert_1";
     alert_header_text := Some header;
     alert_description_text := None;
     alert_url := None;
     effective_start_date := None;
     effective_end_date := None;
     affected_routes := ["Red"];
     affected_stops := [];
     affected_trips := [];
     alert_severity_level := Some "WARNING";
     effect := None |}.



(** The entities of a feed that carry a trip update, with that update, in
    feed order; and the mean of the delays of a trip update that are
    present and not zero. *)
Definition carrying (feed : GtfsRt.FeedMessage)
    : list (GtfsRt.FeedEntity * GtfsRt.TripUpdateMessage) :=
  omap (λ e, (λ tu, (e, tu)) <$> GtfsRt.entity_trip_update e) (GtfsRt.entity feed).

Definition nonzero_delays (tu : GtfsRt.TripUpdateMessage) : list Z :=
  filter (λ d, d ≠ 0) (TripDelayRule.present_delays (GtfsRt.tu_stop_time_update tu)).

Definition nonzero_mean (tu : GtfsRt.TripUpdateMessage) : option Q :=
  match nonzero_delays tu with
  | [] => None
  | ds => Some (Qmake (Py.sum ds) (Pos.of_nat (length ds)))
  end.



(** The four service statuses of the aggregator, from best to worst. *)
Definition service_rank (status : string) : nat :=
  if String.eqb status "excellent" then 0
  else if String.eqb status "good" then 1
  else if String.eqb status "fair" then 2
  else 3.



(** An attempt that ends in the [except] clause of the frame that made
    it: the transport fails, or the server answers with a 4xx status other
    than 429. *)
Definition client_failure {Payload} (a : RestIngestor.Attempt Payload) : Prop :=
  match a with
  | RestIngestor.Fails => True
  | RestIngestor.Responds status _ _ => 400 ≤ status < 500 ∧ status ≠ 429
  end.



(** The row [_ensure_trip_exists] writes for a trip it does not find. *)
Definition placeholder_trip (trip_id : string) : Storage.DBTrip :=
  {| Storage.dt_id := trip_id;
     Storage.dt_route_id := "unknown";
     Storage.dt_service_id := Some "unknown";
     Storage.dt_trip_headsign := None;
     Storage.dt_trip_short_name := None;
     Storage.dt_direction_id := None;
     Storage.dt_block_id := None;
     Storage.dt_shape_id := None;
     Storage.dt_wheelchair_accessible := Some 0;
     Storage.dt_bikes_allowed := Some 0 |}.

(** The foreign key of [trips.route_id]: every trip row names a route
    row. *)
Definition trips_name_routes (t : Storage.Tables) : Prop :=
  ∀ trip, trip ∈ Storage.trips t →
    ∃ route, route ∈ Storage.routes t ∧ Storage.r_id route = Storage.dt_route_id trip.

(** A database that enforces that foreign key at its next flush: a trip
    row that names no route row is answered with an error. *)
Definition refuses_orphan_trips (s : Storage.Session) : Prop :=
  ∀ trip,
    (∀ route, route ∈ Storage.routes (Storage.tables s) →
              Storage.r_id route ≠ Storage.dt_route_id trip) →
    snd (Storage.add_flush (Storage.add_trip trip) s) = inl "SQLAlchemyError".

(** An empty database that accepts two flushes and refuses the third. *)
Definition third_flush_fails : Storage.Session :=
  {| Storage.tables := Storage.no_rows; Storage.next_uuid := 0;
     Storage.faults := [false; false; true] |}.

(** An operation that, in a database that accepts every write, goes
    through without drawing an id and without a row for the tables of
    trip updates and vehicle positions. *)
Definition adds_parents_only (op : Storage.M unit) : Prop :=
  ∀ s, Storage.faults s = [] →
       ∃ s', op s = (s', inr tt)
             ∧ Storage.faults s' = []
             ∧ Storage.next_uuid s' = Storage.next_uuid s
             ∧ Storage.trip_updates (Storage.tables s')
               = Storage.trip_updates (Storage.tables s)
             ∧ Storage.vehicle_positions (Storage.tables s')
               = Storage.vehicle_positions (Storage.tables s).


End Examples.

(** * Properties *)

(** ** Shared facts about the Python idioms *)

Section PyFacts.

Lemma Qltb_lt (x y : Q) : Py.Qltb x y = true ↔ (x < y)%Q.
Proof.
  unfold Py.Qltb. rewrite negb_true_iff.
  split.
  - intros Hle. apply Qnot_le_lt. intros Hyx.
    apply Qle_bool_iff in Hyx. congruence.
  - intros Hlt. destruct (Qle_bool y x) eqn:E; [|reflexivity].
    apply Qle_bool_iff in E. exfalso. exact (Qlt_not_le _ _ Hlt E).
Qed.

Lemma Qltb_ge (x y : Q) : Py.Qltb x y = false ↔ (y <= x)%Q.
Proof.
  unfold Py.Qltb. rewrite negb_false_iff. apply Qle_bool_iff.
Qed.

Lemma Qleb_le (x y : Q) : Py.Qleb x y = true ↔ (x <= y)%Q.
Proof. apply Qle_bool_iff. Qed.

Lemma truthy_int_spec (v : option Z) :
  Py.truthy_int v = true ↔ ∃ d, v = Some d ∧ d ≠ 0.
Proof.
  destruct v as [d|]; simpl.
  - rewrite negb_true_iff, Z.eqb_neq. split.
    + intros Hd. exists d. auto.
    + intros (d' & Heq & Hd). congruence.
  - split; [discriminate|]. intros (d & Heq & _). discriminate.
Qed.

End PyFacts.

(** ** Service-status scoring *)

Section AnalyticsFacts.
Import Analytics.

Lemma on_time_deduction_code (p : Q) :
  (if Py.Qltb p 80 then 100 - 20 else if Py.Qltb p 90 then 100 - 10 else 100)
  = 100 - StatusRule.on_time_deduction p.
Proof.
  unfold StatusRule.on_time_deduction.
  destruct (Qlt_le_dec p 80) as [H80|H80].
  - apply Qltb_lt in H80. rewrite H80. reflexivity.
  - apply Qltb_ge in H80. rewrite H80.
    destruct (Qlt_le_dec p 90) as [H90|H90].
    + apply Qltb_lt in H90. rewrite H90. reflexivity.
    + apply Qltb_ge in H90. rewrite H90. reflexivity.
Qed.

Lemma high_severity_count (anomalies : list AnomalyDetection) :
  Z.of_nat (length (filter (λ a, severity a = "high") anomalies)) * 15
  = StatusRule.anomaly_deduction (map severity anomalies).
Proof.
  induction anomalies as [|a rest IH]; [reflexivity|].
  rewrite filter_cons. cbn [map StatusRule.anomaly_deduction].
  destruct (decide (severity a = "high")) as [Hhigh|Hother].
  - rewrite Hhigh. cbn [length]. rewrite Nat2Z.inj_succ.
    change (String.eqb "high" "high") with true. lia.
  - apply String.eqb_neq in Hother. rewrite Hother. lia.
Qed.

Lemma status_of_score_code (score : Z) :
  (if 80 <=? score then "excellent"
   else if 60 <=? score then "good"
   else if 40 <=? score then "fair"
   else "poor")
  = StatusRule.label (StatusRule.status_of_score score).
Proof.
  unfold StatusRule.status_of_score.
  destruct (Z_ge_dec score 80); [rewrite (proj2 (Z.leb_le 80 score)) by lia; reflexivity|].
  rewrite (proj2 (Z.leb_gt 80 score)) by lia.
  destruct (Z_ge_dec score 60); [rewrite (proj2 (Z.leb_le 60 score)) by lia; reflexivity|].
  rewrite (proj2 (Z.leb_gt 60 score)) by lia.
  destruct (Z_ge_dec score 40); [rewrite (proj2 (Z.leb_le 40 score)) by lia; reflexivity|].
  rewrite (proj2 (Z.leb_gt 40 score)) by lia. reflexivity.
Qed.

(** C7.  For every on-time percentage, list of anomalies and service-health
    dict, [_calculate_overall_status] returns the label of the status that
    the scoring rule of the specification gives: start at 100, subtract 20
    below 80 percent on time, else 10 below 90 percent, subtract 15 per
    anomaly of severity "high", subtract 10 when the total of alerts
    exceeds 5, and map 80 and more to excellent, 60 and more to good, 40
    and more to fair, the rest to poor. *)
Theorem overall_status_follows_scoring_rule
    (performance : PerformanceMetrics) (anomalies : list AnomalyDetection)
    (service_health : gmap string Z) :
  _calculate_overall_status performance anomalies service_health
  = StatusRule.label
      (StatusRule.overall_status (on_time_percentage performance)
         (map severity anomalies)
         (default 0 (service_health !! "total_alerts"))).
Proof.
  unfold _calculate_overall_status, StatusRule.overall_status, StatusRule.score.
  cbv zeta.
  set (alerts := default 0 (service_health !! "total_alerts")).
  rewrite status_of_score_code. do 2 f_equal.
  rewrite <- high_severity_count.
  unfold StatusRule.alert_deduction.
  pose proof (on_time_deduction_code (on_time_percentage performance)) as Hd.
  destruct (Py.Qltb (on_time_percentage performance) 80);
    [|destruct (Py.Qltb (on_time_percentage performance) 90)];
    destruct (Z_gt_dec alerts 5);
    try (rewrite (proj2 (Z.ltb_lt 5 alerts)) by lia);
    try (rewrite (proj2 (Z.ltb_ge 5 alerts)) by lia); lia.
Qed.

(** 100 - 20 - 2 * 15 - 10 = 40, which is "fair"; without the alerts entry the
    score is 50, still "fair"; with a third anomaly of severity "high" it is
    25, which is "poor". *)
Example overall_status_strained :
  _calculate_overall_status Examples.strained_performance
    [Examples.anomaly "high"; Examples.anomaly "medium"; Examples.anomaly "high"]
    {[ "total_alerts" := 6 ]} = "fair"
  ∧ _calculate_overall_status Examples.strained_performance
      [Examples.anomaly "high"; Examples.anomaly "medium"; Examples.anomaly "high"]
      ∅ = "fair"
  ∧ _calculate_overall_status Examples.strained_performance
      [Examples.anomaly "high"; Examples.anomaly "high"; Examples.anomaly "high"]
      {[ "total_alerts" := 6 ]} = "poor".
Proof. repeat split; vm_compute; reflexivity. Qed.

End AnalyticsFacts.

(** ** Aggregator: performance metrics *)

Section PerformanceFacts.
Import Transit Aggregator.

(** The metrics depend on the prediction buffer through its delays only. *)
Lemma performance_metrics_of_delays (self : DataAggregator) :
  _get_performance_metrics self
  = match omap delay (predictions self) with
    | [] => {| avg_delay := 0; max_delay := 0; min_delay := 0; delay_count := None |}
    | ds => {| avg_delay := Py.truediv (Py.sum ds) (length ds);
               max_delay := Py.max ds;
               min_delay := Py.min ds;
               delay_count := Some (length ds) |}
    end.
Proof. unfold _get_performance_metrics. destruct (omap delay (predictions self)); reflexivity. Qed.

Lemma omap_all_present {A B} (f : A → option B) (l : list A) (vs : list B) :
  map f l = map Some vs → omap f l = vs.
Proof.
  revert vs. induction l as [|x l IH]; intros [|v vs] Hmap; try discriminate.
  - reflexivity.
  - cbn in Hmap. injection Hmap as Hx Hrest.
    cbn. rewrite Hx. cbn. f_equal. apply IH, Hrest.
Qed.

(** C6 as the specification states it fails on the aggregator of the test
    it comes from: the five delays are there, the average is not 532. *)
Lemma performance_metrics_average_is_not_532 :
  map delay (predictions Examples.five_delays)
    = [Some 0; Some 60; Some 300; Some 900; Some 1800]
  ∧ ¬ (avg_delay (_get_performance_metrics Examples.five_delays) == 532)%Q.
Proof.
  split; [vm_compute; reflexivity|].
  vm_compute. discriminate.
Qed.

(** C6, amended.  When the prediction buffer holds exactly five predictions
    whose delays are 0, 60, 300, 900 and 1800, the performance metrics
    are avg_delay = 612, max_delay = 1800, min_delay = 0 and
    delay_count = 5. *)
Theorem performance_metrics_five_delays (self : DataAggregator) :
  map delay (predictions self) = [Some 0; Some 60; Some 300; Some 900; Some 1800] →
  let m := _get_performance_metrics self in
  (avg_delay m == 612)%Q ∧ max_delay m = 1800 ∧ min_delay m = 0
  ∧ delay_count m = Some 5%nat.
Proof.
  intros Hdelays.
  rewrite performance_metrics_of_delays.
  rewrite (omap_all_present delay _ [0; 60; 300; 900; 1800] Hdelays).
  cbn. repeat split; reflexivity.
Qed.

Lemma performance_metrics_five_delays_witness :
  map delay (predictions Examples.five_delays)
    = [Some 0; Some 60; Some 300; Some 900; Some 1800]
  ∧ (avg_delay (_get_performance_metrics Examples.five_delays) == 612)%Q.
Proof.
  assert (H : map delay (predictions Examples.five_delays)
              = [Some 0; Some 60; Some 300; Some 900; Some 1800])
    by (vm_compute; reflexivity).
  split; [exact H|].
  exact (proj1 (performance_metrics_five_delays Examples.five_delays H)).
Defined.

End PerformanceFacts.

(** ** Aggregator: per-route and per-stop summaries *)

Section SummaryFacts.
Import Transit Aggregator Examples.

Lemma counted_delays_cons (p : Prediction) (ps : list Prediction) :
  counted_delays (p :: ps)
  = match delay p with
    | Some d => if Py.truthy_int (Some d) then d :: counted_delays ps
                else counted_delays ps
    | None => counted_delays ps
    end.
Proof.
  unfold counted_delays. cbn [omap list_omap].
  destruct (delay p) as [d|]; cbn [Py.truthy_int]; [|reflexivity].
  rewrite filter_cons.
  destruct (decide (d ≠ 0)) as [Hd|Hd].
  - apply Z.eqb_neq in Hd. rewrite Hd. reflexivity.
  - assert (d = 0) as -> by lia. reflexivity.
Qed.

Lemma lookup_update {A} (dflt : A) (k k' : string) (f : A → A) (m : gmap string A) :
  default dflt (update dflt k f m !! k')
  = if decide (k = k') then f (default dflt (m !! k)) else default dflt (m !! k').
Proof.
  unfold update. destruct (decide (k = k')) as [->|Hne].
  - rewrite lookup_insert_eq. reflexivity.
  - rewrite lookup_insert_ne by exact Hne. reflexivity.
Qed.

(** *** Routes *)

Lemma route_step_prediction_entry (m : gmap string RouteAcc) (p : Prediction) (r : string) :
  route_entry (route_step_prediction m p) r
  = if decide (p_route_id p = r) then
      let counted := route_count_prediction (route_entry m r) in
      match delay p with
      | Some d => if Py.truthy_int (Some d) then route_append_delay d counted else counted
      | None => counted
      end
    else route_entry m r.
Proof.
  unfold route_step_prediction, route_entry. cbv zeta.
  destruct (delay p) as [d|]; [destruct (Py.truthy_int (Some d))|];
    repeat rewrite lookup_update;
    destruct (decide (p_route_id p = r)) as [<-|Hr];
    rewrite ?decide_True by reflexivity; reflexivity.
Qed.

Lemma route_step_prediction_delays (m : gmap string RouteAcc) (p : Prediction) (r : string) :
  ra_delays (route_entry (route_step_prediction m p) r)
  = ra_delays (route_entry m r)
    ++ counted_delays (filter (λ q, p_route_id q = r) [p]).
Proof.
  rewrite route_step_prediction_entry, filter_cons, filter_nil.
  destruct (decide (p_route_id p = r)) as [Hr|Hr].
  - rewrite counted_delays_cons. cbv zeta.
    destruct (delay p) as [d|]; [destruct (Py.truthy_int (Some d))|];
      cbn; rewrite ?app_nil_r; reflexivity.
  - cbn. rewrite app_nil_r. reflexivity.
Qed.

Lemma route_predictions_delays (ps : list Prediction) (m : gmap string RouteAcc) (r : string) :
  ra_delays (route_entry (foldl route_step_prediction m ps) r)
  = ra_delays (route_entry m r)
    ++ counted_delays (filter (λ q, p_route_id q = r) ps).
Proof.
  revert m. induction ps as [|p ps IH]; intros m.
  - cbn. rewrite app_nil_r. reflexivity.
  - cbn [foldl]. rewrite IH, route_step_prediction_delays.
    rewrite <- app_assoc. f_equal.
    rewrite !filter_cons, filter_nil.
    destruct (decide (p_route_id p = r)); [|reflexivity].
    rewrite !counted_delays_cons.
    destruct (delay p) as [d|]; [destruct (Py.truthy_int (Some d))|]; reflexivity.
Qed.

Lemma route_step_position_delays (m : gmap string RouteAcc) (v : VehiclePosition) (r : string) :
  ra_delays (route_entry (route_step_position m v) r) = ra_delays (route_entry m r).
Proof.
  unfold route_step_position, route_entry.
  destruct (v_route_id v) as [k|]; [|reflexivity].
  destruct (Py.truthy_str (Some k)); [|reflexivity].
  rewrite lookup_update. destruct (decide (k = r)) as [->|]; reflexivity.
Qed.

Lemma route_step_alert_delays (m : gmap string RouteAcc) (a : Alert) (r : string) :
  ra_delays (route_entry (route_step_alert m a) r) = ra_delays (route_entry m r).
Proof.
  unfold route_step_alert. generalize (affected_routes a) as ks.
  intros ks. revert m. induction ks as [|k ks IH]; intros m; [reflexivity|].
  cbn [foldl]. rewrite IH. unfold route_entry.
  rewrite lookup_update. destruct (decide (k = r)) as [->|]; reflexivity.
Qed.

Lemma route_accumulate_delays (self : DataAggregator) (r : string) :
  ra_delays (route_entry (route_accumulate self) r)
  = counted_delays (filter (λ q, p_route_id q = r) (predictions self)).
Proof.
  unfold route_accumulate. cbv zeta.
  assert (Halerts : ∀ (l : list Alert) m,
            ra_delays (route_entry (foldl route_step_alert m l) r)
            = ra_delays (route_entry m r)).
  { induction l as [|a l IH]; intros m; [reflexivity|].
    cbn [foldl]. rewrite IH. apply route_step_alert_delays. }
  assert (Hpositions : ∀ (l : list VehiclePosition) m,
            ra_delays (route_entry (foldl route_step_position m l) r)
            = ra_delays (route_entry m r)).
  { induction l as [|v l IH]; intros m; [reflexivity|].
    cbn [foldl]. rewrite IH. apply route_step_position_delays. }
  rewrite Halerts, Hpositions, route_predictions_delays.
  reflexivity.
Qed.

Lemma route_summary_entry (self : DataAggregator) (r : string) (st : RouteStats) :
  get_route_summary self !! r = Some st →
  st = route_finish (route_entry (route_accumulate self) r).
Proof.
  unfold get_route_summary, route_entry. rewrite lookup_fmap.
  destruct (route_accumulate self !! r) as [a|]; cbn; congruence.
Qed.

Lemma route_finish_delays (a : RouteAcc) : rs_delays (route_finish a) = ra_delays a.
Proof. unfold route_finish. destruct (ra_delays a); reflexivity. Qed.

Lemma route_finish_no_delays (a : RouteAcc) :
  ra_delays a = [] →
  (rs_avg_delay (route_finish a) == 0)%Q
  ∧ rs_max_delay (route_finish a) = 0 ∧ rs_min_delay (route_finish a) = 0.
Proof. intros Hnil. unfold route_finish. rewrite Hnil. cbn. repeat split; reflexivity. Qed.

(** Predictions that are all on time or without a delay count for nothing. *)
Lemma counted_delays_all_zero (ps : list Prediction) :
  (∀ p, p ∈ ps → delay p = Some 0 ∨ delay p = None) → counted_delays ps = [].
Proof.
  induction ps as [|p ps IH]; intros Hall; [reflexivity|].
  rewrite counted_delays_cons.
  destruct (Hall p) as [-> | ->]; [left| |]; cbn; apply IH;
    intros q Hq; apply Hall; right; exact Hq.
Qed.

(** *** Stops *)

Lemma stop_step_prediction_entry (m : gmap string StopAcc) (p : Prediction) (k : string) :
  stop_entry (stop_step_prediction m p) k
  = if decide (p_stop_id p = k) then
      let counted := stop_count_prediction (stop_entry m k) in
      match delay p with
      | Some d => if Py.truthy_int (Some d) then stop_append_delay d counted else counted
      | None => counted
      end
    else stop_entry m k.
Proof.
  unfold stop_step_prediction, stop_entry. cbv zeta.
  destruct (delay p) as [d|]; [destruct (Py.truthy_int (Some d))|];
    repeat rewrite lookup_update;
    destruct (decide (p_stop_id p = k)) as [<-|Hk];
    rewrite ?decide_True by reflexivity; reflexivity.
Qed.

Lemma stop_predictions_delays (ps : list Prediction) (m : gmap string StopAcc) (k : string) :
  sa_delays (stop_entry (foldl stop_step_prediction m ps) k)
  = sa_delays (stop_entry m k)
    ++ counted_delays (filter (λ q, p_stop_id q = k) ps).
Proof.
  revert m. induction ps as [|p ps IH]; intros m.
  - cbn. rewrite app_nil_r. reflexivity.
  - cbn [foldl]. rewrite IH, stop_step_prediction_entry, filter_cons.
    destruct (decide (p_stop_id p = k)); [|reflexivity].
    rewrite counted_delays_cons. cbv zeta.
    destruct (delay p) as [d|]; [destruct (Py.truthy_int (Some d))|];
      cbn; rewrite <- ?app_assoc; reflexivity.
Qed.

Lemma stop_step_alert_delays (m : gmap string StopAcc) (a : Alert) (k : string) :
  sa_delays (stop_entry (stop_step_alert m a) k) = sa_delays (stop_entry m k).
Proof.
  unfold stop_step_alert. generalize (affected_stops a) as ks.
  intros ks. revert m. induction ks as [|k' ks IH]; intros m; [reflexivity|].
  cbn [foldl]. rewrite IH. unfold stop_entry.
  rewrite lookup_update. destruct (decide (k' = k)) as [->|]; reflexivity.
Qed.

Lemma stop_accumulate_delays (self : DataAggregator) (k : string) :
  sa_delays (stop_entry (stop_accumulate self) k)
  = counted_delays (filter (λ q, p_stop_id q = k) (predictions self)).
Proof.
  unfold stop_accumulate. cbv zeta.
  assert (Halerts : ∀ (l : list Alert) m,
            sa_delays (stop_entry (foldl stop_step_alert m l) k)
            = sa_delays (stop_entry m k)).
  { induction l as [|a l IH]; intros m; [reflexivity|].
    cbn [foldl]. rewrite IH. apply stop_step_alert_delays. }
  rewrite Halerts, stop_predictions_delays. reflexivity.
Qed.

Lemma stop_summary_entry (self : DataAggregator) (k : string) (st : StopStats) :
  get_stop_summary self !! k = Some st →
  st = stop_finish (stop_entry (stop_accumulate self) k).
Proof.
  unfold get_stop_summary, stop_entry. rewrite lookup_fmap.
  destruct (stop_accumulate self !! k) as [a|]; cbn; congruence.
Qed.

Lemma stop_finish_delays (a : StopAcc) : ss_delays (stop_finish a) = sa_delays a.
Proof. unfold stop_finish. destruct (sa_delays a); reflexivity. Qed.

Lemma stop_finish_no_delays (a : StopAcc) :
  sa_delays a = [] →
  (ss_avg_delay (stop_finish a) == 0)%Q
  ∧ ss_max_delay (stop_finish a) = 0 ∧ ss_min_delay (stop_finish a) = 0.
Proof. intros Hnil. unfold stop_finish. rewrite Hnil. cbn. repeat split; reflexivity. Qed.

(** *** Erasing the zero delays changes neither summary *)

Lemma forget_keeps_route (p : Prediction) : p_route_id (forget_zero_delay p) = p_route_id p.
Proof. unfold forget_zero_delay. destruct (Py.truthy_int (delay p)); reflexivity. Qed.

Lemma route_step_forget (m : gmap string RouteAcc) (p : Prediction) :
  route_step_prediction m (forget_zero_delay p) = route_step_prediction m p.
Proof.
  unfold forget_zero_delay.
  destruct (Py.truthy_int (delay p)) eqn:Htruthy; [reflexivity|].
  unfold route_step_prediction. cbn.
  destruct (delay p) as [d|]; [|reflexivity].
  cbn in Htruthy. cbn. rewrite Htruthy. reflexivity.
Qed.

Lemma stop_step_forget (m : gmap string StopAcc) (p : Prediction) :
  stop_step_prediction m (forget_zero_delay p) = stop_step_prediction m p.
Proof.
  unfold forget_zero_delay.
  destruct (Py.truthy_int (delay p)) eqn:Htruthy; [reflexivity|].
  unfold stop_step_prediction. cbn.
  destruct (delay p) as [d|]; [|reflexivity].
  cbn in Htruthy. cbn. rewrite Htruthy. reflexivity.
Qed.

Lemma foldl_map_same {A B} (f : A → B → A) (g : B → B) (l : list B) (a : A) :
  (∀ a b, f a (g b) = f a b) → foldl f a (map g l) = foldl f a l.
Proof.
  intros Hfg. revert a. induction l as [|b l IH]; intros a; [reflexivity|].
  cbn. rewrite Hfg. apply IH.
Qed.

Lemma omap_prediction_forget (l : list Data) :
  omap as_prediction (map forget_in_buffer l) = map forget_zero_delay (omap as_prediction l).
Proof.
  induction l as [|d l IH]; [reflexivity|].
  cbn [map]. destruct d; cbn; rewrite ?IH; try reflexivity; exact IH.
Qed.

Lemma predictions_forget (self : DataAggregator) :
  predictions (forget_zero_delays self) = map forget_zero_delay (predictions self).
Proof.
  unfold predictions, get, forget_zero_delays. cbn [aggregations].
  rewrite lookup_alter_eq.
  destruct (aggregations self !! "Prediction") as [l|]; cbn; [|reflexivity].
  apply omap_prediction_forget.
Qed.

Lemma other_buffers_forget (self : DataAggregator) (key : string) :
  key ≠ "Prediction" → get (forget_zero_delays self) key = get self key.
Proof.
  intros Hkey. unfold get, forget_zero_delays. cbn [aggregations].
  rewrite lookup_alter_ne by congruence. reflexivity.
Qed.

Lemma route_summary_forget (self : DataAggregator) :
  get_route_summary (forget_zero_delays self) = get_route_summary self.
Proof.
  unfold get_route_summary, route_accumulate, vehicle_positions, alerts. cbv zeta.
  rewrite predictions_forget, !other_buffers_forget by discriminate.
  rewrite (foldl_map_same route_step_prediction forget_zero_delay)
    by apply route_step_forget.
  reflexivity.
Qed.

Lemma stop_summary_forget (self : DataAggregator) :
  get_stop_summary (forget_zero_delays self) = get_stop_summary self.
Proof.
  unfold get_stop_summary, stop_accumulate, alerts. cbv zeta.
  rewrite predictions_forget, !other_buffers_forget by discriminate.
  rewrite (foldl_map_same stop_step_prediction forget_zero_delay)
    by apply stop_step_forget.
  reflexivity.
Qed.

(** *** Which keys have an entry *)

Lemma lookup_update_key {A} (dflt : A) (k k' : string) (f : A → A) (m : gmap string A) :
  update dflt k f m !! k'
  = if decide (k = k') then Some (f (default dflt (m !! k))) else m !! k'.
Proof.
  unfold update. destruct (decide (k = k')) as [->|Hne].
  - apply lookup_insert_eq.
  - apply lookup_insert_ne, Hne.
Qed.

Lemma route_prediction_present (m : gmap string RouteAcc) (p : Prediction) (r : string) :
  is_Some (route_step_prediction m p !! r) ↔ is_Some (m !! r) ∨ p_route_id p = r.
Proof.
  unfold route_step_prediction. cbv zeta.
  destruct (delay p) as [d|]; [destruct (Py.truthy_int (Some d))|];
    repeat rewrite lookup_update_key;
    destruct (decide (p_route_id p = r)) as [Hr|Hr];
    rewrite ?decide_True by assumption;
    split; intros; eauto; try tauto;
    match goal with H : _ ∨ _ |- _ => destruct H; [assumption | contradiction] end.
Qed.

Lemma route_position_present (m : gmap string RouteAcc) (v : VehiclePosition) (r : string) :
  is_Some (route_step_position m v !! r)
  ↔ is_Some (m !! r) ∨ (v_route_id v = Some r ∧ r ≠ "").
Proof.
  unfold route_step_position.
  destruct (v_route_id v) as [k|]; [|split; [tauto | intros [?|[? _]]; [assumption | discriminate]]].
  cbn [Py.truthy_str]. destruct (String.eqb k "") eqn:Hk; cbn [negb].
  - apply String.eqb_eq in Hk as ->.
    split; [tauto | intros [?|[[= <-] Hne]]; [assumption | congruence]].
  - apply String.eqb_neq in Hk. rewrite lookup_update_key.
    destruct (decide (k = r)) as [->|Hr].
    + split; [intros _; right; split; [reflexivity | exact Hk] | eauto].
    + split; [tauto | intros [?|[[= ->] _]]; [assumption | contradiction]].
Qed.

Lemma route_alert_present (m : gmap string RouteAcc) (a : Alert) (r : string) :
  is_Some (route_step_alert m a !! r) ↔ is_Some (m !! r) ∨ r ∈ affected_routes a.
Proof.
  unfold route_step_alert. generalize (affected_routes a) as ks. intros ks.
  revert m. induction ks as [|k ks IH]; intros m; cbn [foldl].
  - split; [tauto | intros [?|Hin]; [assumption | apply elem_of_nil in Hin; destruct Hin]].
  - rewrite IH, lookup_update_key, elem_of_cons.
    destruct (decide (k = r)) as [->|Hr].
    + split; [intros _; right; left; reflexivity | eauto].
    + split; [tauto | intros [?|[->|?]]; [tauto | contradiction | tauto]].
Qed.

Lemma foldl_present {A B} (step : gmap string A → B → gmap string A) (P : B → Prop)
    (r : string) :
  (∀ m x, is_Some (step m x !! r) ↔ is_Some (m !! r) ∨ P x) →
  ∀ l m, is_Some (foldl step m l !! r) ↔ is_Some (m !! r) ∨ ∃ x, x ∈ l ∧ P x.
Proof.
  intros Hstep. induction l as [|x l IH]; intros m; cbn [foldl].
  - split; [tauto | intros [?|(x & Hx & _)]; [assumption | apply elem_of_nil in Hx; destruct Hx]].
  - rewrite IH, Hstep. split.
    + intros [[?|?]|(y & Hy & HP)]; [tauto | right; exists x; split; [left | assumption]|].
      right. exists y. split; [right; exact Hy | exact HP].
    + intros [?|(y & Hy & HP)]; [tauto|].
      apply elem_of_cons in Hy as [->|Hy]; [tauto | right; eauto].
Qed.

Lemma stop_prediction_present (m : gmap string StopAcc) (p : Prediction) (k : string) :
  is_Some (stop_step_prediction m p !! k) ↔ is_Some (m !! k) ∨ p_stop_id p = k.
Proof.
  unfold stop_step_prediction. cbv zeta.
  destruct (delay p) as [d|]; [destruct (Py.truthy_int (Some d))|];
    repeat rewrite lookup_update_key;
    destruct (decide (p_stop_id p = k)) as [Hk|Hk];
    rewrite ?decide_True by assumption;
    split; intros; eauto; try tauto;
    match goal with H : _ ∨ _ |- _ => destruct H; [assumption | contradiction] end.
Qed.

Lemma stop_alert_present (m : gmap string StopAcc) (a : Alert) (k : string) :
  is_Some (stop_step_alert m a !! k) ↔ is_Some (m !! k) ∨ k ∈ affected_stops a.
Proof.
  unfold stop_step_alert. generalize (affected_stops a) as ks. intros ks.
  revert m. induction ks as [|k' ks IH]; intros m; cbn [foldl].
  - split; [tauto | intros [?|Hin]; [assumption | apply elem_of_nil in Hin; destruct Hin]].
  - rewrite IH, lookup_update_key, elem_of_cons.
    destruct (decide (k' = k)) as [->|Hk].
    + split; [intros _; right; left; reflexivity | eauto].
    + split; [tauto | intros [?|[->|?]]; [tauto | contradiction | tauto]].
Qed.

Lemma route_summary_has_entry (self : DataAggregator) (p : Prediction) :
  p ∈ predictions self → is_Some (get_route_summary self !! p_route_id p).
Proof.
  intros Hp. unfold get_route_summary, route_accumulate. cbv zeta.
  rewrite lookup_fmap, fmap_is_Some.
  rewrite (foldl_present route_step_alert (λ a, p_route_id p ∈ affected_routes a)
             (p_route_id p) (λ m a, route_alert_present m a (p_route_id p))).
  rewrite (foldl_present route_step_position
             (λ v, v_route_id v = Some (p_route_id p) ∧ p_route_id p ≠ "")
             (p_route_id p) (λ m v, route_position_present m v (p_route_id p))).
  rewrite (foldl_present route_step_prediction (λ q, p_route_id q = p_route_id p)
             (p_route_id p) (λ m q, route_prediction_present m q (p_route_id p))).
  left. left. right. exists p. split; [exact Hp | reflexivity].
Qed.

Lemma stop_summary_has_entry (self : DataAggregator) (p : Prediction) :
  p ∈ predictions self → is_Some (get_stop_summary self !! p_stop_id p).
Proof.
  intros Hp. unfold get_stop_summary, stop_accumulate. cbv zeta.
  rewrite lookup_fmap, fmap_is_Some.
  rewrite (foldl_present stop_step_alert (λ a, p_stop_id p ∈ affected_stops a)
             (p_stop_id p) (λ m a, stop_alert_present m a (p_stop_id p))).
  rewrite (foldl_present stop_step_prediction (λ q, p_stop_id q = p_stop_id p)
             (p_stop_id p) (λ m q, stop_prediction_present m q (p_stop_id p))).
  left. right. exists p. split; [exact Hp | reflexivity].
Qed.

(** C9.  Every prediction in the buffer has an entry for its route in the
    per-route summary and one for its stop in the per-stop summary.  The
    [delays] list of an entry holds exactly the delays of that route's
    (stop's) predictions that are neither null nor zero, and avg_delay,
    max_delay and min_delay are computed from that list; so an entry whose
    predictions all carry delay 0 reports 0 for the three, and erasing
    every zero delay from the prediction buffer leaves both summaries as
    they are. *)
Theorem summaries_count_only_nonzero_delays (self : DataAggregator) :
  (∀ p, p ∈ predictions self →
     is_Some (get_route_summary self !! p_route_id p)
     ∧ is_Some (get_stop_summary self !! p_stop_id p))
  ∧ (∀ r st, get_route_summary self !! r = Some st →
     let ps := filter (λ p, p_route_id p = r) (predictions self) in
     rs_delays st = counted_delays ps
     ∧ (rs_avg_delay st, rs_max_delay st, rs_min_delay st)
       = match rs_delays st with
         | [] => (0%Q, 0, 0)
         | ds => (Py.truediv (Py.sum ds) (length ds), Py.max ds, Py.min ds)
         end
     ∧ ((∀ p, p ∈ ps → delay p = Some 0) →
        (rs_avg_delay st == 0)%Q ∧ rs_max_delay st = 0 ∧ rs_min_delay st = 0))
  ∧ (∀ k st, get_stop_summary self !! k = Some st →
     let ps := filter (λ p, p_stop_id p = k) (predictions self) in
     ss_delays st = counted_delays ps
     ∧ (ss_avg_delay st, ss_max_delay st, ss_min_delay st)
       = match ss_delays st with
         | [] => (0%Q, 0, 0)
         | ds => (Py.truediv (Py.sum ds) (length ds), Py.max ds, Py.min ds)
         end
     ∧ ((∀ p, p ∈ ps → delay p = Some 0) →
        (ss_avg_delay st == 0)%Q ∧ ss_max_delay st = 0 ∧ ss_min_delay st = 0))
  ∧ get_route_summary (forget_zero_delays self) = get_route_summary self
  ∧ get_stop_summary (forget_zero_delays self) = get_stop_summary self.
Proof.
  split; [|split; [|split; [|split]]].
  - intros p Hp. split; [apply route_summary_has_entry | apply stop_summary_has_entry];
      exact Hp.
  - intros r st Hst ps. apply route_summary_entry in Hst. subst st.
    rewrite route_finish_delays, route_accumulate_delays. fold ps.
    split; [reflexivity|]. split.
    + unfold route_finish. rewrite route_accumulate_delays. fold ps.
      destruct (counted_delays ps); reflexivity.
    + intros Hzero. apply route_finish_no_delays.
      rewrite route_accumulate_delays. fold ps.
      apply counted_delays_all_zero. intros p Hp. left. apply Hzero, Hp.
  - intros k st Hst ps. apply stop_summary_entry in Hst. subst st.
    rewrite stop_finish_delays, stop_accumulate_delays. fold ps.
    split; [reflexivity|]. split.
    + unfold stop_finish. rewrite stop_accumulate_delays. fold ps.
      destruct (counted_delays ps); reflexivity.
    + intros Hzero. apply stop_finish_no_delays.
      rewrite stop_accumulate_delays. fold ps.
      apply counted_delays_all_zero. intros p Hp. left. apply Hzero, Hp.
  - apply route_summary_forget.
  - apply stop_summary_forget.
Qed.

Lemma summaries_count_only_nonzero_delays_witness :
  (∃ st, get_route_summary on_time_route !! "Red" = Some st
         ∧ rs_delays st = []
         ∧ (rs_avg_delay st == 0)%Q ∧ rs_max_delay st = 0 ∧ rs_min_delay st = 0)
  ∧ (∃ st, get_stop_summary on_time_route !! "stop_0" = Some st
           ∧ ss_delays st = []
           ∧ (ss_avg_delay st == 0)%Q ∧ ss_max_delay st = 0 ∧ ss_min_delay st = 0).
Proof.
  destruct (summaries_count_only_nonzero_delays on_time_route)
    as (Hentry & Hroute & Hstop & _).
  assert (Hin : test_prediction "0" (Some 0) ∈ predictions on_time_route)
    by (vm_compute; left).
  destruct (Hentry _ Hin) as [[rst Hrst] [sst Hsst]].
  change (p_route_id (test_prediction "0" (Some 0))) with "Red" in Hrst.
  change (p_stop_id (test_prediction "0" (Some 0))) with "stop_0" in Hsst.
  split.
  - exists rst. split; [exact Hrst|].
    destruct (Hroute "Red" rst Hrst) as (Hdelays & _ & Hzero).
    split; [rewrite Hdelays; vm_compute; reflexivity|].
    apply Hzero. intros p Hp.
    assert (Hps : filter (λ p, p_route_id p = "Red") (predictions on_time_route)
                  = [test_prediction "0" (Some 0); test_prediction "0" (Some 0)])
      by (vm_compute; reflexivity).
    rewrite Hps in Hp.
    apply elem_of_cons in Hp as [-> | Hp]; [reflexivity|].
    apply elem_of_cons in Hp as [-> | Hp]; [reflexivity|].
    apply elem_of_nil in Hp. destruct Hp.
  - exists sst. split; [exact Hsst|].
    destruct (Hstop "stop_0" sst Hsst) as (Hdelays & _ & Hzero).
    split; [rewrite Hdelays; vm_compute; reflexivity|].
    apply Hzero. intros p Hp.
    assert (Hps : filter (λ p, p_stop_id p = "stop_0") (predictions on_time_route)
                  = [test_prediction "0" (Some 0); test_prediction "0" (Some 0)])
      by (vm_compute; reflexivity).
    rewrite Hps in Hp.
    apply elem_of_cons in Hp as [-> | Hp]; [reflexivity|].
    apply elem_of_cons in Hp as [-> | Hp]; [reflexivity|].
    apply elem_of_nil in Hp. destruct Hp.
Defined.

End SummaryFacts.

(** ** Validator: coordinate bounds *)

Section ValidatorFacts.
Import Transit Validator Examples.

Lemma validate_coordinates_inside (lat lon : Q) (b : CoordinateBounds) :
  _validate_coordinates lat lon b = true ↔ inside b lat lon.
Proof.
  unfold _validate_coordinates, inside.
  rewrite !andb_true_iff, !Qleb_le. reflexivity.
Qed.

Lemma validate_coordinates_outside (lat lon : Q) (b : CoordinateBounds) :
  ¬ inside b lat lon → _validate_coordinates lat lon b = false.
Proof.
  intros Hout. destruct (_validate_coordinates lat lon b) eqn:E; [|reflexivity].
  apply validate_coordinates_inside in E. contradiction.
Qed.

Variable _validate_future_time : Z → Z → string + bool.
Variable _validate_timestamp_age : Z → Z → string + bool.

Lemma position_outside_rejected (rules : Rules) (position : VehiclePosition) :
  ¬ inside (position_coordinate_bounds rules) (latitude position) (longitude position) →
  _validate_vehicle_position _validate_timestamp_age rules position = inr None.
Proof.
  intros Hout. unfold _validate_vehicle_position.
  destruct (negb (_check_required_fields _ _)); [reflexivity|].
  rewrite validate_coordinates_outside by exact Hout. reflexivity.
Qed.

Lemma stop_outside_rejected (rules : Rules) (stop : Stop) (lat lon : Q) :
  stop_lat stop = Some lat → stop_lon stop = Some lon →
  ¬ inside (stop_coordinate_bounds rules) lat lon →
  _validate_stop rules stop = inr None.
Proof.
  intros Hlat Hlon Hout. unfold _validate_stop.
  destruct (negb (_check_required_fields _ _)); [reflexivity|].
  rewrite Hlat, Hlon, validate_coordinates_outside by exact Hout. reflexivity.
Qed.

(** What [process_batch] returns is what [process] lets through. *)
Lemma process_batch_results (rules : Rules) (data_list : list Data) (c : Counters) :
  fst (process_batch _validate_future_time _validate_timestamp_age rules data_list c)
  = omap (process _validate_future_time _validate_timestamp_age rules) data_list.
Proof.
  revert c. induction data_list as [|item rest IH]; intros c; [reflexivity|].
  cbn [process_batch omap list_omap].
  specialize (IH {| processed_count := S (processed_count c);
                    error_count := error_count c |}).
  destruct (process_batch _ _ rules rest _) as [results c''].
  cbn [fst] in IH. subst results.
  destruct (process _ _ rules item); reflexivity.
Qed.

(** An accepted record is returned as it came. *)
Lemma process_returns_its_input (rules : Rules) (d r : Data) :
  process _validate_future_time _validate_timestamp_age rules d = Some r → r = d.
Proof.
  destruct d; cbn [process]; unfold caught;
    [unfold _validate_prediction, check_time
    |unfold _validate_vehicle_position
    |unfold _validate_trip_update
    |unfold _validate_alert
    |unfold _validate_route
    |unfold _validate_stop
    |unfold _validate_trip
    |];
    repeat case_match; congruence.
Qed.

Lemma rejected_is_dropped (rules : Rules) (d : Data) :
  process _validate_future_time _validate_timestamp_age rules d = None →
  ∀ data_list c,
    d ∉ fst (process_batch _validate_future_time _validate_timestamp_age rules data_list c).
Proof.
  intros Hrejected data_list c. rewrite process_batch_results.
  intros Hin. apply list_elem_of_omap in Hin as (x & _ & Hx).
  pose proof (process_returns_its_input rules x d Hx) as ->.
  congruence.
Qed.

Lemma configured_box_on_the_globe (lat lon : Q) :
  inside (position_coordinate_bounds _setup_validation_rules) lat lon →
  on_the_globe lat lon.
Proof.
  unfold inside, on_the_globe. cbn.
  intros [[Hlat1 Hlat2] [Hlon1 Hlon2]]. repeat split.
  - apply Qle_trans with 42%Q; [unfold Qle; cbn; lia | exact Hlat1].
  - apply Qle_trans with 43%Q; [exact Hlat2 | unfold Qle; cbn; lia].
  - apply Qle_trans with (-715 # 10)%Q; [unfold Qle; cbn; lia | exact Hlon1].
  - apply Qle_trans with (-705 # 10)%Q; [exact Hlon2 | unfold Qle; cbn; lia].
Qed.

(** C5, amended.  Coordinate validation accepts exactly the coordinates
    with latitude in [42.0, 43.0] and longitude in [-71.5, -70.5], the
    bounds the rules configure for vehicle positions and for stops.  A
    vehicle position outside that box, and a stop that carries both
    coordinates outside it, is rejected by [process] and never among the
    results of [process_batch]; this covers every vehicle position with a
    latitude outside [-90, 90] or a longitude outside [-180, 180]. *)
Theorem coordinate_validation_accepts_the_configured_box :
  let rules := _setup_validation_rules in
  let validate := process _validate_future_time _validate_timestamp_age rules in
  let batch := process_batch _validate_future_time _validate_timestamp_age rules in
  let box (lat lon : Q) :=
    ((42 <= lat)%Q ∧ (lat <= 43)%Q) ∧ ((-715 # 10 <= lon)%Q ∧ (lon <= -705 # 10)%Q) in
  (∀ lat lon,
     _validate_coordinates lat lon (position_coordinate_bounds rules) = true ↔ box lat lon)
  ∧ (∀ lat lon,
     _validate_coordinates lat lon (stop_coordinate_bounds rules) = true ↔ box lat lon)
  ∧ (∀ position,
     ¬ box (latitude position) (longitude position) →
     validate (DVehiclePosition position) = None
     ∧ ∀ data_list c, DVehiclePosition position ∉ fst (batch data_list c))
  ∧ (∀ stop lat lon,
     stop_lat stop = Some lat → stop_lon stop = Some lon → ¬ box lat lon →
     validate (DStop stop) = None
     ∧ ∀ data_list c, DStop stop ∉ fst (batch data_list c))
  ∧ (∀ position,
     ¬ on_the_globe (latitude position) (longitude position) →
     validate (DVehiclePosition position) = None).
Proof.
  intros rules validate batch box.
  assert (Hposition : ∀ position,
            ¬ box (latitude position) (longitude position) →
            validate (DVehiclePosition position) = None).
  { intros position Hout. unfold validate. cbn [process].
    rewrite position_outside_rejected by exact Hout. reflexivity. }
  split; [|split; [|split; [|split]]].
  - intros lat lon. apply validate_coordinates_inside.
  - intros lat lon. apply validate_coordinates_inside.
  - intros position Hout. split; [apply Hposition, Hout|].
    apply rejected_is_dropped, Hposition, Hout.
  - intros stop lat lon Hlat Hlon Hout.
    assert (Hstop : validate (DStop stop) = None).
    { unfold validate. cbn [process].
      rewrite (stop_outside_rejected rules stop lat lon Hlat Hlon Hout). reflexivity. }
    split; [exact Hstop|]. apply rejected_is_dropped, Hstop.
  - intros position Hout. apply Hposition. intros Hbox.
    apply Hout, configured_box_on_the_globe, Hbox.
Qed.

End ValidatorFacts.

(** C5 as the specification states it fails for a vehicle at latitude 0,
    longitude 0: the coordinates lie in [-90, 90] and [-180, 180], and the
    coordinate check and the validator reject the record. *)
Lemma coordinates_on_the_globe_rejected :
  Examples.on_the_globe 0 0
  ∧ Validator._validate_coordinates 0 0
      (Validator.position_coordinate_bounds Validator._setup_validation_rules) = false
  ∧ Examples.validate_at 0 (Transit.DVehiclePosition Examples.equator_position) = None.
Proof.
  split; [|split].
  - unfold Examples.on_the_globe, Qle; cbn. lia.
  - vm_compute. reflexivity.
  - vm_compute. reflexivity.
Qed.

Lemma coordinate_validation_accepts_the_configured_box_witness :
  Examples.validate_at 0 (Transit.DVehiclePosition Examples.equator_position) = None
  ∧ Examples.validate_at 0 (Transit.DVehiclePosition Examples.boston_position)
    = Some (Transit.DVehiclePosition Examples.boston_position).
Proof.
  split; [|vm_compute; reflexivity].
  destruct (coordinate_validation_accepts_the_configured_box
              Validator.future_time_check (Validator.timestamp_age_check true 0))
    as (_ & _ & Hposition & _).
  apply (Hposition Examples.equator_position).
  unfold Examples.equator_position, Examples.position_at, Qle; cbn. lia.
Defined.

(** ** GTFS-RT: the delay of a trip update *)

Section TripUpdateFacts.
Import GtfsRt TripDelayRule Examples.

Lemma appended_present (e : option StopTimeEvent) :
  appended (event_dict <$> e) = filter (λ d, d ≠ 0) (present e).
Proof.
  destruct e as [[[d|] t]|]; try reflexivity.
  change (appended (event_dict <$> Some {| e_delay := Some d; e_time := t |}))
    with (if negb (d =? 0) then [d] else []).
  change (present (Some {| e_delay := Some d; e_time := t |})) with [d].
  rewrite filter_cons, filter_nil.
  destruct (decide (d ≠ 0)) as [Hd|Hd].
  - apply Z.eqb_neq in Hd. rewrite Hd. reflexivity.
  - assert (d = 0) as -> by lia. reflexivity.
Qed.

(** What the parser averages: the present delays that are not zero. *)
Lemma collect_delays_nonzero (updates : list StopTimeUpdate) :
  collect_delays (map stop_update_dict updates)
  = filter (λ d, d ≠ 0) (present_delays updates).
Proof.
  unfold present_delays.
  induction updates as [|u rest IH]; [reflexivity|].
  cbn [map collect_delays flat_map stop_update_dict su_arrival su_departure].
  rewrite !filter_app, <- !app_assoc, IH, !appended_present. reflexivity.
Qed.

(** Where no present delay is zero the parser computes the mean the
    specification asks for. *)
Lemma overall_delay_without_zeros (updates : list StopTimeUpdate) :
  (∀ d, d ∈ present_delays updates → d ≠ 0) →
  overall_delay (collect_delays (map stop_update_dict updates)) = mean_delay updates.
Proof.
  intros Hnonzero. rewrite collect_delays_nonzero.
  assert (Hsame : filter (λ d, d ≠ 0) (present_delays updates) = present_delays updates).
  { induction (present_delays updates) as [|d ds IH]; [reflexivity|].
    rewrite filter_cons, decide_True by (apply Hnonzero; left).
    f_equal. apply IH. intros d' Hd'. apply Hnonzero. right. exact Hd'. }
  rewrite Hsame. unfold overall_delay, mean_delay.
  destruct (present_delays updates); reflexivity.
Qed.

(** C4.  The parser at two feeds with a present delay of zero.  A trip whose one
    stop has arrival delay 0 and departure delay 60 gets the delay 60,
    where the mean of the present delays is 30; a trip whose present
    delays are all 0 gets no delay at all, where the mean is 0. *)
Theorem trip_update_delay_ignores_zero_delays :
  (parsed_delays (trip_update_feed [stop_time_update 0 60]) = [Some (60 # 1)]
   ∧ mean_delay [stop_time_update 0 60] = Some (60 # 2))
  ∧ (parsed_delays (trip_update_feed [stop_time_update 0 0]) = [None]
     ∧ mean_delay [stop_time_update 0 0] = Some (0 # 2)).
Proof. repeat split; vm_compute; reflexivity. Qed.

End TripUpdateFacts.

(** ** REST ingestor: the rate limiter *)

Section RateLimiterFacts.
Import RestIngestor Examples.

(** With a positive quota the limiter never indexes an empty window. *)
Lemma check_rate_limit_returns (cfg : Config) (st : State) :
  0 < rate_limit_requests_per_minute cfg →
  ∃ st', _check_rate_limit cfg st = (st', inr tt).
Proof.
  intros Hquota. unfold _check_rate_limit. cbv zeta.
  destruct (filter (λ ts, clock st - minute < ts) (request_timestamps st)) as [|oldest rest].
  - cbn [length]. rewrite (proj2 (Z.leb_gt _ _)) by (cbn; lia). eauto.
  - destruct (_ <=? _); eauto.
Qed.

(** The limiter adds no wait of another kind to the trace. *)
Lemma check_rate_limit_waits (cfg : Config) (st st' : State) (reason : WaitReason) :
  reason ≠ RateLimitReached →
  _check_rate_limit cfg st = (st', inr tt) →
  waits reason (trace st') = waits reason (trace st).
Proof.
  intros Hreason. unfold _check_rate_limit. cbv zeta.
  destruct (filter (λ ts, clock st - minute < ts) (request_timestamps st)) as [|oldest rest];
    destruct (_ <=? _); intros Hrun; inversion Hrun; subst; clear Hrun;
    cbn [trace sleep]; unfold waits; rewrite ?omap_app; cbn;
    rewrite ?decide_False by congruence; rewrite ?app_nil_r; reflexivity.
Qed.

(** C3.  The limiter with a quota of one request per minute, called at
    clock 0 s, 1 s and, as soon as the second call returns, a third time.
    The calls return at 0 s, 60 s and 61 s: two requests are admitted
    within one second.  The window records 1 s and 60 s, the instants at
    which the second and third call began, not the instants at which they
    were admitted. *)
Theorem rate_limiter_admits_two_requests_within_a_minute :
  let st := fst (admit_all one_per_minute [0; 1 * second; 0] (initial 0)) in
  admissions (trace st) = [0; 60 * second; 61 * second]
  ∧ request_timestamps st = [1 * second; 60 * second]
  ∧ in_window (admissions (trace st)) (61 * second) = 2%nat
  ∧ within_quota 1 (admissions (trace st)) = false.
Proof. repeat split; vm_compute; reflexivity. Qed.

End RateLimiterFacts.

(** ** REST ingestor: retries of a request *)

Section RetryFacts.
Import RestIngestor RestRetry Examples.

Context {Payload : Type}.

Lemma check_rate_limit_admits (cfg : Config) (st st' : State) :
  _check_rate_limit cfg st = (st', inr tt) →
  length (admissions (trace st')) = S (length (admissions (trace st))).
Proof.
  unfold _check_rate_limit. cbv zeta.
  destruct (filter (λ ts, clock st - minute < ts) (request_timestamps st)) as [|oldest rest];
    destruct (_ <=? _); intros Hrun; inversion Hrun; subst; clear Hrun;
    cbn [trace sleep]; unfold admissions; rewrite ?omap_app, ?length_app; cbn; lia.
Qed.

Lemma sleep_admissions (reason : WaitReason) (duration : Z) (st : State) :
  admissions (trace (sleep reason duration st)) = admissions (trace st).
Proof.
  cbn [sleep trace]. unfold admissions. rewrite omap_app. cbn. apply app_nil_r.
Qed.

Lemma pow2_step (k : nat) :
  (2 ^ S (S k) - 1 = S ((2 ^ S k - 1) + (2 ^ S k - 1)))%nat.
Proof.
  assert (0 < 2 ^ S k)%nat by (apply Nat.neq_0_lt_0, Nat.pow_nonzero; lia).
  rewrite (Nat.pow_succ_r' 2 (S k)). lia.
Qed.

(** A frame that is [k] retries short of the limit, facing a server that
    answers nothing but one 5xx status: it sends [2 ^ (k + 1) - 1]
    requests before the error leaves it. *)
Lemma server_errors_frame (cfg : Config) (m : nat) (status : Z) (body : Payload) :
  0 < rate_limit_requests_per_minute cfg →
  max_retries cfg = Z.of_nat m →
  500 ≤ status →
  ∀ (k retries : nat) (callers : list nat) (rest : list (Attempt Payload)) (st : State),
    (retries + k = m)%nat →
    ∃ st',
      _make_request cfg (repeat (Responds status Absent body) (2 ^ S k - 1) ++ rest)
        callers retries st
      = handed_up cfg (ClientResponseError status) rest callers st'
      ∧ length (admissions (trace st'))
        = (length (admissions (trace st)) + (2 ^ S k - 1))%nat.
Proof.
  intros Hquota Hmax Hstatus. induction k as [|k IH]; intros retries callers rest st Hk;
    destruct (check_rate_limit_returns cfg st Hquota) as [st1 Hadmit].
  - exists st1. split; [|rewrite (check_rate_limit_admits _ _ _ Hadmit); cbn; lia].
    cbn [Nat.pow Nat.mul Nat.add Nat.sub repeat app _make_request]. rewrite Hadmit.
    rewrite (proj2 (Z.eqb_neq status 200)) by lia.
    rewrite (proj2 (Z.eqb_neq status 429)) by lia.
    rewrite (proj2 (Z.ltb_ge _ _)) by lia. rewrite andb_false_r.
    rewrite (proj2 (Z.leb_le 400 status)) by lia.
    cbn [except_ClientError]. rewrite (proj2 (Z.ltb_ge _ _)) by lia. reflexivity.
  - rewrite pow2_step. cbn [repeat app]. rewrite repeat_app, <- app_assoc.
    destruct (IH (S retries) (retries :: callers)
                (repeat (Responds status Absent body) (2 ^ S k - 1) ++ rest)
                (sleep ServerError (backoff cfg retries) st1) ltac:(lia))
      as (st2 & Hrun2 & Hcount2).
    destruct (IH (S retries) callers rest
                (sleep RequestFailed (backoff cfg retries) st2) ltac:(lia))
      as (st3 & Hrun3 & Hcount3).
    exists st3. split.
    + cbn [_make_request]. rewrite Hadmit.
      rewrite (proj2 (Z.eqb_neq status 200)) by lia.
      rewrite (proj2 (Z.eqb_neq status 429)) by lia.
      rewrite (proj2 (Z.leb_le 500 status)) by lia.
      rewrite (proj2 (Z.ltb_lt (Z.of_nat retries) (max_retries cfg))) by lia.
      cbn [andb]. rewrite Hrun2. unfold handed_up at 1. cbn [except_ClientError].
      rewrite (proj2 (Z.ltb_lt (Z.of_nat retries) (max_retries cfg))) by lia.
      exact Hrun3.
    + rewrite Hcount3, sleep_admissions, Hcount2, sleep_admissions,
        (check_rate_limit_admits _ _ _ Hadmit). lia.
Qed.





End RetryFacts.



(** ** Polling engine: when the subscriber is called *)

Section PollingFacts.
Import Ingestion Examples.

Context {World Raw Rec : Type} `{Source World Raw Rec}.

Lemma poll_cycle (callback : option Callback) (self : BaseIngestor) (w : World) :
  let c := snd (fst (poll callback self w)) in
  outcome c = snd (ingest self w)
  ∧ callback_argument c = handed_over callback (outcome c).
Proof.
  unfold poll, handed_over. destruct (ingest self w) as [[self' w'] result]. cbn [snd].
  destruct callback as [cb|]; [|split; reflexivity].
  destruct (is_successful result) eqn:Hok.
  - destruct (cb result w') as [w'' r]. cbn. rewrite Hok. split; reflexivity.
  - cbn. rewrite Hok. split; reflexivity.
Qed.

Lemma loop_log (cycles : nat) (callback : option Callback) :
  ∀ (self : BaseIngestor) (w : World) (c : Cycle),
  c ∈ snd (loop cycles callback self w) →
  callback_argument c = handed_over callback (outcome c).
Proof.
  induction cycles as [|cycles IH]; intros self w c Hc.
  - cbn in Hc. apply elem_of_nil in Hc. destruct Hc.
  - cbn [loop] in Hc.
    destruct (is_running self); [|cbn in Hc; apply elem_of_nil in Hc; destruct Hc].
    pose proof (poll_cycle callback self w) as [_ Hpolled].
    destruct (poll callback self w) as [[[self1 w1] c1] r]. cbn [fst snd] in Hpolled.
    destruct r as [e|[]].
    + cbn [snd] in Hc. apply list_elem_of_singleton in Hc as ->. exact Hpolled.
    + destruct (sleep (polling_interval self1) w1) as [w2 wake].
      destruct wake.
      * specialize (IH self1 w2 c).
        destruct (loop cycles callback self1 w2) as [[self3 w3] log]. cbn [snd] in *.
        apply elem_of_cons in Hc as [-> | Hc]; [exact Hpolled | exact (IH Hc)].
      * specialize (IH (stop self1) w2 c).
        destruct (loop cycles callback (stop self1) w2) as [[self3 w3] log]. cbn [snd] in *.
        apply elem_of_cons in Hc as [-> | Hc]; [exact Hpolled | exact (IH Hc)].
      * cbn [snd] in Hc. apply list_elem_of_singleton in Hc as ->. exact Hpolled.
Qed.

(** C8, amended.  In every cycle of the polling loop the registered callback
    is awaited, with that cycle's result, if and only if the result has
    success set and a positive record count; it is not awaited on a failed
    cycle, nor on a successful cycle that produced zero records. *)
Theorem callback_runs_on_successful_nonempty_cycles (cycles : nat) (callback : Callback)
    (self : BaseIngestor) (w : World) (c : Cycle) :
  c ∈ snd (run_continuous cycles (Some callback) self w) →
  (callback_argument c = Some (outcome c)
   ↔ success (outcome c) = true ∧ (0 < record_count (outcome c))%nat)
  ∧ (callback_argument c = None
     ↔ success (outcome c) = false ∨ record_count (outcome c) = 0%nat)
  ∧ (∀ result, callback_argument c = Some result → result = outcome c).
Proof.
  intros Hc. apply loop_log in Hc. rewrite Hc. unfold handed_over, is_successful.
  destruct (success (outcome c)), (record_count (outcome c)) as [|n]; cbn;
    repeat split; try discriminate; try lia; try tauto;
    try (intros [? ?]; discriminate || lia);
    try (intros [? | ?]; discriminate || lia);
    try (intros ? [= <-]; reflexivity); auto.
Qed.

End PollingFacts.

(** C8 as the specification states it fails on a cycle whose fetch returns
    nothing: the cycle's result has success set and no records, and the
    callback is not awaited. *)
Lemma successful_cycle_without_records_skips_callback :
  ∃ c, Examples.polled 1 [inr []] = [c]
       ∧ Ingestion.success (Ingestion.outcome c) = true
       ∧ Ingestion.record_count (Ingestion.outcome c) = 0%nat
       ∧ Ingestion.callback_argument c = None.
Proof. eexists. repeat split; vm_compute; reflexivity. Qed.

Lemma callback_runs_on_successful_nonempty_cycles_witness :
  ∃ c, Examples.polled 3 [inr ["a"; "b"]; inr []; inl "timeout"] !! 0%nat = Some c
       ∧ Ingestion.record_count (Ingestion.outcome c) = 2%nat
       ∧ Ingestion.callback_argument c = Some (Ingestion.outcome c).
Proof.
  destruct (Examples.polled 3 [inr ["a"; "b"]; inr []; inl "timeout"] !! 0%nat)
    as [c|] eqn:Hc; [|vm_compute in Hc; discriminate].
  exists c. split; [reflexivity|].
  assert (Hcount : Ingestion.record_count (Ingestion.outcome c) = 2%nat).
  { vm_compute in Hc. injection Hc as <-. reflexivity. }
  assert (Hsuccess : Ingestion.success (Ingestion.outcome c) = true).
  { vm_compute in Hc. injection Hc as <-. reflexivity. }
  split; [exact Hcount|].
  assert (Hlogged : c ∈ Examples.polled 3 [inr ["a"; "b"]; inr []; inl "timeout"]).
  { apply list_elem_of_lookup. exists 0%nat. exact Hc. }
  destruct (callback_runs_on_successful_nonempty_cycles
              3 Examples.subscriber Examples.idle_ingestor
              [inr ["a"; "b"]; inr []; inl "timeout"] c Hlogged) as [Hawaited _].
  apply Hawaited. split; [exact Hsuccess | rewrite Hcount; lia].
Defined.

(** ** Persistence gateway: the transaction *)

Section TransactionFacts.
Import Storage Examples.

(** The operations of the gateway follow the transaction. *)
Ltac follow :=
  repeat split; intros;
  repeat match goal with H : ∃ _, _ |- _ => destruct H end;
  cbn in *; congruence.

Lemma transactional_ret {A} (x : A) : transactional (ret x).
Proof. intros s s' r [= <- <-]. follow. Qed.

Lemma transactional_query {A} (table : Tables → list A) : transactional (query table).
Proof.
  intros s s' r. unfold query. destruct (rolled_back s) eqn:Hs; intros [= <- <-]; follow.
Qed.

Lemma transactional_add_flush (insert : Tables → Tables) : transactional (add_flush insert).
Proof.
  intros s s' r. unfold add_flush, next_fault, rolled_back.
  destruct (faults s) as [[|[] rest]|rest] eqn:Hs; intros [= <- <-]; cbn;
    rewrite ?Hs; follow.
Qed.

Lemma transactional_uuid4 : transactional uuid4.
Proof. intros s s' r [= <- <-]. unfold rolled_back. cbn. follow. Qed.

Lemma transactional_bind {A B} (m : M A) (k : A → M B) :
  transactional m → (∀ x, transactional (k x)) → transactional (bind m k).
Proof.
  intros Hm Hk s s' r. unfold bind.
  destruct (m s) as [s0 [e|x]] eqn:Hrun; destruct (Hm _ _ _ Hrun) as (Hkeep & Hraise & Hopen).
  - intros [= <- <-]. split; [exact Hkeep|]. split; [intros _; eauto|].
    intros _ [x Hx]. discriminate.
  - intros Hrest. destruct (Hk x _ _ _ Hrest) as (Hkeep' & Hraise' & Hopen').
    split; [auto|]. split; [exact Hraise'|]. intros Hs Hr. apply Hopen'; [|exact Hr].
    apply Hopen; eauto.
Qed.

End TransactionFacts.

Ltac transactional :=
  repeat (cbn beta; first
    [ apply transactional_ret | apply transactional_query | apply transactional_add_flush
    | apply transactional_uuid4 | apply transactional_bind
    | match goal with
      | |- ∀ _, Examples.transactional _ => intro
      | |- Examples.transactional (match ?x with _ => _ end) => destruct x
      | |- Examples.transactional (if ?b then _ else _) => destruct b
      | H : _ |- Examples.transactional _ => apply H
      end ]).

(** ** Persistence gateway: storing a prediction twice *)

Section StorageFacts.
Import Transit Storage Examples.

Lemma bind_returns {A B} (m : M A) (k : A → M B) (s s' : Session) (y : B) :
  bind m k s = (s', inr y) → ∃ s0 x, m s = (s0, inr x) ∧ k x s0 = (s', inr y).
Proof.
  unfold bind. destruct (m s) as [s0 [e|x]]; [discriminate|]. eauto.
Qed.

Lemma bind_settled {B} (m : M unit) (k : unit → M B) (s : Session) :
  m s = (s, inr tt) → bind m k s = k tt s.
Proof. unfold bind. intros ->. reflexivity. Qed.

Lemma first_prefix {A} (f : A → bool) (l l' : list A) (x : A) :
  first f l = Some x → l `prefix_of` l' → first f l' = Some x.
Proof.
  intros Hfound [k ->]. unfold first in *.
  induction l as [|a l IH]; [discriminate|].
  cbn in *. destruct (f a); [exact Hfound | apply IH, Hfound].
Qed.

Lemma first_last {A} (f : A → bool) (l : list A) (x : A) :
  first f l = None → f x = true → first f (l ++ [x]) = Some x.
Proof.
  unfold first. induction l as [|a l IH]; cbn.
  - intros _ ->. reflexivity.
  - destruct (f a); [discriminate|]. exact IH.
Qed.

Lemma first_none_filter {A} (f : A → bool) (l : list A) :
  first f l = None → List.filter f l = [].
Proof.
  unfold first. induction l as [|a l IH]; cbn; [reflexivity|].
  destruct (f a); [discriminate | exact IH].
Qed.

#[local] Instance tables_grow_preorder : PreOrder tables_grow.
Proof.
  split.
  - intros t. repeat split; reflexivity.
  - intros t1 t2 t3 (H1 & H2 & H3 & H4 & H5) (K1 & K2 & K3 & K4 & K5).
    repeat split; etransitivity; eassumption.
Qed.

Lemma settled_grow (op : M unit) (s s' : Session) :
  settled op s → tables_grow (tables s) (tables s') → settled op s'.
Proof.
  intros Hop Hgrow s'' Hopen Hgrow'. apply Hop; [exact Hopen|]. etransitivity; eassumption.
Qed.

(** Unfolds one session operation in [H] and splits on what it met. *)
Ltac run_in H :=
  unfold bind, query, ret, add_flush, uuid4, next_fault, rolled_back in H; cbn in H;
  repeat case_match; simplify_eq; cbn in *.

Lemma add_flush_returns (insert : Tables → Tables) (s s' : Session) :
  add_flush insert s = (s', inr tt) → tables s' = insert (tables s).
Proof. intros Hrun. run_in Hrun; reflexivity. Qed.

Lemma query_returns {A} (table : Tables → list A) (s s' : Session) (rows : list A) :
  query table s = (s', inr rows) →
  rolled_back s = false ∧ s' = s ∧ rows = table (tables s).
Proof.
  unfold query. destruct (rolled_back s); [discriminate|].
  intros [= <- <-]. repeat split.
Qed.

(** An operation that begins with a query returns only on a session that
    can be used. *)
Lemma bind_query_open {A B} (table : Tables → list A) (k : list A → M B)
    (s s' : Session) (y : B) :
  bind (query table) k s = (s', inr y) → rolled_back s = false.
Proof.
  intros Hrun. apply bind_returns in Hrun as (s0 & rows & Hquery & _).
  apply query_returns in Hquery as (Hopen & _). exact Hopen.
Qed.

Lemma ensure_route_transactional (route_id : string) :
  transactional (_ensure_route_exists route_id).
Proof. unfold _ensure_route_exists. transactional. Qed.

Lemma ensure_stop_transactional (stop_id : string) :
  transactional (_ensure_stop_exists stop_id).
Proof. unfold _ensure_stop_exists. transactional. Qed.

Lemma ensure_trip_transactional (trip_id : string) :
  transactional (_ensure_trip_exists trip_id).
Proof. unfold _ensure_trip_exists. transactional. Qed.

Lemma ensure_vehicle_transactional (vehicle_id : string) (label : option string) :
  transactional (_ensure_vehicle_exists vehicle_id label).
Proof. unfold _ensure_vehicle_exists. transactional. Qed.

Lemma seed_vehicle_transactional (auto_seed : bool) (vehicle_id label : option string) :
  transactional (seed_vehicle auto_seed vehicle_id label).
Proof.
  unfold seed_vehicle. pose proof ensure_vehicle_transactional. transactional.
Qed.


Lemma store_prediction_transactional (auto_seed : bool) (prediction : Prediction) :
  transactional (_store_prediction auto_seed prediction).
Proof.
  unfold _store_prediction.
  pose proof ensure_route_transactional. pose proof ensure_stop_transactional.
  pose proof ensure_trip_transactional. pose proof seed_vehicle_transactional.
  transactional.
Qed.



Lemma store_alert_transactional (alert : Alert) : transactional (_store_alert alert).
Proof. unfold _store_alert. transactional. Qed.




(** An operation that follows the transaction and returns from an open
    one leaves it open. *)
Lemma returns_open {A} (op : M A) (s s' : Session) (x : A) :
  transactional op → rolled_back s = false → op s = (s', inr x) → rolled_back s' = false.
Proof.
  intros Hop Hopen Hrun. destruct (Hop _ _ _ Hrun) as (_ & _ & Hstays).
  apply Hstays; [exact Hopen | eauto].
Qed.

Lemma ensure_route_settles (route_id : string) (s s' : Session) :
  _ensure_route_exists route_id s = (s', inr tt) →
  settled (_ensure_route_exists route_id) s'
  ∧ tables_grow (tables s) (tables s')
  ∧ predictions (tables s') = predictions (tables s).
Proof.
  intros Hrun.
  assert (Hfound : ∃ row, first (λ r, String.eqb (r_id r) route_id) (routes (tables s'))
                          = Some row).
  { unfold _ensure_route_exists in Hrun. run_in Hrun; eauto;
      eexists; apply first_last; try eassumption; cbn; apply String.eqb_refl. }
  assert (Hgrow : tables_grow (tables s) (tables s')
                  ∧ predictions (tables s') = predictions (tables s)).
  { unfold _ensure_route_exists in Hrun. run_in Hrun;
      (split; [repeat split; try reflexivity; apply prefix_app_r; reflexivity | reflexivity]). }
  destruct Hfound as [row Hrow]. destruct Hgrow as [Hgrow Hsame].
  split; [|split; assumption].
  intros s'' Hopen (Hroutes & _). unfold _ensure_route_exists, bind, query. rewrite Hopen. cbn.
  rewrite (first_prefix _ _ _ _ Hrow Hroutes). reflexivity.
Qed.

Lemma ensure_stop_settles (stop_id : string) (s s' : Session) :
  _ensure_stop_exists stop_id s = (s', inr tt) →
  settled (_ensure_stop_exists stop_id) s'
  ∧ tables_grow (tables s) (tables s')
  ∧ predictions (tables s') = predictions (tables s).
Proof.
  intros Hrun.
  assert (Hfound : ∃ row, first (λ r, String.eqb (s_id r) stop_id) (stops (tables s'))
                          = Some row).
  { unfold _ensure_stop_exists in Hrun. run_in Hrun; eauto;
      eexists; apply first_last; try eassumption; cbn; apply String.eqb_refl. }
  assert (Hgrow : tables_grow (tables s) (tables s')
                  ∧ predictions (tables s') = predictions (tables s)).
  { unfold _ensure_stop_exists in Hrun. run_in Hrun;
      (split; [repeat split; try reflexivity; apply prefix_app_r; reflexivity | reflexivity]). }
  destruct Hfound as [row Hrow]. destruct Hgrow as [Hgrow Hsame].
  split; [|split; assumption].
  intros s'' Hopen (_ & Hstops & _). unfold _ensure_stop_exists, bind, query. rewrite Hopen. cbn.
  rewrite (first_prefix _ _ _ _ Hrow Hstops). reflexivity.
Qed.

Lemma ensure_trip_settles (trip_id : string) (s s' : Session) :
  _ensure_trip_exists trip_id s = (s', inr tt) →
  settled (_ensure_trip_exists trip_id) s'
  ∧ tables_grow (tables s) (tables s')
  ∧ predictions (tables s') = predictions (tables s).
Proof.
  intros Hrun.
  assert (Hfound : ∃ row, first (λ r, String.eqb (dt_id r) trip_id) (trips (tables s'))
                          = Some row).
  { unfold _ensure_trip_exists in Hrun. run_in Hrun; eauto;
      eexists; apply first_last; try eassumption; cbn; apply String.eqb_refl. }
  assert (Hgrow : tables_grow (tables s) (tables s')
                  ∧ predictions (tables s') = predictions (tables s)).
  { unfold _ensure_trip_exists in Hrun. run_in Hrun;
      (split; [repeat split; try reflexivity; apply prefix_app_r; reflexivity | reflexivity]). }
  destruct Hfound as [row Hrow]. destruct Hgrow as [Hgrow Hsame].
  split; [|split; assumption].
  intros s'' Hopen (_ & _ & Htrips & _). unfold _ensure_trip_exists, bind, query. rewrite Hopen. cbn.
  rewrite (first_prefix _ _ _ _ Hrow Htrips). reflexivity.
Qed.

Lemma ensure_vehicle_settles (vehicle_id : string) (label : option string) (s s' : Session) :
  _ensure_vehicle_exists vehicle_id label s = (s', inr tt) →
  settled (_ensure_vehicle_exists vehicle_id label) s'
  ∧ tables_grow (tables s) (tables s')
  ∧ predictions (tables s') = predictions (tables s).
Proof.
  intros Hrun. unfold _ensure_vehicle_exists in *.
  destruct (String.eqb vehicle_id "") eqn:Hempty.
  { run_in Hrun. split; [|split; reflexivity]. intros s'' _ _. reflexivity. }
  assert (Hfound : ∃ row, first (λ r, String.eqb (veh_vehicle_id r) vehicle_id)
                            (vehicles (tables s')) = Some row).
  { run_in Hrun; eauto;
      eexists; apply first_last; try eassumption; cbn; apply String.eqb_refl. }
  assert (Hgrow : tables_grow (tables s) (tables s')
                  ∧ predictions (tables s') = predictions (tables s)).
  { run_in Hrun;
      (split; [repeat split; try reflexivity; apply prefix_app_r; reflexivity | reflexivity]). }
  destruct Hfound as [row Hrow]. destruct Hgrow as [Hgrow Hsame].
  split; [|split; assumption].
  intros s'' Hopen (_ & _ & _ & Hvehicles & _). unfold bind, query. rewrite Hopen. cbn.
  rewrite (first_prefix _ _ _ _ Hrow Hvehicles). reflexivity.
Qed.

Lemma seed_vehicle_settles (auto_seed : bool) (vehicle_id label : option string)
    (s s' : Session) :
  seed_vehicle auto_seed vehicle_id label s = (s', inr tt) →
  settled (seed_vehicle auto_seed vehicle_id label) s'
  ∧ tables_grow (tables s) (tables s')
  ∧ predictions (tables s') = predictions (tables s).
Proof.
  unfold seed_vehicle. destruct vehicle_id as [v|].
  - destruct (auto_seed && Py.truthy_str (Some v)).
    + apply ensure_vehicle_settles.
    + intros [= <-]. split; [|split; reflexivity]. intros s'' _ _. reflexivity.
  - intros [= <-]. split; [|split; reflexivity]. intros s'' _ _. reflexivity.
Qed.

Lemma same_key_refl (prediction : Prediction) (id : N) (vehicle : option string)
    (rid : string) (departure : option Z) (relationship : option Z)
    (st : option string) (d : option Z) :
  same_key prediction
    {| dp_id := id; dp_trip_id := p_trip_id prediction; dp_route_id := rid;
       dp_stop_id := p_stop_id prediction; dp_vehicle_id := vehicle;
       dp_arrival_time := arrival_time prediction; dp_departure_time := departure;
       dp_schedule_relationship := relationship; dp_status := st; dp_delay := d |} = true.
Proof.
  unfold same_key. cbn. rewrite !String.eqb_refl. cbn.
  apply bool_decide_eq_true. reflexivity.
Qed.

(** Once its parents are there and a row with its key is stored, storing
    the prediction returns that row's id and leaves the session alone. *)
Lemma store_prediction_found (auto_seed : bool) (prediction : Prediction) (s : Session)
    (row : DBPrediction) :
  _ensure_route_exists (p_route_id prediction) s = (s, inr tt) →
  _ensure_stop_exists (p_stop_id prediction) s = (s, inr tt) →
  _ensure_trip_exists (p_trip_id prediction) s = (s, inr tt) →
  seed_vehicle auto_seed (p_vehicle_id prediction) (vehicle_label prediction) s = (s, inr tt) →
  first (same_key prediction) (predictions (tables s)) = Some row →
  _store_prediction auto_seed prediction s = (s, inr (Uuid (dp_id row))).
Proof.
  intros Hroute Hstop Htrip Hvehicle Hrow. unfold _store_prediction.
  pose proof (bind_query_open _ _ _ _ _ Hroute) as Hopen.
  rewrite (bind_settled _ _ _ Hroute), (bind_settled _ _ _ Hstop),
    (bind_settled _ _ _ Htrip), (bind_settled _ _ _ Hvehicle).
  unfold bind, query. rewrite Hopen. cbn. rewrite Hrow. reflexivity.
Qed.

Lemma first_some_filter {A} (f : A → bool) (l : list A) (x : A) :
  first f l = Some x → List.filter f l ≠ [].
Proof.
  unfold first. induction l as [|a l IH]; cbn; [discriminate|].
  destruct (f a); [discriminate | exact IH].
Qed.

(** What a successful call leaves behind: the parents, settled, and a row
    with the prediction's key whose id is the one returned. *)
Lemma store_prediction_stores (auto_seed : bool) (prediction : Prediction) (s s1 : Session)
    (id1 : StoredId) :
  _store_prediction auto_seed prediction s = (s1, inr id1) →
  ∃ row,
    first (same_key prediction) (predictions (tables s1)) = Some row
    ∧ id1 = Uuid (dp_id row)
    ∧ settled (_ensure_route_exists (p_route_id prediction)) s1
    ∧ settled (_ensure_stop_exists (p_stop_id prediction)) s1
    ∧ settled (_ensure_trip_exists (p_trip_id prediction)) s1
    ∧ settled (seed_vehicle auto_seed (p_vehicle_id prediction) (vehicle_label prediction)) s1
    ∧ (stored_rows prediction s = [] → stored_rows prediction s1 = [row])
    ∧ rolled_back s1 = false.
Proof.
  intros Hrun.
  assert (Hopen1 : rolled_back s1 = false).
  { destruct (store_prediction_transactional _ _ _ _ _ Hrun) as (_ & _ & Hopen).
    apply Hopen; [|eauto]. unfold _store_prediction in Hrun.
    apply bind_returns in Hrun as (sa & [] & Hroute & _).
    exact (bind_query_open _ _ _ _ _ Hroute). }
  unfold _store_prediction in Hrun.
  apply bind_returns in Hrun as (sa & [] & Hroute & Hrun).
  apply bind_returns in Hrun as (sb & [] & Hstop & Hrun).
  apply bind_returns in Hrun as (sc & [] & Htrip & Hrun).
  apply bind_returns in Hrun as (sd & [] & Hvehicle & Hrun).
  apply ensure_route_settles in Hroute as (Hroute & Hga & Hpa).
  apply ensure_stop_settles in Hstop as (Hstop & Hgb & Hpb).
  apply ensure_trip_settles in Htrip as (Htrip & Hgc & Hpc).
  apply seed_vehicle_settles in Hvehicle as (Hvehicle & Hgd & Hpd).
  assert (Hsame : predictions (tables sd) = predictions (tables s)) by congruence.
  assert (Hlast : ∃ row,
            first (same_key prediction) (predictions (tables s1)) = Some row
            ∧ id1 = Uuid (dp_id row)
            ∧ tables_grow (tables sd) (tables s1)
            ∧ (stored_rows prediction s = [] → stored_rows prediction s1 = [row])).
  { unfold stored_rows. rewrite <- Hsame.
    pose proof (bind_query_open _ _ _ _ _ Hrun) as Hopen.
    unfold bind at 1, query at 1 in Hrun. rewrite Hopen in Hrun. cbn in Hrun.
    destruct (first (same_key prediction) (predictions (tables sd))) as [existing|] eqn:Hlookup.
    - injection Hrun as <- <-. exists existing.
      split; [exact Hlookup|]. split; [reflexivity|]. split; [reflexivity|].
      intros Hnone. exfalso. exact (first_some_filter _ _ _ Hlookup Hnone).
    - run_in Hrun;
        (match goal with |- context [predictions _ ++ [?r]] => exists r end);
        (split; [apply first_last; [exact Hlookup | apply same_key_refl]|]);
        (split; [reflexivity|]);
        (split; [repeat split; try reflexivity; apply prefix_app_r; reflexivity|]);
        intros _; rewrite List.filter_app, (first_none_filter _ _ Hlookup); cbn;
        rewrite same_key_refl; reflexivity. }
  destruct Hlast as (row & Hrow & Hid & Hge & Hone).
  exists row. split; [exact Hrow|]. split; [exact Hid|].
  split; [|split; [|split; [|split]]].
  - apply (settled_grow _ sa); [exact Hroute|].
    transitivity (tables sb); [exact Hgb|]. transitivity (tables sc); [exact Hgc|].
    transitivity (tables sd); [exact Hgd | exact Hge].
  - apply (settled_grow _ sb); [exact Hstop|].
    transitivity (tables sc); [exact Hgc|]. transitivity (tables sd); [exact Hgd | exact Hge].
  - apply (settled_grow _ sc); [exact Htrip|].
    transitivity (tables sd); [exact Hgd | exact Hge].
  - apply (settled_grow _ sd); [exact Hvehicle | exact Hge].
  - split; [exact Hone | exact Hopen1].
Qed.

Lemma add_flush_accepting (insert : Tables → Tables) : accepting (add_flush insert).
Proof.
  intros s Hnone. unfold add_flush, next_fault. rewrite Hnone.
  eexists. split; reflexivity.
Qed.

Lemma ensure_route_accepting (route_id : string) : accepting (_ensure_route_exists route_id).
Proof.
  intros s Hnone. unfold _ensure_route_exists, bind, query, rolled_back.
  rewrite Hnone. cbn.
  destruct (first _ _); [exists s; split; [reflexivity | exact Hnone]|].
  apply add_flush_accepting, Hnone.
Qed.

Lemma ensure_stop_accepting (stop_id : string) : accepting (_ensure_stop_exists stop_id).
Proof.
  intros s Hnone. unfold _ensure_stop_exists, bind, query, rolled_back.
  rewrite Hnone. cbn.
  destruct (first _ _); [exists s; split; [reflexivity | exact Hnone]|].
  apply add_flush_accepting, Hnone.
Qed.

Lemma ensure_trip_accepting (trip_id : string) : accepting (_ensure_trip_exists trip_id).
Proof.
  intros s Hnone. unfold _ensure_trip_exists, bind, query, rolled_back.
  rewrite Hnone. cbn.
  destruct (first _ _); [exists s; split; [reflexivity | exact Hnone]|].
  apply add_flush_accepting, Hnone.
Qed.

Lemma seed_vehicle_accepting (auto_seed : bool) (vehicle_id label : option string) :
  accepting (seed_vehicle auto_seed vehicle_id label).
Proof.
  intros s Hnone. unfold seed_vehicle.
  destruct vehicle_id as [v|]; [|exists s; split; [reflexivity | exact Hnone]].
  destruct (auto_seed && Py.truthy_str (Some v));
    [|exists s; split; [reflexivity | exact Hnone]].
  unfold _ensure_vehicle_exists.
  destruct (String.eqb v ""); [exists s; split; [reflexivity | exact Hnone]|].
  unfold bind, query, rolled_back. rewrite Hnone. cbn.
  destruct (first _ _); [exists s; split; [reflexivity | exact Hnone]|].
  apply add_flush_accepting, Hnone.
Qed.








End StorageFacts.


(** ** Persistence gateway: the outcome of a batch *)

Section BatchFacts.
Import Transit Storage Examples.

Variable auto_seed_missing_entities : bool.












End BatchFacts.



(** * Further properties of the code *)

(** ** Aggregator: what [process] files where *)

Section ProcessFacts.
Import Transit Aggregator Examples.

Lemma get_process (d : Data) (self : DataAggregator) (key : string) :
  get (process d self) key = get self key ++ of_type key [d].
Proof.
  unfold get, process, of_type. cbn [aggregations].
  rewrite filter_cons, filter_nil.
  destruct (decide (type_name d = key)) as [<-|Hother].
  - rewrite lookup_insert_eq. reflexivity.
  - rewrite lookup_insert_ne by exact Hother. cbn. rewrite app_nil_r. reflexivity.
Qed.

Lemma stats_process (d : Data) (self : DataAggregator) (key : string) :
  summary_stats (process d self) !! key
  = if decide (type_name d = key)
    then Some (S (default 0%nat (summary_stats self !! key)))
    else summary_stats self !! key.
Proof.
  unfold process, _update_summary_stats. cbn [summary_stats].
  destruct (decide (type_name d = key)) as [<-|Hother].
  - rewrite lookup_insert_eq. reflexivity.
  - rewrite lookup_insert_ne by exact Hother. reflexivity.
Qed.

Lemma counted_process (d : Data) (self : DataAggregator) :
  counted self → counted (process d self).
Proof.
  intros Hself key. rewrite stats_process, get_process, Hself.
  unfold of_type. rewrite filter_cons, filter_nil.
  destruct (decide (type_name d = key)) as [Hkey|Hother].
  - destruct (get self key) as [|x l]; cbn; [reflexivity|].
    rewrite length_app. cbn. do 2 f_equal. lia.
  - rewrite app_nil_r. reflexivity.
Qed.

Lemma processed_snoc (ds : list Data) (d : Data) :
  processed (ds ++ [d]) = process d (processed ds).
Proof. unfold processed. rewrite foldl_snoc. reflexivity. Qed.

(** X1.  After any sequence of records has been processed by a fresh
    aggregator, the buffer filed under a class name holds exactly the
    records of that class, in the order they came, and the count kept in
    [summary_stats] for that name is the length of the buffer; a name under
    which nothing came has neither a buffer nor a count. *)
Theorem process_files_records_by_type (ds : list Data) (key : string) :
  get (processed ds) key = of_type key ds
  ∧ summary_stats (processed ds) !! key
    = match of_type key ds with [] => None | l => Some (length l) end
  ∧ (aggregations (processed ds) !! key = None ↔ of_type key ds = []).
Proof.
  induction ds as [|d ds IH] using rev_ind.
  - repeat split; try reflexivity.
  - destruct IH as (Hget & Hstats & Hnone).
    rewrite processed_snoc.
    assert (Hbuffer : get (process d (processed ds)) key = of_type key (ds ++ [d])).
    { rewrite get_process, Hget. unfold of_type. rewrite filter_app. reflexivity. }
    split; [exact Hbuffer|]. split.
    + rewrite <- Hbuffer. apply counted_process.
      clear -ds. induction ds as [|e ds IH] using rev_ind.
      * intros k. reflexivity.
      * rewrite processed_snoc. apply counted_process, IH.
    + unfold process. cbn [aggregations].
      unfold of_type in *. rewrite filter_app, filter_cons, filter_nil.
      destruct (decide (type_name d = key)) as [<-|Hother].
      * rewrite lookup_insert_eq. split; [discriminate|].
        intros Hnil. apply app_eq_nil in Hnil as [_ Hnil]. discriminate.
      * rewrite lookup_insert_ne by exact Hother. rewrite app_nil_r. exact Hnone.
Qed.

End ProcessFacts.

(** ** Aggregator: bounds of the performance metrics *)

Section MetricsBounds.
Import Transit Aggregator.

Lemma foldl_max_spec (r : list Z) :
  ∀ x, x ≤ foldl Z.max x r
       ∧ (∀ d, d ∈ r → d ≤ foldl Z.max x r)
       ∧ foldl Z.max x r ∈ x :: r.
Proof.
  induction r as [|y r IH]; intros x; cbn [foldl].
  - split; [lia|]. split; [intros d Hd; apply elem_of_nil in Hd; destruct Hd|left].
  - destruct (IH (Z.max x y)) as (Hseed & Hall & Hin). split; [lia|]. split.
    + intros d Hd. apply elem_of_cons in Hd as [-> | Hd]; [lia | apply Hall, Hd].
    + apply elem_of_cons in Hin as [Heq | Hin].
      * rewrite Heq. destruct (Z.max_spec x y) as [[_ ->] | [_ ->]];
          [right; left | left].
      * right. right. exact Hin.
Qed.

Lemma foldl_min_spec (r : list Z) :
  ∀ x, foldl Z.min x r ≤ x
       ∧ (∀ d, d ∈ r → foldl Z.min x r ≤ d)
       ∧ foldl Z.min x r ∈ x :: r.
Proof.
  induction r as [|y r IH]; intros x; cbn [foldl].
  - split; [lia|]. split; [intros d Hd; apply elem_of_nil in Hd; destruct Hd|left].
  - destruct (IH (Z.min x y)) as (Hseed & Hall & Hin). split; [lia|]. split.
    + intros d Hd. apply elem_of_cons in Hd as [-> | Hd]; [lia | apply Hall, Hd].
    + apply elem_of_cons in Hin as [Heq | Hin].
      * rewrite Heq. destruct (Z.min_spec x y) as [[_ ->] | [_ ->]];
          [left | right; left].
      * right. right. exact Hin.
Qed.

Lemma max_bounds (l : list Z) :
  l ≠ [] → Py.max l ∈ l ∧ ∀ d, d ∈ l → d ≤ Py.max l.
Proof.
  destruct l as [|x r]; [congruence|]. intros _. cbn [Py.max].
  destruct (foldl_max_spec r x) as (Hseed & Hall & Hin).
  split; [exact Hin|]. intros d Hd.
  apply elem_of_cons in Hd as [-> | Hd]; [exact Hseed | apply Hall, Hd].
Qed.

Lemma min_bounds (l : list Z) :
  l ≠ [] → Py.min l ∈ l ∧ ∀ d, d ∈ l → Py.min l ≤ d.
Proof.
  destruct l as [|x r]; [congruence|]. intros _. cbn [Py.min].
  destruct (foldl_min_spec r x) as (Hseed & Hall & Hin).
  split; [exact Hin|]. intros d Hd.
  apply elem_of_cons in Hd as [-> | Hd]; [exact Hseed | apply Hall, Hd].
Qed.

Lemma sum_bounds (l : list Z) (lo hi : Z) :
  (∀ d, d ∈ l → lo ≤ d ≤ hi) →
  lo * Z.of_nat (length l) ≤ Py.sum l ≤ hi * Z.of_nat (length l).
Proof.
  induction l as [|x l IH]; intros Hall; [cbn; lia|].
  cbn [Py.sum foldr length]. fold (Py.sum l). rewrite Nat2Z.inj_succ.
  pose proof (Hall x ltac:(left)) as Hx.
  assert (Hrest : ∀ d, d ∈ l → lo ≤ d ≤ hi) by (intros d Hd; apply Hall; right; exact Hd).
  specialize (IH Hrest). lia.
Qed.

Lemma truediv_bounds (l : list Z) (lo hi : Z) :
  l ≠ [] →
  (∀ d, d ∈ l → lo ≤ d ≤ hi) →
  (inject_Z lo <= Py.truediv (Py.sum l) (length l))%Q
  ∧ (Py.truediv (Py.sum l) (length l) <= inject_Z hi)%Q.
Proof.
  intros Hne Hall. pose proof (sum_bounds l lo hi Hall) as Hsum.
  assert (Hlen : Z.pos (Pos.of_nat (length l)) = Z.of_nat (length l)).
  { destruct l as [|x r]; [congruence|]. cbn [length].
    rewrite <- Pos.of_nat_succ, Zpos_P_of_succ_nat, Nat2Z.inj_succ. reflexivity. }
  unfold Py.truediv, Qle, inject_Z. cbn [Qnum Qden]. rewrite Hlen. lia.
Qed.

(** X2.  When at least one prediction of the buffer carries a delay, the
    metrics' [min_delay] and [max_delay] are delays of the buffer, every
    delay lies between them, [avg_delay] lies between them too, and
    [delay_count] is the number of delays.  When none does, the three are 0
    and the dict has no [delay_count] key. *)
Theorem performance_metrics_bounds (self : DataAggregator) :
  let delays := omap delay (predictions self) in
  let m := _get_performance_metrics self in
  (delays ≠ [] →
     min_delay m ∈ delays ∧ max_delay m ∈ delays
     ∧ (∀ d, d ∈ delays → min_delay m ≤ d ≤ max_delay m)
     ∧ (inject_Z (min_delay m) <= avg_delay m)%Q
     ∧ (avg_delay m <= inject_Z (max_delay m))%Q
     ∧ delay_count m = Some (length delays))
  ∧ (delays = [] →
     (avg_delay m == 0)%Q ∧ max_delay m = 0 ∧ min_delay m = 0 ∧ delay_count m = None).
Proof.
  intros delays m. unfold m. rewrite performance_metrics_of_delays. fold delays.
  split.
  - intros Hne. destruct delays as [|x r] eqn:Hdelays; [congruence|].
    cbn [avg_delay max_delay min_delay delay_count].
    destruct (max_bounds (x :: r) Hne) as [Hmax_in Hmax].
    destruct (min_bounds (x :: r) Hne) as [Hmin_in Hmin].
    assert (Hall : ∀ d, d ∈ x :: r → Py.min (x :: r) ≤ d ≤ Py.max (x :: r))
      by (intros d Hd; split; [apply Hmin | apply Hmax]; exact Hd).
    destruct (truediv_bounds (x :: r) _ _ Hne Hall) as [Hlo Hhi].
    repeat split; try assumption; try (apply Hmin; assumption); apply Hmax; assumption.
  - intros ->. cbn. repeat split; reflexivity.
Qed.

Lemma performance_metrics_bounds_witness :
  (inject_Z 0 <= avg_delay (_get_performance_metrics Examples.five_delays))%Q
  ∧ (avg_delay (_get_performance_metrics Examples.five_delays) <= inject_Z 1800)%Q.
Proof.
  destruct (performance_metrics_bounds Examples.five_delays) as [Hbounds _].
  assert (Hne : omap delay (predictions Examples.five_delays) ≠ [])
    by (vm_compute; discriminate).
  destruct (Hbounds Hne) as (_ & _ & _ & Hlo & Hhi & _).
  split; [exact Hlo | exact Hhi].
Defined.

End MetricsBounds.

(** ** Aggregator: the counts of the route and stop summaries *)

Section SummaryCounts.
Import Transit Aggregator Examples.

(** *** Routes: the three counters *)

Lemma route_prediction_count (ps : list Prediction) (m : gmap string RouteAcc) (r : string) :
  let e := route_entry (foldl route_step_prediction m ps) r in
  ra_predictions e
  = (ra_predictions (route_entry m r) + length (filter (λ p, p_route_id p = r) ps))%nat
  ∧ ra_vehicle_positions e = ra_vehicle_positions (route_entry m r)
  ∧ ra_alerts e = ra_alerts (route_entry m r).
Proof.
  cbv zeta. revert m. induction ps as [|p ps IH]; intros m; cbn [foldl].
  - rewrite filter_nil. cbn. repeat split; lia.
  - destruct (IH (route_step_prediction m p)) as (Hp & Hv & Ha).
    rewrite Hp, Hv, Ha, route_step_prediction_entry, filter_cons.
    destruct (decide (p_route_id p = r)); [|repeat split; lia].
    cbv zeta. destruct (delay p) as [d|]; [destruct (Py.truthy_int (Some d))|];
      cbn; repeat split; lia.
Qed.

Lemma route_position_count (vs : list VehiclePosition) (m : gmap string RouteAcc) (r : string) :
  let e := route_entry (foldl route_step_position m vs) r in
  ra_predictions e = ra_predictions (route_entry m r)
  ∧ ra_vehicle_positions e
    = (ra_vehicle_positions (route_entry m r)
       + length (filter (λ v, v_route_id v = Some r ∧ r ≠ "") vs))%nat
  ∧ ra_alerts e = ra_alerts (route_entry m r).
Proof.
  cbv zeta. revert m. induction vs as [|v vs IH]; intros m; cbn [foldl].
  - rewrite filter_nil. cbn. repeat split; lia.
  - destruct (IH (route_step_position m v)) as (Hp & Hv & Ha).
    rewrite Hp, Hv, Ha, filter_cons. clear IH Hp Hv Ha.
    unfold route_step_position, route_entry.
    destruct (v_route_id v) as [k|].
    + cbn [Py.truthy_str]. destruct (String.eqb k "") eqn:Hk; cbn [negb].
      * apply String.eqb_eq in Hk as ->.
        rewrite decide_False by (intros [[= <-] Hne]; congruence). repeat split; lia.
      * apply String.eqb_neq in Hk. rewrite lookup_update.
        destruct (decide (k = r)) as [->|Hr].
        -- rewrite decide_True by (split; [reflexivity | exact Hk]). cbn. repeat split; lia.
        -- rewrite decide_False by (intros [[= ->] _]; contradiction). repeat split; lia.
    + rewrite decide_False by (intros [? _]; discriminate). repeat split; lia.
Qed.

Lemma route_alert_step_count (m : gmap string RouteAcc) (a : Alert) (r : string) :
  let e := route_entry (route_step_alert m a) r in
  ra_predictions e = ra_predictions (route_entry m r)
  ∧ ra_vehicle_positions e = ra_vehicle_positions (route_entry m r)
  ∧ ra_alerts e = (ra_alerts (route_entry m r) + occurrences r (affected_routes a))%nat.
Proof.
  cbv zeta. unfold route_step_alert, occurrences.
  generalize (affected_routes a) as ks. intros ks.
  revert m. induction ks as [|k ks IH]; intros m; cbn [foldl].
  - rewrite filter_nil. cbn. repeat split; lia.
  - destruct (IH (update route_default k route_count_alert m)) as (Hp & Hv & Ha).
    rewrite Hp, Hv, Ha, filter_cons. unfold route_entry. rewrite lookup_update.
    destruct (decide (k = r)) as [->|Hr]; cbn; repeat split; lia.
Qed.

Lemma route_alert_count (l : list Alert) (m : gmap string RouteAcc) (r : string) :
  let e := route_entry (foldl route_step_alert m l) r in
  ra_predictions e = ra_predictions (route_entry m r)
  ∧ ra_vehicle_positions e = ra_vehicle_positions (route_entry m r)
  ∧ ra_alerts e
    = (ra_alerts (route_entry m r) + occurrences r (concat (map affected_routes l)))%nat.
Proof.
  cbv zeta. revert m. induction l as [|a l IH]; intros m; cbn [foldl map concat].
  - cbn. repeat split; lia.
  - destruct (IH (route_step_alert m a)) as (Hp & Hv & Ha).
    destruct (route_alert_step_count m a r) as (Hp' & Hv' & Ha').
    rewrite Hp, Hv, Ha, Hp', Hv', Ha'. unfold occurrences.
    rewrite filter_app, length_app. repeat split; lia.
Qed.

Lemma exists_filter {A} (P : A → Prop) `{∀ x, Decision (P x)} (l : list A) :
  (∃ x, x ∈ l ∧ P x) ↔ filter P l ≠ [].
Proof.
  split.
  - intros (x & Hx & HPx) Hnil.
    assert (Hin : x ∈ filter P l) by (apply list_elem_of_filter; split; assumption).
    rewrite Hnil in Hin. apply elem_of_nil in Hin. destruct Hin.
  - intros Hnil. destruct (filter P l) as [|x rest] eqn:Hf; [congruence|].
    assert (Hin : x ∈ filter P l) by (rewrite Hf; left).
    apply list_elem_of_filter in Hin as [HPx Hx]. eauto.
Qed.

(** X3.  The per-route summary has an entry for a route exactly when a
    prediction carries that route id, a vehicle position names it with a
    non-empty id, or an alert lists it; the entry counts those predictions,
    those positions and the number of times the alerts list the route. *)
Theorem route_summary_counts (self : DataAggregator) (r : string) :
  (is_Some (get_route_summary self !! r)
   ↔ route_predictions r self ≠ [] ∨ route_positions r self ≠ []
     ∨ (0 < route_mentions r self)%nat)
  ∧ ∀ st, get_route_summary self !! r = Some st →
      rs_predictions st = length (route_predictions r self)
      ∧ rs_vehicle_positions st = length (route_positions r self)
      ∧ rs_alerts st = route_mentions r self.
Proof.
  split.
  - unfold get_route_summary, route_accumulate. cbv zeta.
    rewrite lookup_fmap, fmap_is_Some.
    rewrite (foldl_present route_step_alert (λ a, r ∈ affected_routes a) r
               (λ m a, route_alert_present m a r)).
    rewrite (foldl_present route_step_position (λ v, v_route_id v = Some r ∧ r ≠ "") r
               (λ m v, route_position_present m v r)).
    rewrite (foldl_present route_step_prediction (λ p, p_route_id p = r) r
               (λ m p, route_prediction_present m p r)).
    rewrite lookup_empty.
    unfold route_predictions, route_positions, route_mentions, occurrences.
    assert (Hmention : (∃ a, a ∈ alerts self ∧ r ∈ affected_routes a)
                       ↔ (0 < length (filter (λ x, x = r)
                                        (concat (map affected_routes (alerts self)))))%nat).
    { split.
      - intros (a & Ha & Hr).
        assert (Hin : r ∈ filter (λ x, x = r) (concat (map affected_routes (alerts self)))).
        { apply list_elem_of_filter. split; [reflexivity|].
          apply list_elem_of_In, in_concat. exists (affected_routes a).
          split; [apply in_map, list_elem_of_In, Ha | apply list_elem_of_In, Hr]. }
        destruct (filter _ _); [apply elem_of_nil in Hin; destruct Hin | cbn; lia].
      - intros Hlen.
        destruct (filter (λ x, x = r) (concat (map affected_routes (alerts self))))
          as [|x rest] eqn:Hf; [cbn in Hlen; lia|].
        assert (Hin : x ∈ filter (λ x, x = r) (concat (map affected_routes (alerts self))))
          by (rewrite Hf; left).
        apply list_elem_of_filter in Hin as [-> Hin].
        apply list_elem_of_In, in_concat in Hin as (ks & Hks & Hx).
        apply in_map_iff in Hks as (a & <- & Ha).
        exists a. split; apply list_elem_of_In; assumption. }
    rewrite Hmention.
    rewrite (exists_filter (λ p, p_route_id p = r)).
    rewrite (exists_filter (λ v, v_route_id v = Some r ∧ r ≠ "")).
    split; [intros [[[Hnone|?]|?]|?]|]; try tauto.
    destruct Hnone as [x Hx]. discriminate.
  - intros st Hst. apply route_summary_entry in Hst. subst st.
    unfold route_accumulate. cbv zeta.
    destruct (route_alert_count (alerts self)
                (foldl route_step_position
                   (foldl route_step_prediction ∅ (predictions self))
                   (vehicle_positions self)) r) as (Hp3 & Hv3 & Ha3).
    destruct (route_position_count (vehicle_positions self)
                (foldl route_step_prediction ∅ (predictions self)) r) as (Hp2 & Hv2 & Ha2).
    destruct (route_prediction_count (predictions self) ∅ r) as (Hp1 & Hv1 & Ha1).
    assert (Hfinish : ∀ a, rs_predictions (route_finish a) = ra_predictions a
                           ∧ rs_vehicle_positions (route_finish a) = ra_vehicle_positions a
                           ∧ rs_alerts (route_finish a) = ra_alerts a).
    { intros a. unfold route_finish. destruct (ra_delays a); repeat split; reflexivity. }
    destruct (Hfinish (route_entry
                (foldl route_step_alert
                   (foldl route_step_position
                      (foldl route_step_prediction ∅ (predictions self))
                      (vehicle_positions self)) (alerts self)) r)) as (-> & -> & ->).
    rewrite Hp3, Hp2, Hp1, Hv3, Hv2, Hv1, Ha3, Ha2, Ha1.
    unfold route_entry. rewrite lookup_empty. cbn.
    unfold route_predictions, route_positions, route_mentions. repeat split; lia.
Qed.

Lemma route_summary_counts_witness :
  ∃ st, get_route_summary on_time_route !! "Red" = Some st ∧ rs_predictions st = 2%nat.
Proof.
  destruct (get_route_summary on_time_route !! "Red") as [st|] eqn:Hst;
    [|vm_compute in Hst; discriminate].
  exists st. split; [reflexivity|].
  destruct (route_summary_counts on_time_route "Red") as [_ Hcounts].
  destruct (Hcounts st Hst) as (-> & _). vm_compute. reflexivity.
Defined.

(** *** Stops *)

Lemma stop_prediction_count (ps : list Prediction) (m : gmap string StopAcc) (k : string) :
  let e := stop_entry (foldl stop_step_prediction m ps) k in
  sa_predictions e
  = (sa_predictions (stop_entry m k) + length (filter (λ p, p_stop_id p = k) ps))%nat
  ∧ sa_alerts e = sa_alerts (stop_entry m k).
Proof.
  cbv zeta. revert m. induction ps as [|p ps IH]; intros m; cbn [foldl].
  - rewrite filter_nil. cbn. split; lia.
  - destruct (IH (stop_step_prediction m p)) as (Hp & Ha).
    rewrite Hp, Ha, stop_step_prediction_entry, filter_cons.
    destruct (decide (p_stop_id p = k)); [|split; lia].
    cbv zeta. destruct (delay p) as [d|]; [destruct (Py.truthy_int (Some d))|];
      cbn; split; lia.
Qed.

Lemma stop_alert_step_count (m : gmap string StopAcc) (a : Alert) (k : string) :
  let e := stop_entry (stop_step_alert m a) k in
  sa_predictions e = sa_predictions (stop_entry m k)
  ∧ sa_alerts e = (sa_alerts (stop_entry m k) + occurrences k (affected_stops a))%nat.
Proof.
  cbv zeta. unfold stop_step_alert, occurrences.
  generalize (affected_stops a) as ks. intros ks.
  revert m. induction ks as [|k' ks IH]; intros m; cbn [foldl].
  - rewrite filter_nil. cbn. split; lia.
  - destruct (IH (update stop_default k' stop_count_alert m)) as (Hp & Ha).
    rewrite Hp, Ha, filter_cons. unfold stop_entry. rewrite lookup_update.
    destruct (decide (k' = k)) as [->|Hk]; cbn; split; lia.
Qed.

Lemma stop_alert_count (l : list Alert) (m : gmap string StopAcc) (k : string) :
  let e := stop_entry (foldl stop_step_alert m l) k in
  sa_predictions e = sa_predictions (stop_entry m k)
  ∧ sa_alerts e
    = (sa_alerts (stop_entry m k) + occurrences k (concat (map affected_stops l)))%nat.
Proof.
  cbv zeta. revert m. induction l as [|a l IH]; intros m; cbn [foldl map concat].
  - cbn. split; lia.
  - destruct (IH (stop_step_alert m a)) as (Hp & Ha).
    destruct (stop_alert_step_count m a k) as (Hp' & Ha').
    rewrite Hp, Ha, Hp', Ha'. unfold occurrences.
    rewrite filter_app, length_app. split; lia.
Qed.

(** X4.  The per-stop summary has an entry for a stop exactly when a
    prediction carries that stop id or an alert lists it; the entry counts
    those predictions and the number of times the alerts list the stop. *)
Theorem stop_summary_counts (self : DataAggregator) (k : string) :
  (is_Some (get_stop_summary self !! k)
   ↔ stop_predictions k self ≠ [] ∨ (0 < stop_mentions k self)%nat)
  ∧ ∀ st, get_stop_summary self !! k = Some st →
      ss_predictions st = length (stop_predictions k self)
      ∧ ss_alerts st = stop_mentions k self.
Proof.
  split.
  - unfold get_stop_summary, stop_accumulate. cbv zeta.
    rewrite lookup_fmap, fmap_is_Some.
    rewrite (foldl_present stop_step_alert (λ a, k ∈ affected_stops a) k
               (λ m a, stop_alert_present m a k)).
    rewrite (foldl_present stop_step_prediction (λ p, p_stop_id p = k) k
               (λ m p, stop_prediction_present m p k)).
    rewrite lookup_empty.
    unfold stop_predictions, stop_mentions, occurrences.
    assert (Hmention : (∃ a, a ∈ alerts self ∧ k ∈ affected_stops a)
                       ↔ (0 < length (filter (λ x, x = k)
                                        (concat (map affected_stops (alerts self)))))%nat).
    { split.
      - intros (a & Ha & Hk).
        assert (Hin : k ∈ filter (λ x, x = k) (concat (map affected_stops (alerts self)))).
        { apply list_elem_of_filter. split; [reflexivity|].
          apply list_elem_of_In, in_concat. exists (affected_stops a).
          split; [apply in_map, list_elem_of_In, Ha | apply list_elem_of_In, Hk]. }
        destruct (filter _ _); [apply elem_of_nil in Hin; destruct Hin | cbn; lia].
      - intros Hlen.
        destruct (filter (λ x, x = k) (concat (map affected_stops (alerts self))))
          as [|x rest] eqn:Hf; [cbn in Hlen; lia|].
        assert (Hin : x ∈ filter (λ x, x = k) (concat (map affected_stops (alerts self))))
          by (rewrite Hf; left).
        apply list_elem_of_filter in Hin as [-> Hin].
        apply list_elem_of_In, in_concat in Hin as (ks & Hks & Hx).
        apply in_map_iff in Hks as (a & <- & Ha).
        exists a. split; apply list_elem_of_In; assumption. }
    rewrite Hmention.
    rewrite (exists_filter (λ p, p_stop_id p = k)).
    split; [intros [[Hnone|?]|?]|]; try tauto.
    destruct Hnone as [x Hx]. discriminate.
  - intros st Hst. apply stop_summary_entry in Hst. subst st.
    unfold stop_accumulate. cbv zeta.
    destruct (stop_alert_count (alerts self)
                (foldl stop_step_prediction ∅ (predictions self)) k) as (Hp2 & Ha2).
    destruct (stop_prediction_count (predictions self) ∅ k) as (Hp1 & Ha1).
    assert (Hfinish : ∀ a, ss_predictions (stop_finish a) = sa_predictions a
                           ∧ ss_alerts (stop_finish a) = sa_alerts a).
    { intros a. unfold stop_finish. destruct (sa_delays a); split; reflexivity. }
    destruct (Hfinish (stop_entry
                (foldl stop_step_alert
                   (foldl stop_step_prediction ∅ (predictions self)) (alerts self)) k))
      as (-> & ->).
    rewrite Hp2, Hp1, Ha2, Ha1.
    unfold stop_entry. rewrite lookup_empty. cbn.
    unfold stop_predictions, stop_mentions. split; lia.
Qed.

Lemma stop_summary_counts_witness :
  ∃ st, get_stop_summary on_time_route !! "stop_0" = Some st ∧ ss_predictions st = 2%nat.
Proof.
  destruct (get_stop_summary on_time_route !! "stop_0") as [st|] eqn:Hst;
    [|vm_compute in Hst; discriminate].
  exists st. split; [reflexivity|].
  destruct (stop_summary_counts on_time_route "stop_0") as [_ Hcounts].
  destruct (Hcounts st Hst) as (-> & _). vm_compute. reflexivity.
Defined.

End SummaryCounts.

(** ** Validator: what gets through *)

Section AcceptanceFacts.
Import Transit Validator Examples.

Lemma validate_range_Z (d lo hi : Z) :
  _validate_range (inject_Z d) (inject_Z lo, inject_Z hi) = true ↔ lo ≤ d ≤ hi.
Proof.
  unfold _validate_range. cbn [fst snd].
  rewrite andb_true_iff, !Qleb_le, <- !Zle_Qle. reflexivity.
Qed.

Lemma caught_accepts {A} (wrap : A → Data) (r : string + option A) (x : A) :
  (∀ a b, wrap a = wrap b → a = b) →
  caught wrap r = Some (wrap x) ↔ r = inr (Some x).
Proof.
  intros Hinj. destruct r as [e|[y|]]; cbn; split; intros H; try discriminate.
  - injection H as H. apply Hinj in H. subst. reflexivity.
  - injection H as ->. reflexivity.
Qed.

(** X5.  [_validate_future_time] raises on every call and [process]
    turns the exception into a rejection: with the rules of the source, a
    prediction is accepted exactly when its four ids are not blank (none
    holds nothing but white space, of ASCII or beyond), its
    delay, if any, lies within an hour either way, and it carries neither
    an arrival nor a departure time.  A prediction with a time is rejected
    under any rules and never among the results of a batch. *)
Theorem validator_rejects_predictions_with_a_time
    (age_check : Z → Z → string + bool) (p : Prediction) :
  let validate rules := process future_time_check age_check rules in
  (validate _setup_validation_rules (DPrediction p) = Some (DPrediction p)
   ↔ Py.is_blank (prediction_id p) = false ∧ Py.is_blank (p_trip_id p) = false
     ∧ Py.is_blank (p_stop_id p) = false ∧ Py.is_blank (p_route_id p) = false
     ∧ (∀ d, delay p = Some d → -3600 ≤ d ≤ 3600)
     ∧ arrival_time p = None ∧ departure_time p = None)
  ∧ (arrival_time p ≠ None ∨ departure_time p ≠ None →
     ∀ rules,
       validate rules (DPrediction p) = None
       ∧ ∀ data_list c,
           DPrediction p
           ∉ fst (process_batch future_time_check age_check rules data_list c)).
Proof.
  cbv zeta. split.
  - cbn [process]. rewrite caught_accepts by congruence.
    unfold _validate_prediction, check_time, future_time_check.
    cbn [prediction_required_fields delay_bounds max_future_prediction
         _setup_validation_rules _check_required_fields getattr String.eqb
         Ascii.eqb Bool.eqb].
    destruct (Py.is_blank (prediction_id p)); [cbn; intuition congruence|].
    destruct (Py.is_blank (p_trip_id p)); [cbn; intuition congruence|].
    destruct (Py.is_blank (p_stop_id p)); [cbn; intuition congruence|].
    destruct (Py.is_blank (p_route_id p)); [cbn; intuition congruence|].
    cbn [negb].
    destruct (delay p) as [d|].
    + pose proof (validate_range_Z d (-3600) 3600) as Hrange.
      change (inject_Z (-3600), inject_Z 3600) with ((-3600)%Q, 3600%Q) in Hrange.
      destruct (_validate_range (inject_Z d) (-3600, 3600)%Q).
      * cbn [negb]. destruct (arrival_time p), (departure_time p);
          split; intuition congruence.
      * cbn [negb]. split; [discriminate|].
        intros (_ & _ & _ & _ & Hd & _).
        specialize (Hd d eq_refl). apply Hrange in Hd. discriminate.
    + cbn [negb]. destruct (arrival_time p), (departure_time p);
        split; try intuition congruence.
  - intros Htimed rules.
    assert (Hrejected : process future_time_check age_check rules (DPrediction p) = None).
    { cbn [process]. unfold _validate_prediction, check_time, future_time_check.
      destruct (negb (_check_required_fields _ _)); [reflexivity|].
      destruct (negb _); [reflexivity|].
      destruct (arrival_time p), (departure_time p); try reflexivity.
      destruct Htimed; congruence. }
    split; [exact Hrejected|].
    apply rejected_is_dropped, Hrejected.
Qed.

Lemma validator_rejects_predictions_with_a_time_witness :
  validate_at 0 (DPrediction park_street_prediction) = None
  ∧ validate_at 0 (DPrediction unnamed_prediction) ≠ Some (DPrediction unnamed_prediction).
Proof.
  split.
  - destruct (validator_rejects_predictions_with_a_time
                (timestamp_age_check true 0) park_street_prediction) as [_ Hrejected].
    apply Hrejected. left. discriminate.
  - destruct (validator_rejects_predictions_with_a_time
                (timestamp_age_check true 0) unnamed_prediction) as [[Hnamed _] _].
    intros Haccepted. apply Hnamed in Haccepted as (_ & Hblank & _).
    vm_compute in Hblank. discriminate.
Defined.

Lemma process_batch_counters
    (ft ta : Z → Z → string + bool) (rules : Rules) (data_list : list Data) (c : Counters) :
  let c' := snd (process_batch ft ta rules data_list c) in
  processed_count c' = (processed_count c + length data_list)%nat
  ∧ error_count c' = error_count c.
Proof.
  cbv zeta. revert c. induction data_list as [|item rest IH]; intros c.
  - cbn. split; lia.
  - cbn [process_batch length].
    specialize (IH {| processed_count := S (processed_count c);
                      error_count := error_count c |}).
    destruct (process_batch ft ta rules rest _) as [results c''].
    cbn [snd processed_count error_count] in IH.
    destruct (process ft ta rules item); cbn [snd]; split; lia.
Qed.

(** X6.  A batch run of the validator returns the records that [process]
    accepts, unchanged and in the order they came; [processed_count] grows
    by the size of the batch, rejected records included, and
    [error_count] stays as it was. *)
Theorem process_batch_filters_and_counts
    (ft ta : Z → Z → string + bool) (rules : Rules) (data_list : list Data) (c : Counters) :
  let out := process_batch ft ta rules data_list c in
  fst out = filter (λ d, is_Some (process ft ta rules d)) data_list
  ∧ (∀ d, d ∈ fst out ↔ d ∈ data_list ∧ process ft ta rules d = Some d)
  ∧ processed_count (snd out) = (processed_count c + length data_list)%nat
  ∧ error_count (snd out) = error_count c.
Proof.
  cbv zeta.
  assert (Hfilter : fst (process_batch ft ta rules data_list c)
                    = filter (λ d, is_Some (process ft ta rules d)) data_list).
  { rewrite process_batch_results.
    induction data_list as [|d rest IH]; [reflexivity|].
    cbn [omap list_omap]. rewrite filter_cons.
    destruct (process ft ta rules d) as [r|] eqn:Hd.
    - apply process_returns_its_input in Hd as ->.
      rewrite decide_True by eauto. f_equal. exact IH.
    - rewrite decide_False by (intros [? ?]; discriminate). exact IH. }
  split; [exact Hfilter|]. split.
  - intros d. rewrite Hfilter, list_elem_of_filter. split.
    + intros [[r Hr] Hin]. split; [exact Hin|].
      pose proof (process_returns_its_input ft ta rules d r Hr). congruence.
    + intros [Hin Hd]. split; [eauto | exact Hin].
  - apply process_batch_counters.
Qed.

Lemma lstrip_hashes (n : nat) (c : string) :
  lstrip_hash (String.append (hashes n) c) = lstrip_hash c.
Proof.
  induction n as [|n IH]; [reflexivity|]. cbn. exact IH.
Qed.

(** X7.  The colour check strips every leading number sign, not just
    one: any run of them in front of a colour changes nothing, so a
    colour is accepted exactly when what follows its leading number signs
    is six hexadecimal digits. *)
Theorem hex_color_ignores_leading_number_signs (n : nat) (color : string) :
  _validate_hex_color (String.append (hashes n) color) = _validate_hex_color color
  ∧ (_validate_hex_color color = true
     ↔ String.length (lstrip_hash color) = 6%nat
       ∧ Forall (λ ch, is_hex_digit ch = true) (list_ascii_of_string (lstrip_hash color))).
Proof.
  split.
  - unfold _validate_hex_color. cbv zeta. rewrite lstrip_hashes.
    destruct n as [|n]; [reflexivity|].
    cbn [hashes String.append String.eqb].
    destruct color as [|ch rest]; [|reflexivity].
    cbn [String.eqb]. rewrite <- (lstrip_hashes n ""). 
    destruct (lstrip_hash (String.append (hashes n) "")) eqn:E; [reflexivity|].
    rewrite lstrip_hashes in E. discriminate.
  - unfold _validate_hex_color. cbv zeta.
    destruct color as [|ch rest].
    + cbn. split; [discriminate | intros [? _]; discriminate].
    + cbn [String.eqb]. rewrite andb_true_iff, Nat.eqb_eq, forallb_forall, Forall_forall.
      split; intros [Hlen Hall]; (split; [exact Hlen|]); intros x Hx;
        apply Hall; apply list_elem_of_In; exact Hx.
Qed.

(** X8.  Subtracting a timestamp without a time zone from the clock
    raises, and [process] turns the exception into a rejection: a vehicle
    position or a trip update with such a timestamp is rejected whatever
    its other fields and whatever the rules. *)
Theorem naive_timestamps_are_rejected
    (ft : Z → Z → string + bool) (now : Z) (rules : Rules)
    (position : VehiclePosition) (update : TripUpdate) :
  let validate := process ft (timestamp_age_check false now) rules in
  validate (DVehiclePosition position) = None
  ∧ validate (DTripUpdate update) = None.
Proof.
  cbv zeta. split; cbn [process].
  - unfold _validate_vehicle_position, timestamp_age_check.
    repeat (destruct (negb _); [reflexivity|]). reflexivity.
  - unfold _validate_trip_update, timestamp_age_check.
    destruct (negb _); reflexivity.
Qed.

(** X9.  With the rules of the source, a trip update whose timestamp has
    a time zone is accepted exactly when its trip id is not blank (it does
    not hold white space only, of ASCII or beyond), its
    timestamp is at most one hour behind the clock (any timestamp ahead of
    the clock passes) and its delay, if any, lies within an hour either
    way. *)
Theorem trip_update_acceptance
    (ft : Z → Z → string + bool) (now : Z) (update : TripUpdate) :
  let validate := process ft (timestamp_age_check true now) _setup_validation_rules in
  (validate (DTripUpdate update) = Some (DTripUpdate update)
   ↔ Py.is_blank (u_trip_id update) = false
     ∧ now - u_timestamp update ≤ 3600 * 1000000
     ∧ (∀ d, u_delay update = Some d → -3600 ≤ d ≤ 3600))
  ∧ (now ≤ u_timestamp update → Py.is_blank (u_trip_id update) = false →
     u_delay update = None →
     validate (DTripUpdate update) = Some (DTripUpdate update)).
Proof.
  cbv zeta.
  assert (Hiff : process ft (timestamp_age_check true now) _setup_validation_rules
                   (DTripUpdate update) = Some (DTripUpdate update)
                 ↔ Py.is_blank (u_trip_id update) = false
                   ∧ now - u_timestamp update ≤ 3600 * 1000000
                   ∧ (∀ d, u_delay update = Some d → -3600 ≤ d ≤ 3600)).
  { cbn [process]. rewrite caught_accepts by congruence.
    unfold _validate_trip_update, timestamp_age_check.
    cbn [trip_update_required_fields trip_update_max_age
         _setup_validation_rules _check_required_fields getattr String.eqb
         Ascii.eqb Bool.eqb].
    destruct (Py.is_blank (u_trip_id update)); [cbn; intuition congruence|].
    cbn [negb]. change (hours 1) with (3600 * 1000000).
    destruct (Z.leb_spec (now - u_timestamp update) (3600 * 1000000)) as [Hage|Hage].
    - destruct (u_delay update) as [d|].
      + pose proof (validate_range_Z d (-3600) 3600) as Hrange.
        change (inject_Z (-3600), inject_Z 3600) with ((-3600)%Q, 3600%Q) in Hrange.
        destruct (_validate_range (inject_Z d) (-3600, 3600)%Q).
        * split; [|reflexivity]. intros _.
          split; [reflexivity|]. split; [assumption|].
          intros d' [= <-]. apply Hrange. reflexivity.
        * split; [discriminate|]. intros (_ & _ & Hd).
          specialize (Hd d eq_refl). apply Hrange in Hd. discriminate.
      + split; [|reflexivity]. intros _.
        split; [reflexivity|]. split; [assumption | discriminate].
    - split; [discriminate|]. intros (_ & Hle & _). lia. }
  split; [exact Hiff|].
  intros Hahead Hid Hdelay. apply Hiff.
  split; [exact Hid|]. split; [lia|].
  intros d Hd. congruence.
Qed.

Lemma trip_update_acceptance_witness :
  validate_at 0 (DTripUpdate (update_at 86400000000 None))
  = Some (DTripUpdate (update_at 86400000000 None))
  ∧ validate_at 0 (DTripUpdate unnamed_update) ≠ Some (DTripUpdate unnamed_update).
Proof.
  split.
  - destruct (trip_update_acceptance future_time_check 0 (update_at 86400000000 None))
      as [_ Hahead].
    apply Hahead; [cbn; lia | reflexivity | reflexivity].
  - destruct (trip_update_acceptance future_time_check 0 unnamed_update) as [[Hnamed _] _].
    intros Haccepted. apply Hnamed in Haccepted as (Hblank & _).
    vm_compute in Hblank. discriminate.
Defined.

End AcceptanceFacts.

(** ** REST ingestor: how often a failing request is sent *)

Section RetryStackFacts.
Import RestIngestor RestRetry Examples.

Context {Payload : Type}.

Lemma except_admissions (cfg : Config) (stack callers : list nat) (retries : nat)
    (st st' : State) :
  except_ClientError cfg stack st = Some (retries, callers, st') →
  admissions (trace st') = admissions (trace st).
Proof.
  induction stack as [|r stack IH]; cbn [except_ClientError]; [discriminate|].
  destruct (_ <? _); [|exact IH].
  intros [= <- <- <-]. apply sleep_admissions.
Qed.

(** The same frame when the transport fails every time: each failure is
    retried from the [except] clause, outside the [try], and [k + 1]
    requests are sent. *)
Lemma transport_failures_frame (cfg : Config) (m : nat) :
  0 < rate_limit_requests_per_minute cfg →
  max_retries cfg = Z.of_nat m →
  ∀ (k retries : nat) (callers : list nat) (rest : list (Attempt Payload)) (st : State),
    (retries + k = m)%nat →
    ∃ st',
      _make_request cfg (repeat Fails (S k) ++ rest) callers retries st
      = handed_up cfg ClientError rest callers st'
      ∧ length (admissions (trace st')) = (length (admissions (trace st)) + S k)%nat.
Proof.
  intros Hquota Hmax. induction k as [|k IH]; intros retries callers rest st Hk;
    destruct (check_rate_limit_returns cfg st Hquota) as [st1 Hadmit].
  - exists st1. split; [|rewrite (check_rate_limit_admits _ _ _ Hadmit); lia].
    cbn [repeat app _make_request]. rewrite Hadmit.
    cbn [except_ClientError]. rewrite (proj2 (Z.ltb_ge _ _)) by lia. reflexivity.
  - destruct (IH (S retries) callers rest
                (sleep RequestFailed (backoff cfg retries) st1) ltac:(lia))
      as (st2 & Hrun2 & Hcount2).
    exists st2. split.
    + change (repeat Fails (S (S k)) ++ rest)
        with (@Fails Payload :: (repeat Fails (S k) ++ rest)).
      cbn [_make_request]. rewrite Hadmit. cbn [except_ClientError].
      rewrite (proj2 (Z.ltb_lt (Z.of_nat retries) (max_retries cfg))) by lia.
      exact Hrun2.
    + rewrite Hcount2, sleep_admissions, (check_rate_limit_admits _ _ _ Hadmit). lia.
Qed.

(** X10.  A retry of the 5xx branch is awaited inside the [try], so the
    error it ends with is caught again by the frame that made it.  Against
    a server that answers nothing but a 5xx status, a call with
    [max_retries = m] therefore sends [2 ^ (m + 1) - 1] requests before it
    raises the error; against a transport that fails every time it sends
    [m + 1]. *)
Theorem server_errors_are_retried_exponentially (cfg : Config) (m : nat) (status : Z)
    (body : Payload) (rest : list (Attempt Payload)) (st : State) :
  0 < rate_limit_requests_per_minute cfg →
  max_retries cfg = Z.of_nat m →
  500 ≤ status →
  (∃ st',
     _make_request cfg (repeat (Responds status Absent body) (2 ^ S m - 1) ++ rest) [] 0 st
     = (st', Some (Raises (ClientResponseError status)))
     ∧ length (admissions (trace st'))
       = (length (admissions (trace st)) + (2 ^ S m - 1))%nat)
  ∧ (∃ st',
     _make_request cfg (repeat Fails (S m) ++ rest) [] 0 st
     = (st', Some (Raises ClientError))
     ∧ length (admissions (trace st')) = (length (admissions (trace st)) + S m)%nat).
Proof.
  intros Hquota Hmax Hstatus. split.
  - destruct (server_errors_frame cfg m status body Hquota Hmax Hstatus m 0%nat [] rest st
                eq_refl) as (st' & Hrun & Hcount).
    exists st'. split; [exact Hrun | exact Hcount].
  - destruct (transport_failures_frame cfg m Hquota Hmax m 0%nat [] rest st eq_refl)
      as (st' & Hrun & Hcount).
    exists st'. split; [exact Hrun | exact Hcount].
Qed.

Lemma check_rate_limit_raises (cfg : Config) (st st' : State) (e : Exception) :
  _check_rate_limit cfg st = (st', inl e) → e = IndexError.
Proof.
  unfold _check_rate_limit. cbv zeta.
  destruct (filter (λ ts, clock st - minute < ts) (request_timestamps st)) as [|oldest rest];
    destruct (_ <=? _); intros Hrun; inversion Hrun; reflexivity.
Qed.

Lemma below_weaken (callers : list nat) (c c' : nat) :
  (c ≤ c')%nat → below c callers → below c' callers.
Proof. destruct callers as [|x callers]; cbn; [tauto|]. intros ? [? ?]. split; [lia|assumption]. Qed.

(** The frame that catches the exception had retries left, lies no higher
    than the frame that raised, and the frames under it are as before. *)
Lemma except_resumes (cfg : Config) (callers callers' : list nat) (retries retries' : nat)
    (st st' : State) :
  below retries callers →
  except_ClientError cfg (retries :: callers) st = Some (retries', callers', st') →
  (retries' ≤ S retries)%nat ∧ Z.of_nat retries' ≤ max_retries cfg
  ∧ below retries' callers'
  ∧ admissions (trace st') = admissions (trace st).
Proof.
  revert retries. induction callers as [|c callers IH]; intros retries Hbelow;
    cbn [except_ClientError]; destruct (Z.ltb_spec (Z.of_nat retries) (max_retries cfg)).
  - intros [= <- <- <-]. repeat split; [lia | lia | apply sleep_admissions].
  - discriminate.
  - intros [= <- <- <-]. cbn in Hbelow. destruct Hbelow as [Hc Hbelow].
    split; [lia|]. split; [lia|]. split; [|apply sleep_admissions].
    cbn. split; [lia | exact Hbelow].
  - intros Hrun. cbn in Hbelow. destruct Hbelow as [Hc Hbelow].
    destruct (IH c Hbelow Hrun) as (Hle & Hmax & Hbelow' & Hsame).
    split; [lia|]. split; [exact Hmax|]. split; [exact Hbelow' | exact Hsame].
Qed.

Lemma except_gives_up (cfg : Config) (callers : list nat) (retries : nat) (st : State) :
  except_ClientError cfg (retries :: callers) st = None →
  max_retries cfg ≤ Z.of_nat retries.
Proof.
  cbn [except_ClientError].
  destruct (Z.ltb_spec (Z.of_nat retries) (max_retries cfg)); [discriminate | lia].
Qed.

Lemma gives_up_bound (cfg : Config) (script : list (Attempt Payload)) :
  ∀ (callers : list nat) (retries : nat) (st st' : State) (e : Exception),
    below retries callers →
    _make_request cfg script callers retries st = (st', Some (Raises e)) →
    is_ClientError e = true →
    Z.of_nat (length (admissions (trace st))) + (max_retries cfg + 1 - Z.of_nat retries)
    ≤ Z.of_nat (length (admissions (trace st'))).
Proof.
  induction script as [|attempt rest IH]; intros callers retries st st' e Hbelow Hrun He;
    cbn [_make_request] in Hrun;
    destruct (_check_rate_limit cfg st) as [st1 [e1|[]]] eqn:Hadmit;
    try (injection Hrun as <- <-; apply check_rate_limit_raises in Hadmit; subst e1;
         discriminate);
    try discriminate.
  pose proof (check_rate_limit_admits _ _ _ Hadmit) as Hcount.
  assert (Hraised : ∀ e0,
            match except_ClientError cfg (retries :: callers) st1 with
            | Some (retries', callers', st'') => _make_request cfg rest callers' retries' st''
            | None => (st1, Some (Raises e0))
            end = (st', Some (Raises e)) →
            Z.of_nat (length (admissions (trace st))) + (max_retries cfg + 1 - Z.of_nat retries)
            ≤ Z.of_nat (length (admissions (trace st')))).
  { intros e0 Hraised.
    destruct (except_ClientError cfg (retries :: callers) st1)
      as [[[retries' callers'] st'']|] eqn:Hexcept.
    - destruct (except_resumes _ _ _ _ _ _ _ Hbelow Hexcept) as (Hle & Hmax & Hbelow' & Hsame).
      pose proof (IH callers' retries' st'' st' e Hbelow' Hraised He) as Hbound.
      rewrite Hsame in Hbound. lia.
    - injection Hraised as <- _. apply except_gives_up in Hexcept. lia. }
  destruct attempt as [status retry_after body|]; [|exact (Hraised ClientError Hrun)].
  destruct (status =? 200); [discriminate|].
  destruct (status =? 429).
  { destruct (retry_after_of retry_after) as [e1|n] eqn:Hhint.
    - injection Hrun as _ <-. destruct retry_after; cbn in Hhint; try discriminate.
      injection Hhint as <-. discriminate.
    - assert (Hpush : below (S retries) (retries :: callers)) by (cbn; split; [lia|assumption]).
      pose proof (IH _ _ _ st' e Hpush Hrun He) as Hbound.
      rewrite sleep_admissions in Hbound. lia. }
  destruct ((500 <=? status) && (Z.of_nat retries <? max_retries cfg)).
  { assert (Hpush : below (S retries) (retries :: callers)) by (cbn; split; [lia|assumption]).
    pose proof (IH _ _ _ st' e Hpush Hrun He) as Hbound.
    rewrite sleep_admissions in Hbound. lia. }
  destruct (400 <=? status); [|discriminate].
  exact (Hraised (ClientResponseError status) Hrun).
Qed.

(** X11.  A call never gives up early: when it ends with a
    [ClientError] (a transport failure or a 4xx or 5xx status), the
    limiter has let at least [max_retries + 1] of its requests through. *)
Theorem request_gives_up_only_after_max_retries (cfg : Config)
    (script : list (Attempt Payload)) (st st' : State) (e : Exception) :
  _make_request cfg script [] 0 st = (st', Some (Raises e)) →
  is_ClientError e = true →
  Z.of_nat (length (admissions (trace st))) + max_retries cfg + 1
  ≤ Z.of_nat (length (admissions (trace st'))).
Proof.
  intros Hrun He.
  pose proof (gives_up_bound cfg script [] 0%nat st st' e I Hrun He). lia.
Qed.

End RetryStackFacts.

Lemma server_errors_are_retried_exponentially_witness :
  snd (RestRetry._make_request Examples.one_retry
         (repeat Examples.server_error 3 ++ [Examples.page]) [] 0 (RestIngestor.initial 0))
  = Some (RestIngestor.Raises (RestIngestor.ClientResponseError 500)).
Proof.
  destruct (server_errors_are_retried_exponentially Examples.one_retry 1 500 ""
              [Examples.page] (RestIngestor.initial 0))
    as [(st' & Hrun & _) _]; [reflexivity | reflexivity | lia |].
  change (2 ^ 2 - 1)%nat with 3%nat in Hrun.
  change (RestIngestor.Responds 500 RestIngestor.Absent "") with Examples.server_error in Hrun.
  rewrite Hrun. reflexivity.
Defined.

(** With [max_retries = 1], a 429 answer followed by a 500 and a page.
    The 500 is raised by the second frame, whose counter has reached the
    limit, and caught by the first, which waited for it inside its [try]
    and has its retry left: the page is returned. *)
Lemma rate_limited_frame_retries_once_more :
  snd (RestRetry._make_request Examples.one_retry
         [Examples.too_many_requests 1; Examples.server_error; Examples.page] [] 0
         (RestIngestor.initial 0))
  = Some (RestIngestor.Returns (Some "data")).
Proof. vm_compute. reflexivity. Qed.

Lemma request_gives_up_only_after_max_retries_witness :
  0 + 1 + 1
  ≤ Z.of_nat (length (RestIngestor.admissions
       (RestIngestor.trace
          (fst (RestRetry._make_request Examples.one_retry
                  [@RestIngestor.Fails string; RestIngestor.Fails] [] 0
                  (RestIngestor.initial 0)))))).
Proof.
  apply (request_gives_up_only_after_max_retries (Payload := string) Examples.one_retry
           [RestIngestor.Fails; RestIngestor.Fails] (RestIngestor.initial 0) _
           RestIngestor.ClientError);
    [vm_compute; reflexivity | reflexivity].
Defined.

(** ** Polling engine: the counters and the end of the loop *)

Section CounterFacts.
Import Ingestion Examples.

Context {World Raw Rec : Type} `{Source World Raw Rec}.

(** One cycle moves the counters as its result tells. *)
Lemma poll_counters (callback : option Callback) (self : BaseIngestor) (w : World) :
  let self' := fst (fst (fst (poll callback self w))) in
  let c := snd (fst (poll callback self w)) in
  total_errors self' = (total_errors self + failures [c])%nat
  ∧ total_records_ingested self' = (total_records_ingested self + records [c])%nat
  ∧ consecutive_failures self' = streak_step (consecutive_failures self) c
  ∧ is_running self' = is_running self.
Proof.
  cbv zeta. unfold failures. rewrite filter_cons, filter_nil.
  unfold poll, ingest, is_successful, streak_step, records.
  destruct (fetch_data w) as [w1 [e|[|x raw]]];
    [| |destruct (transform_data (x :: raw) w1) as [w2 [e|[|y transformed]]]];
    (destruct callback as [cb|];
     [try match goal with |- context [cb ?r ?w'] => destruct (cb r w') as [w3 r3] end|]);
    cbn; repeat split; try lia.
  all: try (rewrite decide_True by reflexivity; cbn; lia).
  all: rewrite decide_False by discriminate; cbn; lia.
Qed.

Lemma loop_counters (cycles : nat) (callback : option Callback) :
  ∀ (self : BaseIngestor) (w : World),
    let self' := fst (fst (loop cycles callback self w)) in
    let log := snd (loop cycles callback self w) in
    total_errors self' = (total_errors self + failures log)%nat
    ∧ total_records_ingested self' = (total_records_ingested self + records log)%nat
    ∧ consecutive_failures self' = streak (consecutive_failures self) log.
Proof.
  cbv zeta. induction cycles as [|cycles IH]; intros self w.
  - cbn. repeat split; lia.
  - cbn [loop]. destruct (is_running self); [|cbn; repeat split; lia].
    pose proof (poll_counters callback self w) as (He & Hr & Hc & _).
    destruct (poll callback self w) as [[[self1 w1] c1] r]. cbn [fst snd] in He, Hr, Hc.
    assert (Hcons : ∀ self2 (log : list Cycle),
              total_errors self2 = (total_errors self1 + failures log)%nat
              ∧ total_records_ingested self2
                = (total_records_ingested self1 + records log)%nat
              ∧ consecutive_failures self2 = streak (consecutive_failures self1) log →
              total_errors self2 = (total_errors self + failures (c1 :: log))%nat
              ∧ total_records_ingested self2
                = (total_records_ingested self + records (c1 :: log))%nat
              ∧ consecutive_failures self2
                = streak (consecutive_failures self) (c1 :: log)).
    { intros self2 log (He2 & Hr2 & Hc2).
      unfold failures, streak, records in *.
      rewrite filter_cons. rewrite filter_cons, filter_nil in He.
      cbn [foldl foldr] in *. rewrite <- Hc.
      destruct (decide _); cbn [length] in *; repeat split; lia || assumption. }
    destruct r as [e|[]].
    + cbn [fst snd]. apply (Hcons (set_running false self1) []). cbn. repeat split; lia.
    + destruct (sleep (polling_interval self1) w1) as [w2 wake]. destruct wake.
      * specialize (IH self1 w2).
        destruct (loop cycles callback self1 w2) as [[self3 w3] log]. cbn [fst snd] in *.
        apply Hcons, IH.
      * specialize (IH (stop self1) w2).
        destruct (loop cycles callback (stop self1) w2) as [[self3 w3] log].
        cbn [fst snd] in *. apply Hcons, IH.
      * cbn [fst snd]. apply (Hcons (set_running false self1) []). cbn. repeat split; lia.
Qed.

(** X12.  However a run of the polling loop goes, the counters of the
    ingestor agree with the results of its cycles: [total_errors] has
    grown by the number of failed cycles, [total_records_ingested] by the
    records they report, and [consecutive_failures] is the run of failures
    at the end, which only a cycle that transformed data resets: a cycle
    whose fetch returned nothing is a success and leaves it, and with it a
    degraded health status, as it was. *)
Theorem counters_follow_the_cycles (cycles : nat) (callback : option Callback)
    (self : BaseIngestor) (w : World) :
  let self' := fst (fst (run_continuous cycles callback self w)) in
  let log := snd (run_continuous cycles callback self w) in
  total_errors self' = (total_errors self + failures log)%nat
  ∧ total_records_ingested self' = (total_records_ingested self + records log)%nat
  ∧ consecutive_failures self' = streak (consecutive_failures self) log
  ∧ (health_check self' = "degraded" ↔ (5 ≤ streak (consecutive_failures self) log)%nat).
Proof.
  cbv zeta. unfold run_continuous.
  destruct (loop_counters cycles callback (set_running true self) w) as (He & Hr & Hc).
  cbn [set_running total_errors total_records_ingested consecutive_failures] in He, Hr, Hc.
  split; [exact He|]. split; [exact Hr|]. split; [exact Hc|].
  unfold health_check. rewrite Hc.
  destruct (Nat.ltb_spec (streak (consecutive_failures self)
                            (snd (loop cycles callback (set_running true self) w))) 5);
    split; intros; try lia; try discriminate; reflexivity.
Qed.

(** The loop leaves the ingestor stopped unless it is cut short, and a
    subscriber that raises is the end of it. *)
Lemma loop_ends (cycles : nat) (callback : Callback) :
  (∀ result w, ∃ w' e, callback result w = (w', inl e)) →
  ∀ (self : BaseIngestor) (w : World),
    let self' := fst (fst (loop cycles (Some callback) self w)) in
    let log := snd (loop cycles (Some callback) self w) in
    (length log ≤ cycles)%nat
    ∧ ((length log < cycles)%nat → is_running self' = false)
    ∧ ∀ i c, log !! i = Some c → callback_argument c ≠ None →
             S i = length log ∧ is_running self' = false.
Proof.
  intros Hraises. cbv zeta. induction cycles as [|cycles IH]; intros self w.
  - cbn. split; [lia|]. split; [lia|]. intros i c Hc. discriminate.
  - cbn [loop]. destruct (is_running self).
    2:{ cbn. split; [lia|]. split; [reflexivity|]. intros i c Hc. discriminate. }
    pose proof (poll_cycle (Some callback) self w) as [_ Hhanded].
    assert (Hpoll : ∀ r, callback_argument (snd (fst (poll (Some callback) self w))) = Some r →
                         ∃ e, snd (poll (Some callback) self w) = inl e).
    { unfold poll. destruct (ingest self w) as [[self1 w1] result].
      destruct (is_successful result); [|cbn; discriminate].
      destruct (Hraises result w1) as (w' & e & ->). cbn. eauto. }
    destruct (poll (Some callback) self w) as [[[self1 w1] c1] r]. cbn [fst snd] in *.
    destruct r as [e|[]].
    + cbn. split; [lia|]. split; [reflexivity|].
      intros [|i] c Hc Harg; [split; reflexivity | discriminate].
    + assert (Hquiet : callback_argument c1 = None).
      { destruct (callback_argument c1) as [r|] eqn:Harg; [|reflexivity].
        destruct (Hpoll r eq_refl) as [e He]. discriminate. }
      destruct (sleep (polling_interval self1) w1) as [w2 wake]. destruct wake.
      * specialize (IH self1 w2).
        destruct (loop cycles (Some callback) self1 w2) as [[self3 w3] log].
        cbn [fst snd length] in *. destruct IH as (Hlen & Hstopped & Hlast).
        split; [lia|]. split; [intros; apply Hstopped; lia|].
        intros [|i] c Hc Harg; cbn in Hc.
        -- injection Hc as <-. contradiction.
        -- destruct (Hlast i c Hc Harg) as [<- ?]. split; [reflexivity | assumption].
      * specialize (IH (stop self1) w2).
        destruct (loop cycles (Some callback) (stop self1) w2) as [[self3 w3] log].
        cbn [fst snd length] in *. destruct IH as (Hlen & Hstopped & Hlast).
        split; [lia|]. split; [intros; apply Hstopped; lia|].
        intros [|i] c Hc Harg; cbn in Hc.
        -- injection Hc as <-. contradiction.
        -- destruct (Hlast i c Hc Harg) as [<- ?]. split; [reflexivity | assumption].
      * cbn. split; [lia|]. split; [reflexivity|].
        intros [|i] c Hc Harg; cbn in Hc; [|discriminate].
        injection Hc as <-. contradiction.
Qed.

(** X13.  A subscriber that raises is never called again: the
    exception leaves the loop, so the cycle in which the subscriber was
    called is the last one of the run and the ingestor is left stopped. *)
Theorem raising_subscriber_ends_the_polling (cycles : nat) (callback : Callback)
    (self : BaseIngestor) (w : World) (i : nat) (c : Cycle) :
  (∀ result w, ∃ w' e, callback result w = (w', inl e)) →
  let self' := fst (fst (run_continuous cycles (Some callback) self w)) in
  let log := snd (run_continuous cycles (Some callback) self w) in
  log !! i = Some c →
  callback_argument c ≠ None →
  S i = length log ∧ is_running self' = false.
Proof.
  intros Hraises. cbv zeta. unfold run_continuous.
  destruct (loop_ends cycles callback Hraises (set_running true self) w) as (_ & _ & Hlast).
  apply Hlast.
Qed.

End CounterFacts.

Lemma raising_subscriber_ends_the_polling_witness :
  let run :=
    @Ingestion.run_continuous _ _ _ Examples.scripted_source 3
      (Some Examples.raising_subscriber) Examples.idle_ingestor
      [inr ["a"]; inr ["b"]] in
  1%nat = length (snd run) ∧ Ingestion.is_running (fst (fst run)) = false.
Proof.
  cbv zeta.
  assert (Hc : ∃ c,
             snd (@Ingestion.run_continuous _ _ _ Examples.scripted_source 3
                    (Some Examples.raising_subscriber) Examples.idle_ingestor
                    [inr ["a"]; inr ["b"]]) !! 0%nat = Some c
             ∧ Ingestion.callback_argument c ≠ None).
  { vm_compute. eexists. split; [reflexivity | discriminate]. }
  destruct Hc as (c & Hc & Harg).
  apply (@raising_subscriber_ends_the_polling _ _ _ Examples.scripted_source 3
           Examples.raising_subscriber Examples.idle_ingestor [inr ["a"]; inr ["b"]] 0%nat c);
    [|exact Hc | exact Harg].
  intros result w. exists w, "subscriber failed". reflexivity.
Defined.

(** ** REST ingestor: how long the limiter waits *)

Section LimiterWaits.
Import RestIngestor Examples.

Lemma elapse_keeps_the_past (gap : Z) (st : State) :
  window_in_the_past st → window_in_the_past (elapse gap st).
Proof.
  unfold window_in_the_past. cbn [elapse clock request_timestamps].
  intros Hpast. eapply Forall_impl; [exact Hpast|]. cbn. intros ts Hts. lia.
Qed.

(** One call of the limiter, made with no timestamp ahead of the clock. *)
Lemma check_rate_limit_step (cfg : Config) (st : State) :
  0 < rate_limit_requests_per_minute cfg →
  window_in_the_past st →
  ∃ st' ds,
    _check_rate_limit cfg st = (st', inr tt)
    ∧ window_in_the_past st'
    ∧ waits RateLimitReached (trace st') = waits RateLimitReached (trace st) ++ ds
    ∧ Forall (λ d, 0 < d ≤ minute) ds
    ∧ (Z.of_nat (length (request_timestamps st)) < rate_limit_requests_per_minute cfg →
       ds = [])
    ∧ (length (request_timestamps st') ≤ S (length (request_timestamps st)))%nat.
Proof.
  intros Hquota Hpast. unfold _check_rate_limit. cbv zeta.
  assert (Hkept : ∀ ts, ts ∈ filter (λ ts, clock st - minute < ts) (request_timestamps st) →
                        clock st - minute < ts ≤ clock st).
  { intros ts Hts. apply list_elem_of_filter in Hts as [Hnew Hin].
    unfold window_in_the_past in Hpast. rewrite Forall_forall in Hpast.
    specialize (Hpast ts Hin). lia. }
  pose proof (length_filter (λ ts, clock st - minute < ts) (request_timestamps st)) as Hshort.
  destruct (filter (λ ts, clock st - minute < ts) (request_timestamps st))
    as [|oldest rest] eqn:Hfilter.
  - cbn [length]. rewrite (proj2 (Z.leb_gt _ _)) by (cbn; lia).
    eexists _, []. split; [reflexivity|]. cbn [clock request_timestamps trace].
    split.
    { unfold window_in_the_past. cbn [clock request_timestamps]. repeat constructor. lia. }
    split.
    { unfold waits. rewrite omap_app. cbn. rewrite !app_nil_r. reflexivity. }
    split; [constructor|]. split; [reflexivity|]. cbn. lia.
  - destruct (Z.leb_spec (rate_limit_requests_per_minute cfg)
                (Z.of_nat (length (oldest :: rest)))) as [Hfull|Hroom].
    + pose proof (Hkept oldest ltac:(left)) as Holdest.
      eexists _, [oldest - (clock st - minute)]. split; [reflexivity|].
      cbn [clock request_timestamps trace sleep].
      split.
      { unfold window_in_the_past. cbn [clock request_timestamps].
        apply Forall_app. split; [|repeat constructor; lia].
        apply Forall_forall. intros ts Hts. specialize (Hkept ts Hts). lia. }
      split.
      { unfold waits. rewrite !omap_app. cbn.
        rewrite decide_True by reflexivity. rewrite !app_nil_r. reflexivity. }
      split; [repeat constructor; lia|]. split; [intros Hfew; lia|].
      rewrite length_app. cbn [length] in *. lia.
    + eexists _, []. split; [reflexivity|]. cbn [clock request_timestamps trace].
      split.
      { unfold window_in_the_past. cbn [clock request_timestamps].
        apply Forall_app. split; [|repeat constructor; lia].
        apply Forall_forall. intros ts Hts. specialize (Hkept ts Hts). lia. }
      split.
      { unfold waits. rewrite omap_app. cbn. rewrite !app_nil_r. reflexivity. }
      split; [constructor|]. split; [reflexivity|].
      rewrite length_app. cbn [length] in *. lia.
Qed.

Lemma admit_all_waits (cfg : Config) (gaps : list Z) :
  0 < rate_limit_requests_per_minute cfg →
  ∀ st, window_in_the_past st →
    ∃ st' ds,
      admit_all cfg gaps st = (st', inr tt)
      ∧ window_in_the_past st'
      ∧ waits RateLimitReached (trace st') = waits RateLimitReached (trace st) ++ ds
      ∧ Forall (λ d, 0 < d ≤ minute) ds
      ∧ length (admissions (trace st'))
        = (length (admissions (trace st)) + length gaps)%nat.
Proof.
  intros Hquota. induction gaps as [|gap gaps IH]; intros st Hpast.
  - exists st, []. cbn. rewrite app_nil_r. repeat split; [assumption | constructor | lia].
  - destruct (check_rate_limit_step cfg (elapse gap st) Hquota
                (elapse_keeps_the_past gap st Hpast))
      as (st1 & ds1 & Hrun1 & Hpast1 & Hwaits1 & Hds1 & _ & _).
    destruct (IH st1 Hpast1) as (st2 & ds2 & Hrun2 & Hpast2 & Hwaits2 & Hds2 & Hcount2).
    exists st2, (ds1 ++ ds2). cbn [admit_all]. rewrite Hrun1.
    split; [exact Hrun2|]. split; [exact Hpast2|].
    split; [rewrite Hwaits2, Hwaits1, app_assoc; reflexivity|].
    split; [apply Forall_app; split; assumption|].
    rewrite Hcount2, (check_rate_limit_admits _ _ _ Hrun1). cbn [elapse trace length]. lia.
Qed.

(** X14.  With a positive quota a caller that goes through the limiter
    again and again is let through every time, no call raises, and no
    wait of the limiter is longer than a minute or shorter than nothing;
    a call that finds fewer than the quota of timestamps in the last
    minute does not wait at all. *)
Theorem rate_limiter_waits_at_most_a_minute (cfg : Config) (gaps : list Z) (now : Z) :
  0 < rate_limit_requests_per_minute cfg →
  let out := admit_all cfg gaps (initial now) in
  snd out = inr tt
  ∧ length (admissions (trace (fst out))) = length gaps
  ∧ Forall (λ d, 0 < d ≤ minute) (waits RateLimitReached (trace (fst out)))
  ∧ (Z.of_nat (length gaps) ≤ rate_limit_requests_per_minute cfg →
     waits RateLimitReached (trace (fst out)) = []).
Proof.
  intros Hquota. cbv zeta.
  destruct (admit_all_waits cfg gaps Hquota (initial now) ltac:(constructor))
    as (st' & ds & Hrun & _ & Hwaits & Hds & Hcount).
  rewrite Hrun. cbn [fst snd]. cbn in Hwaits, Hcount.
  split; [reflexivity|]. split; [exact Hcount|]. split; [rewrite Hwaits; exact Hds|].
  intros Hfew.
  assert (Hnone : ∀ gaps st,
            window_in_the_past st →
            Z.of_nat (length (request_timestamps st) + length gaps)
            ≤ rate_limit_requests_per_minute cfg →
            waits RateLimitReached (trace (fst (admit_all cfg gaps st)))
            = waits RateLimitReached (trace st)).
  { clear - Hquota. induction gaps as [|gap gaps IH]; intros st Hpast Hfew; [reflexivity|].
    cbn [admit_all].
    destruct (check_rate_limit_step cfg (elapse gap st) Hquota
                (elapse_keeps_the_past gap st Hpast))
      as (st1 & ds1 & Hrun1 & Hpast1 & Hwaits1 & _ & Hfree & Hlen).
    rewrite Hrun1. cbn [elapse request_timestamps trace] in Hwaits1, Hfree, Hlen.
    cbn [length] in Hfew.
    rewrite Hfree, app_nil_r in Hwaits1 by lia. rewrite <- Hwaits1.
    apply IH; [exact Hpast1 | lia]. }
  specialize (Hnone gaps (initial now)).
  rewrite Hrun in Hnone. cbn [fst] in Hnone. apply Hnone; [constructor | cbn; lia].
Qed.

Lemma rate_limiter_waits_at_most_a_minute_witness :
  waits RateLimitReached
    (trace (fst (admit_all one_per_minute [0; 1 * second; 0] (initial 0))))
  = [59 * second; 1 * second]
  ∧ Forall (λ d, 0 < d ≤ minute)
      (waits RateLimitReached
         (trace (fst (admit_all one_per_minute [0; 1 * second; 0] (initial 0))))).
Proof.
  split; [vm_compute; reflexivity|].
  destruct (rate_limiter_waits_at_most_a_minute one_per_minute [0; 1 * second; 0] 0)
    as (_ & _ & Hwaits & _); [reflexivity | exact Hwaits].
Defined.

End LimiterWaits.

(** ** Persistence gateway: first writes win *)

Section FirstWrites.
Import Transit Storage Examples.

Variable auto_seed_missing_entities : bool.

Ltac run_gateway H :=
  unfold bind, query, ret, add_flush, uuid4, next_fault, rolled_back in H; cbn in H;
  repeat case_match; simplify_eq; cbn in *.

Lemma tables_grow_refl (t : Tables) : tables_grow t t.
Proof. unfold tables_grow. repeat split; reflexivity. Qed.

(** X15.  An alert is stored once per [alert_id]: once [_store_alert]
    has returned, storing any alert with the same [alert_id], changed or
    not, returns the id of the row of the first one and writes nothing. *)
Theorem store_alert_keeps_the_first_version (alert alert' : Alert) (s s1 : Session)
    (id : StoredId) :
  _store_alert alert s = (s1, inr id) →
  alert_id alert' = alert_id alert →
  _store_alert alert' s1 = (s1, inr id)
  ∧ ∃ row, first (λ r, String.eqb (a_alert_id r) (alert_id alert)) (alerts (tables s1))
           = Some row
           ∧ id = Uuid (a_id row)
           ∧ (first (λ r, String.eqb (a_alert_id r) (alert_id alert)) (alerts (tables s)) = None →
              a_alert_header_text row = alert_header_text alert
              ∧ alerts (tables s1) = alerts (tables s) ++ [row]).
Proof.
  intros Hrun Hsame.
  assert (Hrow : ∃ row,
            first (λ r, String.eqb (a_alert_id r) (alert_id alert)) (alerts (tables s1))
            = Some row
            ∧ id = Uuid (a_id row)
            ∧ (first (λ r, String.eqb (a_alert_id r) (alert_id alert)) (alerts (tables s))
               = None →
               a_alert_header_text row = alert_header_text alert
               ∧ alerts (tables s1) = alerts (tables s) ++ [row])).
  { pose proof (bind_query_open _ _ _ _ _ Hrun) as Hopen.
    unfold _store_alert in Hrun. unfold bind at 1, query in Hrun.
    rewrite Hopen in Hrun.
    destruct (first _ (alerts (tables s))) as [existing|] eqn:Hfirst.
    - unfold ret in Hrun. injection Hrun as <- <-.
      exists existing. split; [exact Hfirst|]. split; [reflexivity | discriminate].
    - run_gateway Hrun;
        (eexists;
         split; [apply first_last; [exact Hfirst | cbn; apply String.eqb_refl]|];
         split; [reflexivity|]; intros _; split; reflexivity). }
  split; [|exact Hrow].
  destruct Hrow as (row & Hfirst & -> & _).
  unfold _store_alert. unfold bind at 1, query.
  rewrite (returns_open _ _ _ _ (store_alert_transactional alert)
             (bind_query_open _ _ _ _ _ Hrun) Hrun).
  rewrite Hsame, Hfirst. reflexivity.
Qed.

Lemma store_alert_keeps_the_first_version_witness :
  ∃ s1 id,
    _store_alert (delay_alert "Delays of 10 minutes") empty_database = (s1, inr id)
    ∧ _store_alert (delay_alert "Delays of 30 minutes") s1 = (s1, inr id).
Proof.
  destruct (_store_alert (delay_alert "Delays of 10 minutes") empty_database)
    as [s1 [e|id]] eqn:Hrun; [vm_compute in Hrun; discriminate|].
  exists s1, id. split; [reflexivity|].
  apply (store_alert_keeps_the_first_version (delay_alert "Delays of 10 minutes")
           (delay_alert "Delays of 30 minutes") empty_database s1 id Hrun eq_refl).
Defined.

(** Storing a prediction only adds rows. *)
Lemma store_prediction_grows (prediction : Prediction) (s s1 : Session) (id : StoredId) :
  _store_prediction auto_seed_missing_entities prediction s = (s1, inr id) →
  tables_grow (tables s) (tables s1).
Proof.
  intros Hrun. unfold _store_prediction in Hrun.
  apply bind_returns in Hrun as (sa & [] & Hroute & Hrun).
  apply bind_returns in Hrun as (sb & [] & Hstop & Hrun).
  apply bind_returns in Hrun as (sc & [] & Htrip & Hrun).
  apply bind_returns in Hrun as (sd & [] & Hvehicle & Hrun).
  apply ensure_route_settles in Hroute as (_ & Hroute & _).
  apply ensure_stop_settles in Hstop as (_ & Hstop & _).
  apply ensure_trip_settles in Htrip as (_ & Htrip & _).
  apply seed_vehicle_settles in Hvehicle as (_ & Hvehicle & _).
  assert (Hlast : tables_grow (tables sd) (tables s1)).
  { pose proof (bind_query_open _ _ _ _ _ Hrun) as Hopen.
    unfold bind at 1, query in Hrun. rewrite Hopen in Hrun.
    destruct (first (same_key prediction) (predictions (tables sd))) as [existing|].
    - unfold ret in Hrun. injection Hrun as <- _. apply tables_grow_refl.
    - run_gateway Hrun; unfold tables_grow; cbn;
        repeat split; try reflexivity; apply prefix_app_r; reflexivity. }
  unfold tables_grow in *.
  destruct Hroute as (? & ? & ? & ? & ?), Hstop as (? & ? & ? & ? & ?),
    Htrip as (? & ? & ? & ? & ?), Hvehicle as (? & ? & ? & ? & ?),
    Hlast as (? & ? & ? & ? & ?).
  repeat split; repeat (etransitivity; [eassumption|]); reflexivity.
Qed.

(** X16.  Reference data never replace a placeholder.  When a prediction
    is stored for a route the database does not know, the route row that is
    created carries the made-up name and type 0; storing the route itself
    afterwards returns its key and writes nothing, so the placeholder
    stays. *)
Theorem placeholder_route_is_never_replaced (prediction : Prediction) (route : Route)
    (s s1 : Session) (id : StoredId) :
  first (λ r, String.eqb (r_id r) (p_route_id prediction)) (routes (tables s)) = None →
  _store_prediction auto_seed_missing_entities prediction s = (s1, inr id) →
  route_id route = p_route_id prediction →
  first (λ r, String.eqb (r_id r) (route_id route)) (routes (tables s1))
  = Some (placeholder_route (route_id route))
  ∧ _store_route route s1 = (s1, inr (Key (route_id route))).
Proof.
  intros Hunknown Hrun Hsame.
  assert (Hfirst : first (λ r, String.eqb (r_id r) (route_id route)) (routes (tables s1))
                   = Some (placeholder_route (route_id route))).
  { rewrite Hsame. pose proof Hrun as Hrun'. unfold _store_prediction in Hrun'.
    apply bind_returns in Hrun' as (sa & [] & Hroute & Hrest).
    pose proof (ensure_route_settles _ _ _ Hroute) as (Hsettled & _ & _).
    pose proof (bind_query_open _ _ _ _ _ Hroute) as Hopen.
    pose proof (returns_open _ _ _ _ (ensure_route_transactional _) Hopen Hroute) as Hopen_a.
    assert (Hplaced : first (λ r, String.eqb (r_id r) (p_route_id prediction))
                        (routes (tables sa))
                      = Some (placeholder_route (p_route_id prediction))).
    { unfold _ensure_route_exists in Hroute. unfold bind at 1, query in Hroute.
      rewrite Hopen, Hunknown in Hroute. apply add_flush_returns in Hroute. rewrite Hroute.
      cbn [add_route routes]. apply first_last; [exact Hunknown|].
      cbn. apply String.eqb_refl. }
    assert (Hagain : _store_prediction auto_seed_missing_entities prediction sa
                     = (s1, inr id)).
    { unfold _store_prediction. rewrite bind_settled; [exact Hrest|].
      apply Hsettled; [exact Hopen_a | apply tables_grow_refl]. }
    apply store_prediction_grows in Hagain as (Hroutes & _).
    exact (first_prefix _ _ _ _ Hplaced Hroutes). }
  split; [exact Hfirst|].
  destruct (store_prediction_stores _ _ _ _ _ Hrun) as (_ & _ & _ & _ & _ & _ & _ & _ & Hopen1).
  unfold _store_route. unfold bind at 1, query. rewrite Hopen1, Hfirst. reflexivity.
Qed.

(** The loop of [store_batch] passes over every object of an unknown
    class and counts it as stored. *)
Lemma store_each_unknown (class_names : list string) :
  ∀ (success_count error_count : nat) (s : Session),
    store_each auto_seed_missing_entities (map Other class_names) success_count error_count s
    = (s, inr ((success_count + length class_names)%nat, error_count)).
Proof.
  induction class_names as [|n names IH]; intros success_count error_count s.
  - cbn. unfold ret. rewrite Nat.add_0_r. reflexivity.
  - cbn [map store_each length]. unfold bind at 1, try_except. cbn.
    rewrite IH. do 3 f_equal. lia.
Qed.

(** X17.  The two entry points disagree on objects of an unknown class.
    [store_batch] has no [else] branch: in a database that accepts every
    write it reports each such object as stored and logs a batch of that
    many inserted records, though no table but the log has changed;
    [store_transit_data] refuses the object and writes nothing, not even a
    log row. *)
Theorem unknown_objects_count_as_stored (class_names : list string) (class_name : string)
    (source_type : string) (s : Session) :
  faults s = [] →
  let n := length class_names in
  let batch := store_batch auto_seed_missing_entities (map Other class_names) source_type s in
  let single := store_transit_data auto_seed_missing_entities (Other class_name) source_type s in
  snd batch = BatchDone n n 0
  ∧ tables (fst batch) = add_log (batch_log_row (next_uuid s) source_type n n 0) (tables s)
  ∧ snd single = NotStored (String.append "Unknown data type: " class_name)
  ∧ fst single = s.
Proof.
  intros Hfaults. cbv zeta.
  assert (Hbatch : store_batch auto_seed_missing_entities (map Other class_names)
                     source_type s
                   = ({| tables := add_log (batch_log_row (next_uuid s) source_type
                                              (length class_names) (length class_names) 0)
                                     (tables s);
                         next_uuid := N.succ (next_uuid s);
                         faults := [] |},
                      BatchDone (length class_names) (length class_names) 0)).
  { unfold store_batch, with_session, get_db_async. rewrite Hfaults. cbv zeta.
    unfold bind at 1. rewrite store_each_unknown. cbn [fst snd Nat.add].
    rewrite length_map.
    unfold bind, _log_ingestion, uuid4, add_flush, close_db_async, next_fault, ret.
    cbn. rewrite Hfaults. cbn. reflexivity. }
  rewrite Hbatch. cbn [fst snd tables].
  split; [reflexivity|]. split; [reflexivity|].
  unfold store_transit_data, with_session, get_db_async, close_db_async, next_fault, ret.
  rewrite Hfaults. cbn. rewrite Hfaults. cbn. destruct s; cbn in *; subst; split; reflexivity.
Qed.

(** In a database that accepts every write, storing a prediction returns
    and leaves the database as willing. *)
Lemma store_prediction_accepts (prediction : Prediction) (s : Session) :
  faults s = [] →
  ∃ s1 id1,
    _store_prediction auto_seed_missing_entities prediction s = (s1, inr id1)
    ∧ faults s1 = [].
Proof.
  intros Hnone. unfold _store_prediction.
  destruct (ensure_route_accepting (p_route_id prediction) s Hnone) as (sa & Ha & Hna).
  destruct (ensure_stop_accepting (p_stop_id prediction) sa Hna) as (sb & Hb & Hnb).
  destruct (ensure_trip_accepting (p_trip_id prediction) sb Hnb) as (sc & Hc & Hnc).
  destruct (seed_vehicle_accepting auto_seed_missing_entities (p_vehicle_id prediction)
              (vehicle_label prediction) sc Hnc) as (sd & Hd & Hnd).
  unfold bind at 1. rewrite Ha. unfold bind at 1. rewrite Hb.
  unfold bind at 1. rewrite Hc. unfold bind at 1. rewrite Hd.
  unfold bind at 1, query, rolled_back. rewrite Hnd. cbn.
  destruct (first _ _); [eexists _, _; split; [reflexivity | exact Hnd]|].
  unfold bind, uuid4, add_flush, next_fault, ret. cbn. rewrite Hnd.
  eexists _, _. split; reflexivity.
Qed.

(** A store that returns, followed by the log row and the commit. *)
Lemma logged_store (source_type : string) (m : M StoredId) (s s1 : Session) (id : StoredId) :
  faults s = [] →
  m s = (s1, inr id) →
  faults s1 = [] →
  with_session (logged source_type m) s
  = ({| tables := add_log (single_log_row (next_uuid s1) source_type) (tables s1);
        next_uuid := N.succ (next_uuid s1);
        faults := [] |},
     inr (Stored id)).
Proof.
  intros Hopen Hrun Hnone. unfold with_session, get_db_async, logged. rewrite Hopen. cbv zeta.
  unfold bind at 1. rewrite Hrun.
  unfold bind, _log_ingestion, uuid4, add_flush, close_db_async, next_fault, ret.
  cbn. rewrite Hnone. cbn. reflexivity.
Qed.

(** X18.  Storing the same prediction twice through [store_transit_data],
    in a database that accepts every write: both calls report success with
    the same id and the second adds no prediction row, yet it appends a
    log row like the first, with one record inserted. *)
Theorem restoring_a_prediction_logs_an_insert (prediction : Prediction)
    (source_type : string) (s : Session) :
  faults s = [] →
  let first_call :=
    store_transit_data auto_seed_missing_entities (DPrediction prediction) source_type s in
  let second_call :=
    store_transit_data auto_seed_missing_entities (DPrediction prediction) source_type
      (fst first_call) in
  ∃ id,
    snd first_call = Stored id
    ∧ snd second_call = Stored id
    ∧ predictions (tables (fst second_call)) = predictions (tables (fst first_call))
    ∧ data_ingestion_logs (tables (fst second_call))
      = data_ingestion_logs (tables (fst first_call))
        ++ [single_log_row (next_uuid (fst first_call)) source_type].
Proof.
  intros Hnone. cbv zeta.
  destruct (store_prediction_accepts prediction s Hnone) as (s1 & id1 & Hrun1 & Hnone1).
  destruct (store_prediction_stores _ _ _ _ _ Hrun1)
    as (row & Hfirst & -> & Hroute & Hstop & Htrip & Hvehicle & _ & Hopen1).
  pose (s2 := {| tables := add_log (single_log_row (next_uuid s1) source_type) (tables s1);
                 next_uuid := N.succ (next_uuid s1);
                 faults := [] |}).
  assert (Hcall1 : store_transit_data auto_seed_missing_entities (DPrediction prediction)
                     source_type s = (s2, Stored (Uuid (dp_id row)))).
  { unfold store_transit_data. rewrite (logged_store _ _ _ _ _ Hnone Hrun1 Hnone1).
    reflexivity. }
  assert (Hgrow : tables_grow (tables s1) (tables s2))
    by (unfold tables_grow; cbn; repeat split; reflexivity).
  assert (Hrun2 : _store_prediction auto_seed_missing_entities prediction s2
                  = (s2, inr (Uuid (dp_id row)))).
  { apply store_prediction_found;
      [apply Hroute | apply Hstop | apply Htrip | apply Hvehicle | exact Hfirst];
      (reflexivity || exact Hgrow). }
  assert (Hcall2 : store_transit_data auto_seed_missing_entities (DPrediction prediction)
                     source_type s2
                   = ({| tables := add_log (single_log_row (next_uuid s2) source_type)
                                     (tables s2);
                         next_uuid := N.succ (next_uuid s2);
                         faults := [] |},
                      Stored (Uuid (dp_id row)))).
  { unfold store_transit_data.
    rewrite (logged_store source_type _ s2 s2 _ eq_refl Hrun2 eq_refl). reflexivity. }
  rewrite Hcall1. cbn [fst snd]. rewrite Hcall2. cbn [fst snd].
  exists (Uuid (dp_id row)). repeat split; reflexivity.
Qed.

End FirstWrites.

Lemma placeholder_route_is_never_replaced_witness :
  ∃ s1,
    Storage.routes (Storage.tables s1) = [Examples.placeholder_route "Red"]
    ∧ Storage._store_route Examples.red_line s1 = (s1, inr (Storage.Key "Red")).
Proof.
  destruct (Storage._store_prediction true Examples.park_street_prediction
              Examples.empty_database) as [s1 [e|id]] eqn:Hrun;
    [vm_compute in Hrun; discriminate|].
  exists s1. split.
  - vm_compute in Hrun. injection Hrun as <- _. reflexivity.
  - apply (placeholder_route_is_never_replaced true Examples.park_street_prediction
             Examples.red_line Examples.empty_database s1 id eq_refl Hrun eq_refl).
Defined.

Lemma unknown_objects_count_as_stored_witness :
  snd (Storage.store_batch true (map Transit.Other ["dict"; "str"]) "mbta_v3_api"
         Examples.empty_database)
  = Storage.BatchDone 2 2 0.
Proof.
  destruct (unknown_objects_count_as_stored true ["dict"; "str"] "dict" "mbta_v3_api"
              Examples.empty_database eq_refl) as (Hbatch & _).
  exact Hbatch.
Defined.

Lemma restoring_a_prediction_logs_an_insert_witness :
  let first_call :=
    Storage.store_transit_data true (Transit.DPrediction Examples.park_street_prediction)
      "mbta_v3_api" Examples.empty_database in
  let second_call :=
    Storage.store_transit_data true (Transit.DPrediction Examples.park_street_prediction)
      "mbta_v3_api" (fst first_call) in
  length (Storage.predictions (Storage.tables (fst second_call))) = 1%nat
  ∧ length (Storage.data_ingestion_logs (Storage.tables (fst second_call))) = 2%nat.
Proof.
  cbv zeta.
  destruct (restoring_a_prediction_logs_an_insert true Examples.park_street_prediction
              "mbta_v3_api" Examples.empty_database eq_refl)
    as (id & _ & _ & Hpredictions & Hlogs).
  rewrite Hpredictions, Hlogs, length_app. split; vm_compute; reflexivity.
Defined.

(** ** GTFS-RT: what the trip-update parser returns *)

Section ParserFacts.
Import GtfsRt TripDelayRule Examples.

Variable utcoffset : Z → Z.

(** Once the header's timestamp has been converted for the metadata, the
    loop converts it again without raising. *)
Lemma parse_entities_carrying (feed : FeedMessage) (feed_timestamp : Z)
    (entities : list FeedEntity) :
  fromtimestamp utcoffset (read_timestamp (header feed)) = inr feed_timestamp →
  ∃ out,
    parse_entities utcoffset feed feed_timestamp entities = inr out
    ∧ let with_update := omap (λ e, (λ tu, (e, tu)) <$> entity_trip_update e) entities in
      map d_trip_id out = map (λ p, entity_id (fst p)) with_update
      ∧ map d_delay out = map (λ p, nonzero_mean (snd p)) with_update
      ∧ map d_route_id out = map (λ p, td_route_id <$> tu_trip (snd p)) with_update
      ∧ Forall (λ u, d_timestamp u = (λ _, feed_timestamp) <$> header_timestamp (header feed)
                     ∧ d_feed_timestamp u = feed_timestamp) out.
Proof.
  intros Hconverted.
  assert (Htimestamp : parse_timestamp utcoffset (header feed)
                       = inr ((λ _, feed_timestamp) <$> header_timestamp (header feed))).
  { unfold parse_timestamp, read_timestamp in *.
    destruct (header_timestamp (header feed)) as [seconds|]; [|reflexivity].
    cbn in Hconverted. rewrite Hconverted. reflexivity. }
  cbv zeta. induction entities as [|e entities (out & Hrun & IHid & IHdelay & IHroute & IHtime)].
  - exists []. repeat split; try reflexivity. constructor.
  - cbn [parse_entities omap list_omap]. rewrite Hrun. unfold parse_entity.
    rewrite Htimestamp.
    destruct (entity_trip_update e) as [tu|] eqn:He.
    + eexists. split; [reflexivity|].
      cbn [map fmap option_fmap option_map fst snd d_trip_id d_delay d_route_id].
      rewrite IHid, IHdelay, IHroute. split; [reflexivity|]. split; [|split].
      * f_equal. rewrite collect_delays_nonzero.
        unfold nonzero_mean, nonzero_delays, overall_delay, Py.truediv.
        destruct (filter _ _); reflexivity.
      * reflexivity.
      * constructor; [split; reflexivity | exact IHtime].
    + exists out. split; [reflexivity|]. cbn. repeat split; assumption.
Qed.

(** X19.  When the header's timestamp is one the host can convert,
    [_parse_trip_updates] returns one update per feed entity that carries a
    trip update, in feed order; its trip id is the id of the entity, and
    its delay is the mean of the arrival and departure delays that are
    present and not zero, absent exactly when there is no such delay; the
    feed timestamp recorded is the converted one, that of the epoch when
    the header has none.  When the conversion raises, as for a timestamp
    past the year 9999, and when the feed cannot be decoded, the parser
    returns no update and leaves the feed metadata alone. *)
Theorem parse_trip_updates_follows_the_feed (feed : FeedMessage) (self : FeedMetadata) :
  let parsed := _parse_trip_updates utcoffset (Some feed) self in
  (∀ feed_timestamp,
     fromtimestamp utcoffset (default 0 (header_timestamp (header feed))) = inr feed_timestamp →
     map d_trip_id (snd parsed) = map (λ p, entity_id (fst p)) (carrying feed)
     ∧ map d_delay (snd parsed) = map (λ p, nonzero_mean (snd p)) (carrying feed)
     ∧ Forall (λ u, d_timestamp u = (λ _, feed_timestamp) <$> header_timestamp (header feed)
                    ∧ d_feed_timestamp u = feed_timestamp) (snd parsed)
     ∧ feed_timestamps (fst parsed) !! "trip_updates" = Some feed_timestamp)
  ∧ (∀ raised,
       fromtimestamp utcoffset (default 0 (header_timestamp (header feed))) = inl raised →
       parsed = (self, []))
  ∧ (max_datetime < default 0 (header_timestamp (header feed))
                    + utcoffset (default 0 (header_timestamp (header feed))) →
     parsed = (self, []))
  ∧ (∀ tu, nonzero_mean tu = None ↔ nonzero_delays tu = [])
  ∧ _parse_trip_updates utcoffset None self = (self, []).
Proof.
  cbv zeta. fold (read_timestamp (header feed)). split; [|split; [|split; [|split]]].
  - intros feed_timestamp Hconverted.
    destruct (parse_entities_carrying feed feed_timestamp (entity feed) Hconverted)
      as (out & Hrun & Hid & Hdelay & _ & Htime).
    cbn [_parse_trip_updates]. rewrite Hconverted, Hrun.
    cbn [fst snd feed_timestamps].
    split; [exact Hid|]. split; [exact Hdelay|]. split; [exact Htime|].
    rewrite lookup_insert_eq. reflexivity.
  - intros raised Hraised. cbn [_parse_trip_updates]. rewrite Hraised. reflexivity.
  - intros Hlate. cbn [_parse_trip_updates]. unfold fromtimestamp. cbv zeta.
    rewrite (proj2 (Z.leb_gt _ max_datetime)) by exact Hlate.
    rewrite andb_false_r. reflexivity.
  - intros tu. unfold nonzero_mean. destruct (nonzero_delays tu); split;
      intros; congruence.
  - reflexivity.
Qed.

End ParserFacts.

Lemma parse_trip_updates_follows_the_feed_witness :
  (let parsed :=
     GtfsRt._parse_trip_updates Examples.eastern_standard_time
       (Some (Examples.trip_update_feed [Examples.stop_time_update 0 60]))
       Examples.no_metadata in
   map GtfsRt.d_trip_id (snd parsed) = ["trip_123"]
   ∧ map GtfsRt.d_delay (snd parsed) = [Some (60 # 1)]
   ∧ GtfsRt.feed_timestamps (fst parsed) !! "trip_updates" = Some 1699982000000000)
  ∧ GtfsRt._parse_trip_updates Examples.utc (Some Examples.far_future_feed)
      Examples.no_metadata
    = (Examples.no_metadata, []).
Proof.
  split.
  - cbv zeta.
    destruct (parse_trip_updates_follows_the_feed Examples.eastern_standard_time
                (Examples.trip_update_feed [Examples.stop_time_update 0 60])
                Examples.no_metadata) as (Hparsed & _).
    destruct (Hparsed 1699982000000000 eq_refl) as (Hid & Hdelay & _ & Hstamp).
    split; [rewrite Hid; reflexivity|].
    split; [rewrite Hdelay; vm_compute; reflexivity | exact Hstamp].
  - destruct (parse_trip_updates_follows_the_feed Examples.utc Examples.far_future_feed
                Examples.no_metadata) as (_ & _ & Hlate & _).
    apply Hlate. vm_compute. reflexivity.
Defined.

(** ** Aggregator: service health *)

Section HealthFacts.
Import Transit Aggregator Examples.

Lemma omap_length_le {A B} (f : A → option B) (l : list A) :
  (length (omap f l) ≤ length l)%nat.
Proof.
  induction l as [|x l IH]; [reflexivity|].
  cbn [omap list_omap]. destruct (f x); cbn [length]; lia.
Qed.

Lemma count_if_le {A} (cond : A → bool) (l : list A) :
  (count_if cond l ≤ length l)%nat.
Proof.
  unfold count_if. induction l as [|x l IH]; [reflexivity|].
  cbn [List.filter]. destruct (cond x); cbn [length]; lia.
Qed.

Lemma distinct_le (l : list string) :
  (size (list_to_set l : gset string) ≤ length l)%nat.
Proof.
  induction l as [|x l IH]; [reflexivity|].
  cbn [list_to_set length]. rewrite size_union_alt, size_singleton.
  assert (Hsub : (list_to_set l ∖ {[x]} : gset string) ⊆ list_to_set l)
    by (apply subseteq_difference_l; reflexivity).
  apply subseteq_size in Hsub. lia.
Qed.

(** A prediction is in at most one class, and in one exactly when it
    counts as delayed. *)
Lemma delay_classes (p : Prediction) :
  let classes := (delay_within 0 300 p, delay_within 300 900 p, delay_over 900 p) in
  (delay_over 0 p = true
   ∧ (classes = (true, false, false) ∨ classes = (false, true, false)
      ∨ classes = (false, false, true)))
  ∨ (delay_over 0 p = false ∧ classes = (false, false, false)).
Proof.
  cbv zeta. unfold delay_within, delay_over, Py.truthy_int.
  destruct (delay p) as [d|]; [|right; split; reflexivity].
  destruct (Z.eqb_spec d 0), (Z.ltb_spec 0 d), (Z.ltb_spec 300 d), (Z.ltb_spec 900 d),
    (Z.leb_spec d 300), (Z.leb_spec d 900); cbn [negb andb]; try lia;
    first [right; split; reflexivity | left; split; [reflexivity|]; tauto].
Qed.

Lemma breakdown_partition (ps : list Prediction) :
  (count_if (delay_within 0 300) ps + count_if (delay_within 300 900) ps
   + count_if (delay_over 900) ps = count_if (delay_over 0) ps)%nat.
Proof.
  unfold count_if. induction ps as [|p ps IH]; [reflexivity|].
  cbn [List.filter].
  destruct (delay_classes p) as [[-> [Hc|[Hc|Hc]]]|[-> Hc]];
    injection Hc as -> -> ->; cbn [length]; lia.
Qed.

Lemma delayed_positive (ps : list Prediction) :
  count_if (delay_over 0) ps = length (filter (λ d, 0 < d) (omap delay ps)).
Proof.
  unfold count_if. induction ps as [|p ps IH]; [reflexivity|].
  cbn [List.filter omap list_omap]. unfold delay_over at 1, Py.truthy_int.
  destruct (delay p) as [d|]; [|exact IH].
  rewrite filter_cons.
  destruct (Z.eqb_spec d 0), (Z.ltb_spec 0 d), (decide (0 < d));
    cbn [negb andb length]; try lia; rewrite IH; reflexivity.
Qed.

(** X20.  The delay breakdown of the health summary partitions the
    delayed predictions: every prediction that is late by a second or more
    falls in exactly one of the classes minor, moderate and major, and a
    prediction that is early, on time or without delay data in none.  The
    numbers of active routes and stops and of delayed predictions never
    exceed the number of predictions. *)
Theorem delay_breakdown_partitions_the_delayed (self : DataAggregator) :
  let health := get_service_health_summary self in
  let metrics := _get_service_metrics self in
  (minor health + moderate health + major health = delayed_predictions metrics)%nat
  ∧ (delayed_predictions metrics ≤ total_predictions health)%nat
  ∧ (active_routes metrics ≤ total_predictions health)%nat
  ∧ (active_stops metrics ≤ total_predictions health)%nat
  ∧ delayed_predictions metrics
    = length (filter (λ d, 0 < d) (omap delay (predictions self))).
Proof.
  cbv zeta.
  cbn [get_service_health_summary _get_service_metrics minor moderate major
       delayed_predictions total_predictions active_routes active_stops].
  pose proof (omap_length_le as_prediction (get self "Prediction")) as Hbuffer.
  fold (predictions self) in Hbuffer.
  split; [apply breakdown_partition|]. split; [|split; [|split]].
  - pose proof (count_if_le (delay_over 0) (predictions self)). lia.
  - pose proof (distinct_le (map p_route_id (predictions self))) as Hle.
    rewrite length_map in Hle. lia.
  - pose proof (distinct_le (map p_stop_id (predictions self))) as Hle.
    rewrite length_map in Hle. lia.
  - apply delayed_positive.
Qed.

Lemma Qltb_mono (x y y' : Q) : (y <= y')%Q → Py.Qltb x y = true → Py.Qltb x y' = true.
Proof.
  intros Hle Hlt. apply Qltb_lt in Hlt. apply Qltb_lt.
  apply Qlt_le_trans with y; assumption.
Qed.

(** X21.  The overall service status never improves when the share of
    delayed predictions or the number of alerts grows; it is "excellent"
    exactly when at most 5 percent are delayed and there are at most 2
    alerts, and "poor" exactly when more than 20 percent are delayed or
    there are more than 10 alerts. *)
Theorem service_status_is_monotone (delay_percentage delay_percentage' : Q)
    (total_alerts total_alerts' : Z) :
  (delay_percentage <= delay_percentage')%Q →
  total_alerts ≤ total_alerts' →
  (service_rank (_get_overall_service_status delay_percentage total_alerts)
   ≤ service_rank (_get_overall_service_status delay_percentage' total_alerts'))%nat
  ∧ (_get_overall_service_status delay_percentage total_alerts = "excellent"
     ↔ (delay_percentage <= 5)%Q ∧ total_alerts ≤ 2)
  ∧ (_get_overall_service_status delay_percentage total_alerts = "poor"
     ↔ (20 < delay_percentage)%Q ∨ 10 < total_alerts).
Proof.
  intros Hp Ha. unfold _get_overall_service_status.
  assert (Hmono : ∀ x, Py.Qltb x delay_percentage = true → Py.Qltb x delay_percentage' = true)
    by (intros x; apply Qltb_mono, Hp).
  split; [|split].
  - destruct (Py.Qltb 20 delay_percentage) eqn:H20; [rewrite (Hmono _ H20); cbn; lia|].
    destruct (Py.Qltb 10 delay_percentage) eqn:H10; [rewrite (Hmono _ H10)|];
      (destruct (Py.Qltb 5 delay_percentage) eqn:H5; [rewrite (Hmono _ H5)|]);
      destruct (Py.Qltb 20 delay_percentage'), (Py.Qltb 10 delay_percentage'),
        (Py.Qltb 5 delay_percentage');
      destruct (Z.ltb_spec 10 total_alerts), (Z.ltb_spec 5 total_alerts),
        (Z.ltb_spec 2 total_alerts), (Z.ltb_spec 10 total_alerts'),
        (Z.ltb_spec 5 total_alerts'), (Z.ltb_spec 2 total_alerts');
      cbn; lia.
  - destruct (Py.Qltb 20 delay_percentage) eqn:H20, (Py.Qltb 10 delay_percentage) eqn:H10,
      (Py.Qltb 5 delay_percentage) eqn:H5;
      destruct (Z.ltb_spec 10 total_alerts), (Z.ltb_spec 5 total_alerts),
        (Z.ltb_spec 2 total_alerts); cbn; split;
      try discriminate; try (intros [Hq Hz]; try lia);
      try (apply Qltb_lt in H5; exfalso; revert H5; apply Qle_not_lt; exact Hq);
      try (apply Qltb_lt in H10; exfalso; revert H10; apply Qle_not_lt;
           apply Qle_trans with 5%Q; [exact Hq | unfold Qle; cbn; lia]);
      try (apply Qltb_lt in H20; exfalso; revert H20; apply Qle_not_lt;
           apply Qle_trans with 5%Q; [exact Hq | unfold Qle; cbn; lia]);
      try reflexivity.
    intros _. split; [|lia]. apply Qltb_ge in H5. exact H5.
  - destruct (Py.Qltb 20 delay_percentage) eqn:H20.
    + cbn. split; [intros _; left; apply Qltb_lt, H20 | reflexivity].
    + apply Qltb_ge in H20.
      destruct (Z.ltb_spec 10 total_alerts); cbn;
        [split; [intros _; right; assumption | reflexivity]|].
      split.
      * destruct (_ || _); [discriminate|]. destruct (_ || _); discriminate.
      * intros [Hq|Hz]; [|lia]. exfalso. revert Hq. apply Qle_not_lt. exact H20.
Qed.

Lemma service_status_is_monotone_witness :
  (service_rank (_get_overall_service_status 4 2)
   ≤ service_rank (_get_overall_service_status 12 2))%nat.
Proof.
  destruct (service_status_is_monotone 4 12 2 2) as (Hrank & _);
    [unfold Qle; cbn; lia | lia | exact Hrank].
Defined.

End HealthFacts.

(** ** REST ingestor: client errors are retried *)

Section ClientErrorFacts.
Import RestIngestor RestRetry Examples.

Context {Payload : Type}.

Lemma client_failures_frame (cfg : Config) (rest : list (Attempt Payload)) :
  0 < rate_limit_requests_per_minute cfg →
  ∀ (failing : list (Attempt Payload)) (callers : list nat) (retries : nat) (st : State),
    Forall client_failure failing →
    Z.of_nat (retries + length failing) ≤ max_retries cfg →
    ∃ st',
      _make_request cfg (failing ++ rest) callers retries st
      = _make_request cfg rest callers (retries + length failing) st'
      ∧ waits RequestFailed (trace st')
        = waits RequestFailed (trace st)
          ++ map (backoff cfg) (seq retries (length failing)).
Proof.
  intros Hquota. induction failing as [|a failing IH];
    intros callers retries st Hfailures Hroom.
  - exists st. cbn [app length seq map]. rewrite Nat.add_0_r, app_nil_r.
    split; reflexivity.
  - apply Forall_cons in Hfailures as [Ha Hfailures]. cbn [length] in Hroom.
    destruct (check_rate_limit_returns cfg st Hquota) as [st1 Hadmit].
    destruct (IH callers (S retries) (sleep RequestFailed (backoff cfg retries) st1)
                Hfailures ltac:(lia)) as (st' & Hrun & Hwaits).
    exists st'. split.
    + cbn [app _make_request]. rewrite Hadmit. cbn [except_ClientError].
      rewrite (proj2 (Z.ltb_lt (Z.of_nat retries) (max_retries cfg))) by lia.
      cbn [length]. rewrite Nat.add_succ_r.
      change (S retries + length failing)%nat with (S (retries + length failing)) in Hrun.
      rewrite <- Hrun.
      destruct a as [status retry_after body|]; [|reflexivity].
      destruct Ha as [[Hlo Hhi] Hnot429].
      rewrite (proj2 (Z.eqb_neq status 200)) by lia.
      rewrite (proj2 (Z.eqb_neq status 429)) by exact Hnot429.
      rewrite (proj2 (Z.leb_gt 500 status)) by lia. cbn [andb].
      rewrite (proj2 (Z.leb_le 400 status)) by lia. reflexivity.
    + rewrite Hwaits. cbn [sleep trace length seq map]. unfold waits at 1.
      rewrite omap_app. cbn [omap list_omap]. rewrite decide_True by reflexivity.
      fold (waits RequestFailed (trace st1)).
      rewrite (check_rate_limit_waits cfg st st1 RequestFailed) by (discriminate || exact Hadmit).
      rewrite <- app_assoc. reflexivity.
Qed.

(** X22.  A 4xx answer other than 429 is retried like a transport
    failure: [raise_for_status] raises inside the [try] and the [except]
    clause retries while retries are left.  After at most [max_retries]
    such failures a 200 answer is returned to the caller, and the waits in
    between are [retry_delay], twice that, four times that and so on. *)
Theorem client_errors_are_retried_with_backoff (cfg : Config)
    (failing rest : list (Attempt Payload)) (retry_after : RetryAfter) (body : Payload)
    (st : State) :
  0 < rate_limit_requests_per_minute cfg →
  Forall client_failure failing →
  Z.of_nat (length failing) ≤ max_retries cfg →
  ∃ st',
    _make_request cfg (failing ++ Responds 200 retry_after body :: rest) [] 0 st
    = (st', Some (Returns (Some body)))
    ∧ waits RequestFailed (trace st')
      = waits RequestFailed (trace st)
        ++ map (λ i, retry_delay cfg * 2 ^ Z.of_nat i * second) (seq 0 (length failing)).
Proof.
  intros Hquota Hfailures Hroom.
  destruct (client_failures_frame cfg (Responds 200 retry_after body :: rest) Hquota
              failing [] 0%nat st Hfailures ltac:(cbn; lia)) as (st1 & Hrun & Hwaits).
  destruct (check_rate_limit_returns cfg st1 Hquota) as [st2 Hadmit].
  exists st2. split.
  - rewrite Hrun. cbn [_make_request]. rewrite Hadmit. reflexivity.
  - rewrite (check_rate_limit_waits cfg st1 st2 RequestFailed) by (discriminate || exact Hadmit).
    exact Hwaits.
Qed.

End ClientErrorFacts.

Lemma client_errors_are_retried_with_backoff_witness :
  ∃ st',
    RestRetry._make_request Examples.one_retry
      [RestIngestor.Responds 404 RestIngestor.Absent ""; Examples.page] [] 0
      (RestIngestor.initial 0)
    = (st', Some (RestIngestor.Returns (Some "data")))
    ∧ RestIngestor.waits RestIngestor.RequestFailed (RestIngestor.trace st')
      = [5 * RestIngestor.second].
Proof.
  destruct (client_errors_are_retried_with_backoff Examples.one_retry
              [RestIngestor.Responds 404 RestIngestor.Absent ""] []
              RestIngestor.Absent "data" (RestIngestor.initial 0))
    as (st' & Hrun & Hwaits).
  - reflexivity.
  - repeat constructor; cbn; lia.
  - cbn. lia.
  - exists st'. split; [exact Hrun | exact Hwaits].
Defined.

(** ** Persistence gateway: placeholder trips, and records that are
    appended *)

Section ParentFacts.
Import Transit Storage Examples.

Variable auto_seed_missing_entities : bool.

Ltac run_parents H :=
  unfold bind, query, ret, add_flush, uuid4, next_fault, rolled_back in H; cbn in H;
  repeat case_match; simplify_eq; cbn in *.

Lemma ensure_route_rows (route_id : string) (s s' : Session) :
  _ensure_route_exists route_id s = (s', inr tt) →
  (∀ r, r ∈ routes (tables s') → r ∈ routes (tables s) ∨ r_id r = route_id)
  ∧ trips (tables s') = trips (tables s).
Proof.
  unfold _ensure_route_exists. intros Hrun. run_parents Hrun;
    (split; [|reflexivity]); intros r Hr; try (left; exact Hr).
  all: apply elem_of_app in Hr as [Hr|Hr]; [left; exact Hr|].
  all: apply list_elem_of_singleton in Hr as ->; right; reflexivity.
Qed.

Lemma ensure_stop_rows (stop_id : string) (s s' : Session) :
  _ensure_stop_exists stop_id s = (s', inr tt) →
  routes (tables s') = routes (tables s) ∧ trips (tables s') = trips (tables s).
Proof.
  unfold _ensure_stop_exists. intros Hrun. run_parents Hrun; split; reflexivity.
Qed.

Lemma ensure_trip_rows (trip_id : string) (s s' : Session) :
  first (λ r, String.eqb (dt_id r) trip_id) (trips (tables s)) = None →
  _ensure_trip_exists trip_id s = (s', inr tt) →
  routes (tables s') = routes (tables s)
  ∧ trips (tables s') = trips (tables s) ++ [placeholder_trip trip_id].
Proof.
  unfold _ensure_trip_exists. intros Hnone Hrun.
  pose proof (bind_query_open _ _ _ _ _ Hrun) as Hopen.
  unfold bind at 1, query in Hrun.
  rewrite Hopen, Hnone in Hrun. apply add_flush_returns in Hrun. rewrite Hrun.
  split; reflexivity.
Qed.

Lemma seed_vehicle_rows (vehicle_id label : option string) (s s' : Session) :
  seed_vehicle auto_seed_missing_entities vehicle_id label s = (s', inr tt) →
  routes (tables s') = routes (tables s) ∧ trips (tables s') = trips (tables s).
Proof.
  unfold seed_vehicle, _ensure_vehicle_exists. intros Hrun.
  destruct vehicle_id as [v|]; [|unfold ret in Hrun; simplify_eq; split; reflexivity].
  destruct (auto_seed_missing_entities && Py.truthy_str (Some v));
    [|unfold ret in Hrun; simplify_eq; split; reflexivity].
  destruct (String.eqb v ""); [unfold ret in Hrun; simplify_eq; split; reflexivity|].
  run_parents Hrun; split; reflexivity.
Qed.

(** X23.  A prediction for a trip the database does not know makes the
    gateway flush a trip row that names the route "unknown", with 0 for the
    two accessibility columns, and the gateway never writes a route of that
    name.  So, unless the prediction itself is for a route called "unknown"
    or such a route is stored: if the call returns, the foreign key from
    trips to routes does not hold in the tables after it; and if the
    database enforces the key when that row is flushed, the call raises and
    leaves the transaction rolled back. *)
Theorem placeholder_trip_names_no_route (prediction : Prediction) (s s1 : Session)
    (r : string + StoredId) :
  first (λ r, String.eqb (dt_id r) (p_trip_id prediction)) (trips (tables s)) = None →
  (∀ r, r ∈ routes (tables s) → r_id r ≠ "unknown") →
  p_route_id prediction ≠ "unknown" →
  _store_prediction auto_seed_missing_entities prediction s = (s1, r) →
  (∀ id, r = inr id →
     placeholder_trip (p_trip_id prediction) ∈ trips (tables s1)
     ∧ (∀ r, r ∈ routes (tables s1) → r_id r ≠ "unknown")
     ∧ ¬ trips_name_routes (tables s1))
  ∧ (∀ sa sb,
       _ensure_route_exists (p_route_id prediction) s = (sa, inr tt) →
       _ensure_stop_exists (p_stop_id prediction) sa = (sb, inr tt) →
       refuses_orphan_trips sb →
       r = inl "SQLAlchemyError" ∧ rolled_back s1 = true).
Proof.
  intros Hnew Hroutes Hnamed Hrun. split.
  - intros id ->.
    assert (Hrows : placeholder_trip (p_trip_id prediction) ∈ trips (tables s1)
                    ∧ ∀ r, r ∈ routes (tables s1) → r_id r ≠ "unknown").
    { unfold _store_prediction in Hrun.
      apply bind_returns in Hrun as (sa & [] & Hroute & Hrun).
      apply bind_returns in Hrun as (sb & [] & Hstop & Hrun).
      apply bind_returns in Hrun as (sc & [] & Htrip & Hrun).
      apply bind_returns in Hrun as (sd & [] & Hvehicle & Hrun).
      apply ensure_route_rows in Hroute as (Hroutes_a & Htrips_a).
      apply ensure_stop_rows in Hstop as (Hroutes_b & Htrips_b).
      apply ensure_trip_rows in Htrip as (Hroutes_c & Htrips_c);
        [|rewrite Htrips_b, Htrips_a; exact Hnew].
      apply seed_vehicle_rows in Hvehicle as (Hroutes_d & Htrips_d).
      assert (Hlast : routes (tables s1) = routes (tables sd)
                      ∧ trips (tables s1) = trips (tables sd)).
      { pose proof (bind_query_open _ _ _ _ _ Hrun) as Hopen.
        unfold bind at 1, query in Hrun. rewrite Hopen in Hrun.
        destruct (first (same_key prediction) (predictions (tables sd))) as [existing|].
        - unfold ret in Hrun. injection Hrun as <- _. split; reflexivity.
        - run_parents Hrun; split; reflexivity. }
      destruct Hlast as (Hroutes_e & Htrips_e). split.
      - rewrite Htrips_e, Htrips_d, Htrips_c. apply elem_of_app. right. left.
      - intros r Hr. rewrite Hroutes_e, Hroutes_d, Hroutes_c, Hroutes_b in Hr.
        destruct (Hroutes_a r Hr) as [Hold| ->]; [apply Hroutes, Hold | exact Hnamed]. }
    destruct Hrows as (Htrip & Hnone). split; [exact Htrip|]. split; [exact Hnone|].
    intros Hkey. destruct (Hkey _ Htrip) as (route & Hroute & Hid).
    exact (Hnone route Hroute Hid).
  - intros sa sb Hroute Hstop Henforced.
    assert (Hraises : r = inl "SQLAlchemyError").
    { pose proof (bind_query_open _ _ _ _ _ Hstop) as Hopen_a.
      pose proof (returns_open _ _ _ _ (ensure_stop_transactional _) Hopen_a Hstop) as Hopen_b.
      pose proof (ensure_route_rows _ _ _ Hroute) as (Hroutes_a & Htrips_a).
      pose proof (ensure_stop_rows _ _ _ Hstop) as (Hroutes_b & Htrips_b).
      unfold _store_prediction in Hrun.
      unfold bind at 1 in Hrun. rewrite Hroute in Hrun.
      unfold bind at 1 in Hrun. rewrite Hstop in Hrun.
      unfold bind at 1, _ensure_trip_exists, bind at 1, query in Hrun.
      rewrite Hopen_b, Htrips_b, Htrips_a, Hnew in Hrun.
      match type of Hrun with
      | context [add_flush (add_trip ?row) sb] =>
          pose proof (Henforced row) as Hrefused;
          destruct (add_flush (add_trip row) sb) as [sc [e|[]]]
      end.
      - cbn in Hrefused. cbv beta iota in Hrun. injection Hrun as _ <-.
        assert (e = "SQLAlchemyError") as ->; [|reflexivity].
        assert (He : @inl string unit e = inl "SQLAlchemyError"); [|congruence].
        apply Hrefused. intros route Hin. rewrite Hroutes_b in Hin. cbn.
        destruct (Hroutes_a route Hin) as [Hold| ->]; [apply Hroutes, Hold | exact Hnamed].
      - cbn in Hrefused. exfalso. assert (Hno : @inr string unit () = inl "SQLAlchemyError");
          [|discriminate].
        apply Hrefused. intros route Hin. rewrite Hroutes_b in Hin. cbn.
        destruct (Hroutes_a route Hin) as [Hold| ->]; [apply Hroutes, Hold | exact Hnamed]. }
    split; [exact Hraises|].
    destruct (store_prediction_transactional _ _ _ _ _ Hrun) as (_ & Hrolled & _).
    apply Hrolled. rewrite Hraises. eauto.
Qed.

Lemma ensure_route_adds_parents_only (route_id : string) :
  adds_parents_only (_ensure_route_exists route_id).
Proof.
  intros s Hnone. unfold _ensure_route_exists, bind, query, rolled_back. rewrite Hnone. cbn.
  destruct (first _ _); [exists s; repeat split; assumption|].
  unfold add_flush, next_fault. rewrite Hnone. cbn.
  eexists. split; [reflexivity|]. cbn. repeat split; assumption.
Qed.

Lemma ensure_trip_adds_parents_only (trip_id : string) :
  adds_parents_only (_ensure_trip_exists trip_id).
Proof.
  intros s Hnone. unfold _ensure_trip_exists, bind, query, rolled_back. rewrite Hnone. cbn.
  destruct (first _ _); [exists s; repeat split; assumption|].
  unfold add_flush, next_fault. rewrite Hnone. cbn.
  eexists. split; [reflexivity|]. cbn. repeat split; assumption.
Qed.

Lemma seed_vehicle_adds_parents_only (vehicle_id label : option string) :
  adds_parents_only (seed_vehicle auto_seed_missing_entities vehicle_id label).
Proof.
  intros s Hnone. unfold seed_vehicle.
  destruct vehicle_id as [v|]; [|exists s; repeat split; assumption].
  destruct (auto_seed_missing_entities && Py.truthy_str (Some v));
    [|exists s; repeat split; assumption].
  unfold _ensure_vehicle_exists.
  destruct (String.eqb v ""); [exists s; repeat split; assumption|].
  unfold bind, query, rolled_back. rewrite Hnone. cbn.
  destruct (first _ _); [exists s; repeat split; assumption|].
  unfold add_flush, next_fault. rewrite Hnone. cbn.
  eexists. split; [reflexivity|]. cbn. repeat split; assumption.
Qed.

Lemma when_truthy_adds_parents_only (id : option string) (ensure : string → M unit) :
  (∀ v, adds_parents_only (ensure v)) → adds_parents_only (when_truthy id ensure).
Proof.
  intros Hensure s Hnone. unfold when_truthy.
  destruct id as [v|]; [|exists s; repeat split; assumption].
  destruct (Py.truthy_str (Some v)); [apply Hensure, Hnone|].
  exists s. repeat split; assumption.
Qed.

(** One call on a trip update or on a vehicle position, in a database
    that accepts every write: a row is appended under the next id. *)
Lemma store_trip_update_appends (update : TripUpdate) (s : Session) :
  faults s = [] →
  ∃ s1,
    _store_trip_update update s = (s1, inr (Uuid (next_uuid s)))
    ∧ faults s1 = []
    ∧ next_uuid s1 = N.succ (next_uuid s)
    ∧ length (trip_updates (tables s1)) = S (length (trip_updates (tables s))).
Proof.
  intros Hnone. unfold _store_trip_update.
  destruct (ensure_trip_adds_parents_only (u_trip_id update) s Hnone)
    as (sa & Ha & Hna & Hida & Hrows_a & _).
  destruct (when_truthy_adds_parents_only (u_route_id update) _ensure_route_exists
              ensure_route_adds_parents_only sa Hna)
    as (sb & Hb & Hnb & Hidb & Hrows_b & _).
  unfold bind at 1. rewrite Ha. unfold bind at 1. rewrite Hb.
  unfold bind, uuid4, add_flush, next_fault, ret. cbn. rewrite Hnb.
  eexists. split; [rewrite Hidb, Hida; reflexivity|]. cbn.
  rewrite length_app, Hrows_b, Hrows_a. cbn. repeat split; lia.
Qed.

Lemma store_vehicle_position_appends (position : VehiclePosition) (s : Session) :
  faults s = [] →
  ∃ s1,
    _store_vehicle_position auto_seed_missing_entities position s
    = (s1, inr (Uuid (next_uuid s)))
    ∧ faults s1 = []
    ∧ next_uuid s1 = N.succ (next_uuid s)
    ∧ length (vehicle_positions (tables s1)) = S (length (vehicle_positions (tables s))).
Proof.
  intros Hnone. unfold _store_vehicle_position.
  destruct (when_truthy_adds_parents_only (v_route_id position) _ensure_route_exists
              ensure_route_adds_parents_only s Hnone)
    as (sa & Ha & Hna & Hida & _ & Hrows_a).
  destruct (when_truthy_adds_parents_only (v_trip_id position) _ensure_trip_exists
              ensure_trip_adds_parents_only sa Hna)
    as (sb & Hb & Hnb & Hidb & _ & Hrows_b).
  destruct (seed_vehicle_adds_parents_only (Some (v_vehicle_id position)) None sb Hnb)
    as (sc & Hc & Hnc & Hidc & _ & Hrows_c).
  unfold bind at 1. rewrite Ha. unfold bind at 1. rewrite Hb.
  unfold bind at 1. rewrite Hc.
  unfold bind, uuid4, add_flush, next_fault, ret. cbn. rewrite Hnc.
  eexists. split; [rewrite Hidc, Hidb, Hida; reflexivity|]. cbn.
  rewrite length_app, Hrows_c, Hrows_b, Hrows_a. cbn. repeat split; lia.
Qed.

(** X24.  Trip updates and vehicle positions are appended, never looked
    up: in a database that accepts every write, storing the same record
    twice returns two different ids and leaves two rows, where a
    prediction or an alert stored twice leaves one. *)
Theorem trip_updates_and_positions_are_appended (update : TripUpdate)
    (position : VehiclePosition) (s : Session) :
  faults s = [] →
  (∃ s1 s2,
     _store_trip_update update s = (s1, inr (Uuid (next_uuid s)))
     ∧ _store_trip_update update s1 = (s2, inr (Uuid (N.succ (next_uuid s))))
     ∧ length (trip_updates (tables s2)) = S (S (length (trip_updates (tables s)))))
  ∧ (∃ s1 s2,
     _store_vehicle_position auto_seed_missing_entities position s
     = (s1, inr (Uuid (next_uuid s)))
     ∧ _store_vehicle_position auto_seed_missing_entities position s1
       = (s2, inr (Uuid (N.succ (next_uuid s))))
     ∧ length (vehicle_positions (tables s2))
       = S (S (length (vehicle_positions (tables s))))).
Proof.
  intros Hnone. split.
  - destruct (store_trip_update_appends update s Hnone) as (s1 & Hrun1 & Hnone1 & Hid1 & Hlen1).
    destruct (store_trip_update_appends update s1 Hnone1) as (s2 & Hrun2 & _ & _ & Hlen2).
    exists s1, s2. rewrite Hid1 in Hrun2. rewrite Hlen2, Hlen1.
    split; [exact Hrun1|]. split; [exact Hrun2 | reflexivity].
  - destruct (store_vehicle_position_appends position s Hnone)
      as (s1 & Hrun1 & Hnone1 & Hid1 & Hlen1).
    destruct (store_vehicle_position_appends position s1 Hnone1)
      as (s2 & Hrun2 & _ & _ & Hlen2).
    exists s1, s2. rewrite Hid1 in Hrun2. rewrite Hlen2, Hlen1.
    split; [exact Hrun1|]. split; [exact Hrun2 | reflexivity].
Qed.

End ParentFacts.

Lemma placeholder_trip_names_no_route_witness :
  (∃ s1, ¬ Examples.trips_name_routes (Storage.tables s1)
         ∧ Storage.trips (Storage.tables s1) = [Examples.placeholder_trip "trip_123"])
  ∧ snd (Storage._store_prediction true Examples.park_street_prediction
           Examples.third_flush_fails) = inl "SQLAlchemyError".
Proof.
  split.
  - destruct (Storage._store_prediction true Examples.park_street_prediction
                Examples.empty_database) as [s1 [e|id]] eqn:Hrun;
      [vm_compute in Hrun; discriminate|].
    exists s1. split.
    + destruct (placeholder_trip_names_no_route true Examples.park_street_prediction
                  Examples.empty_database s1 (inr id) eq_refl) as [Hbroken _];
        [intros r Hr; apply elem_of_nil in Hr; destruct Hr | discriminate | exact Hrun|].
      apply (Hbroken id eq_refl).
    + vm_compute in Hrun. injection Hrun as <- _. reflexivity.
  - destruct (Storage._store_prediction true Examples.park_street_prediction
                Examples.third_flush_fails) as [s1 r] eqn:Hrun.
    destruct (placeholder_trip_names_no_route true Examples.park_street_prediction
                Examples.third_flush_fails s1 r eq_refl) as [_ Hrefused];
      [intros route Hr; apply elem_of_nil in Hr; destruct Hr | discriminate | exact Hrun|].
    destruct (Storage._ensure_route_exists "Red" Examples.third_flush_fails)
      as [sa ra] eqn:Hroute.
    destruct (Storage._ensure_stop_exists "place-pktrm" sa) as [sb rb] eqn:Hstop.
    pose proof Hroute as Hroute'. vm_compute in Hroute'. injection Hroute' as <- <-.
    pose proof Hstop as Hstop'. vm_compute in Hstop'. injection Hstop' as <- <-.
    destruct (Hrefused _ _ Hroute Hstop) as [Hraises _]; [|exact Hraises].
    intros trip _. reflexivity.
Defined.

Lemma trip_updates_and_positions_are_appended_witness :
  ∃ s1 s2,
    Storage._store_trip_update (Examples.update_at 0 None) Examples.empty_database
    = (s1, inr (Storage.Uuid 0))
    ∧ Storage._store_trip_update (Examples.update_at 0 None) s1
      = (s2, inr (Storage.Uuid 1)).
Proof.
  destruct (trip_updates_and_positions_are_appended true (Examples.update_at 0 None)
              Examples.boston_position Examples.empty_database eq_refl)
    as [(s1 & s2 & Hrun1 & Hrun2 & _) _].
  exists s1, s2. split; [exact Hrun1 | exact Hrun2].
Defined.
